(** * RETE custodial token settlement layer

    A shallow embedding of the settlement code of the RETE server:
    - [server/blockchain.ts]: the key vault ([encryptPrivateKey],
      [decryptPrivateKey]), the authorization signer and the chain gateway;
    - [server/storage.ts]: the relational store ([DatabaseStorage]);
    - [server/routes.ts]: the settlement request handlers.

    Node's [crypto] module, the [ethers] library and the JSON-RPC endpoint
    are external to the repository; they appear as type classes whose
    methods are the calls the source makes. *)

From Stdlib Require Import ZArith NArith QArith List String Ascii Bool Lia.
From Stdlib Require Import Strings.Byte DecimalString Permutation.
Import ListNotations.

Local Open Scope list_scope.
Local Open Scope string_scope.
Local Open Scope Z_scope.

Set Implicit Arguments.

(** ** JavaScript values shared by every module *)

(** A thrown value: an [Error] carrying its message, or the [ZodError]
    raised by a schema's [parse]. *)
Inductive JsError : Type :=
| Error (message : string)
| ZodError.

(** The outcome of a call that may throw. *)
Inductive Outcome (A : Type) : Type :=
| Ok (a : A)
| Throw (e : JsError).
Arguments Ok {A} a.
Arguments Throw {A} e.

(** [!s] for a value of type [string | undefined]. *)
Definition falsy (s : option string) : bool :=
  match s with
  | None => true
  | Some EmptyString => true
  | Some _ => false
  end.

(** The variables destructured from [process.env] at the top of
    [blockchain.ts]. *)
Record Env : Type := mkEnv {
  RPC_URL : option string;
  PRIVATE_KEY : option string;
  FACTORY_ADDRESS : option string;
  TOKEN_ADDRESS : option string;
  CHAIN_ID : option string;
  WALLET_ENCRYPTION_KEY : option string
}.

(** ** Key vault ([blockchain.ts], lines 13-84) *)
Module KeyVault.

Definition ALGORITHM : string := "aes-256-gcm".
Definition IV_LENGTH : nat := 16.
Definition SALT_LENGTH : nat := 32.
Definition KEY_LENGTH : nat := 32.

(** *** Hex encoding, as [Buffer.toString("hex")] and [Buffer.from(s, "hex")] *)

Definition hex_digit (n : N) : ascii :=
  if (n <? 10)%N then ascii_of_N (48 + n) else ascii_of_N (87 + n).

Definition byte_to_hex (b : byte) : string :=
  let n := Byte.to_N b in
  String (hex_digit (n / 16)) (String (hex_digit (n mod 16)) EmptyString).

Fixpoint to_hex (bs : list byte) : string :=
  match bs with
  | [] => EmptyString
  | b :: rest => byte_to_hex b ++ to_hex rest
  end.

Definition hex_value (c : ascii) : option N :=
  let n := N_of_ascii c in
  if ((48 <=? n) && (n <=? 57))%N then Some (n - 48)%N
  else if ((97 <=? n) && (n <=? 102))%N then Some (n - 87)%N
  else if ((65 <=? n) && (n <=? 70))%N then Some (n - 55)%N
  else None.

(** Decoding reads two digits at a time and stops at the first pair that is
    not hexadecimal; a trailing single character is dropped. *)
Fixpoint from_hex (s : string) : list byte :=
  match s with
  | String hi (String lo rest) =>
      match hex_value hi, hex_value lo with
      | Some h, Some l =>
          match Byte.of_N (16 * h + l) with
          | Some b => b :: from_hex rest
          | None => []
          end
      | _, _ => []
      end
  | _ => []
  end.

(** *** [String.prototype.split] on a one-character separator *)

Fixpoint split_aux (sep : ascii) (s : string) : string * list string :=
  match s with
  | EmptyString => (EmptyString, [])
  | String a s' =>
      let (h, t) := split_aux sep s' in
      if Ascii.eqb a sep then (EmptyString, h :: t) else (String a h, t)
  end.

Definition split (sep : ascii) (s : string) : list string :=
  let (h, t) := split_aux sep s in h :: t.

Definition colon : ascii := ":"%char.

(** *** Text encoding

    A JavaScript string is represented by the bytes of its UTF-8 encoding,
    so encoding with ["utf8"] yields the bytes of the string and decoding
    gives them back.  This is exact for every well-formed string, and in
    particular for private keys, which are ASCII. *)
Definition utf8_encode (s : string) : list byte := list_byte_of_string s.
Definition utf8_decode (bs : list byte) : string := string_of_list_byte bs.

(** *** Node's [crypto] primitives used by the vault *)
Class NodeCrypto : Type := {
  (** [scryptSync(password, salt, keylen)] *)
  scryptSync : string -> list byte -> nat -> list byte;
  (** [createCipheriv] / [createDecipheriv] accept the key and the iv *)
  cipheriv_ok : list byte -> list byte -> bool;
  (** [cipher.update(plain) + cipher.final()] under key and iv *)
  cipher_output : list byte -> list byte -> list byte -> list byte;
  (** [cipher.getAuthTag()] after the plaintext was absorbed *)
  cipher_getAuthTag : list byte -> list byte -> list byte -> list byte;
  (** [decipher.setAuthTag(tag)] accepts the tag *)
  setAuthTag_ok : list byte -> bool;
  (** [decipher.update(ciphertext)]: the bytes released before the tag is
      checked *)
  decipher_update : list byte -> list byte -> list byte -> list byte;
  (** [decipher.final()] succeeds: the tag authenticates the ciphertext
      under key and iv *)
  decipher_final_ok : list byte -> list byte -> list byte -> list byte -> bool
}.

(** What AES-256-GCM guarantees for a 32-byte key and a 16-byte iv. *)
Record GcmCorrect (C : NodeCrypto) : Prop := {
  scrypt_length : forall pw salt n, List.length (scryptSync pw salt n) = n;
  gcm_accepts : forall key iv,
      List.length key = KEY_LENGTH -> List.length iv = IV_LENGTH ->
      cipheriv_ok key iv = true;
  gcm_tag_accepted : forall key iv pt,
      List.length key = KEY_LENGTH -> List.length iv = IV_LENGTH ->
      setAuthTag_ok (cipher_getAuthTag key iv pt) = true;
  gcm_inverse : forall key iv pt,
      List.length key = KEY_LENGTH -> List.length iv = IV_LENGTH ->
      decipher_update key iv (cipher_output key iv pt) = pt;
  gcm_authentic : forall key iv pt,
      List.length key = KEY_LENGTH -> List.length iv = IV_LENGTH ->
      decipher_final_ok key iv (cipher_getAuthTag key iv pt)
                        (cipher_output key iv pt) = true
}.

Section Vault.
Context {C : NodeCrypto}.

Definition getEncryptionKey (env : Env) : Outcome (list byte) :=
  if falsy (WALLET_ENCRYPTION_KEY env) then
    Throw (Error "WALLET_ENCRYPTION_KEY not configured")
  else
    match WALLET_ENCRYPTION_KEY env with
    | Some secret =>
        let salt := scryptSync secret (utf8_encode "rete-wallet-salt") SALT_LENGTH in
        Ok (scryptSync secret salt KEY_LENGTH)
    | None => Throw (Error "WALLET_ENCRYPTION_KEY not configured")
    end.

(** [iv] is the value drawn by [randomBytes(IV_LENGTH)]. *)
Definition encryptPrivateKey (env : Env) (iv : list byte) (privateKey : string)
  : Outcome string :=
  match getEncryptionKey env with
  | Throw e => Throw e
  | Ok key =>
      if cipheriv_ok key iv then
        let encrypted := to_hex (cipher_output key iv (utf8_encode privateKey)) in
        let authTag := cipher_getAuthTag key iv (utf8_encode privateKey) in
        Ok (to_hex iv ++ ":" ++ to_hex authTag ++ ":" ++ encrypted)
      else Throw (Error "Invalid initialization vector")
  end.

Definition decryptPrivateKey (env : Env) (encryptedData : string)
  : Outcome string :=
  match getEncryptionKey env with
  | Throw e => Throw e
  | Ok key =>
      match split colon encryptedData with
      | [p0; p1; p2] =>
          let iv := from_hex p0 in
          let authTag := from_hex p1 in
          let encrypted := p2 in
          if negb (cipheriv_ok key iv) then
            Throw (Error "Invalid initialization vector")
          else if negb (setAuthTag_ok authTag) then
            Throw (Error "Invalid authentication tag length")
          else
            let decrypted :=
              utf8_decode (decipher_update key iv (from_hex encrypted)) in
            if decipher_final_ok key iv authTag (from_hex encrypted) then
              Ok (decrypted ++ EmptyString)
            else
              Throw (Error "Unsupported state or unable to authenticate data")
      | _ => Throw (Error "Invalid encrypted data format")
      end
  end.

End Vault.

(** A private key as [ethers] prints it: [0x] followed by 64 hexadecimal
    digits. *)
Fixpoint all_hex (s : string) : bool :=
  match s with
  | EmptyString => true
  | String c s' =>
      match hex_value c with Some _ => all_hex s' | None => false end
  end.

Definition valid_private_key (k : string) : bool :=
  match k with
  | String "0" (String "x" digits) =>
      Nat.eqb (String.length digits) 64 && all_hex digits
  | _ => false
  end.

(** The three decoded fields of a well-formed record. *)
Definition fields (data : string) : option (list byte * list byte * list byte) :=
  match split colon data with
  | [p0; p1; p2] => Some (from_hex p0, from_hex p1, from_hex p2)
  | _ => None
  end.

End KeyVault.

(** ** Data model

    Modelled from the spec: the table declarations of [@shared/schema] are
    not part of the sources; the records below carry the columns that
    [storage.ts] and [routes.ts] read and write (spec section 3).  Primary
    keys are opaque identifiers drawn from a sequence; token amounts are
    integers. *)

Definition id : Type := N.
Bind Scope N_scope with id.
Definition address : Type := string.

Inductive Role : Type := role_coordinator | role_user | role_provider.

Inductive TxType : Type := tx_receive | tx_send | tx_purchase | tx_burn.

Inductive TxStatus : Type := pending | completed | failed.

Definition Role_eqb (a b : Role) : bool :=
  match a, b with
  | role_coordinator, role_coordinator => true
  | role_user, role_user => true
  | role_provider, role_provider => true
  | _, _ => false
  end.

Definition TxType_eqb (a b : TxType) : bool :=
  match a, b with
  | tx_receive, tx_receive => true
  | tx_send, tx_send => true
  | tx_purchase, tx_purchase => true
  | tx_burn, tx_burn => true
  | _, _ => false
  end.

Definition TxStatus_eqb (a b : TxStatus) : bool :=
  match a, b with
  | pending, pending => true
  | completed, completed => true
  | failed, failed => true
  | _, _ => false
  end.

Record User : Type := mkUser {
  u_id : id;
  u_email : string;
  u_name : string;
  u_role : Role;
  u_communityId : option id;
  u_tokenBalance : Z;
  u_ethAddress : address
}.

Record Community : Type := mkCommunity {
  c_id : id;
  c_name : string;
  c_tokenAddress : option address
}.

Record Product : Type := mkProduct {
  p_id : id;
  p_name : string;
  p_price : Z;
  p_providerId : id
}.

Record Wallet : Type := mkWallet {
  w_id : id;
  w_userId : id;
  w_address : address;
  w_encryptedPrivateKey : string;
  w_isDefault : Z
}.

Record ProductCommunity : Type := mkProductCommunity {
  pc_productId : id;
  pc_communityId : id
}.

Record Transaction : Type := mkTransaction {
  t_id : id;
  t_type : TxType;
  t_amount : Z;
  t_description : string;
  t_status : TxStatus;
  t_txHash : option string;
  t_fromUserId : option id;
  t_toUserId : option id;
  t_productId : option id;
  t_communityId : option id
}.

(** The argument of [createTransaction]: a row without its key. *)
Record InsertTransaction : Type := mkInsertTransaction {
  it_type : TxType;
  it_amount : Z;
  it_description : string;
  it_status : TxStatus;
  it_txHash : option string;
  it_fromUserId : option id;
  it_toUserId : option id;
  it_productId : option id;
  it_communityId : option id
}.

(** The database: one list of rows per table, and the sequence that
    supplies the key of the next inserted transaction. *)
Record Store : Type := mkStore {
  users : list User;
  communities : list Community;
  products : list Product;
  wallets : list Wallet;
  productCommunities : list ProductCommunity;
  transactions : list Transaction;
  id_seq : id
}.

Definition opt_id_eqb (a : option id) (b : id) : bool :=
  match a with
  | Some x => N.eqb x b
  | None => false
  end.

(** ** Storage ([storage.ts], class [DatabaseStorage]) *)
Module Storage.

Definition set_users (db : Store) (us : list User) : Store :=
  mkStore us (communities db) (products db) (wallets db)
          (productCommunities db) (transactions db) (id_seq db).

Definition set_transactions (db : Store) (ts : list Transaction) (next : id)
  : Store :=
  mkStore (users db) (communities db) (products db) (wallets db)
          (productCommunities db) ts next.

Definition getUser (i : id) (db : Store) : option User :=
  find (fun u => N.eqb (u_id u) i) (users db).

Definition getUserByEmail (email : string) (db : Store) : option User :=
  find (fun u => String.eqb (u_email u) email) (users db).

Definition add_balance (amount : Z) (u : User) : User :=
  mkUser (u_id u) (u_email u) (u_name u) (u_role u) (u_communityId u)
         (u_tokenBalance u + amount) (u_ethAddress u).

(** [UPDATE users SET token_balance = token_balance + amount WHERE id = userId
    RETURNING *]: the new store and the first returned row. *)
Definition updateUserBalance (userId : id) (amount : Z) (db : Store)
  : option User * Store :=
  let us := map (fun u => if N.eqb (u_id u) userId then add_balance amount u else u)
                (users db) in
  (find (fun u => N.eqb (u_id u) userId) us, set_users db us).

Definition getCommunity (i : id) (db : Store) : option Community :=
  find (fun c => N.eqb (c_id c) i) (communities db).

Definition getProduct (i : id) (db : Store) : option Product :=
  find (fun p => N.eqb (p_id p) i) (products db).

Definition getDefaultWallet (userId : id) (db : Store) : option Wallet :=
  find (fun w => N.eqb (w_userId w) userId && Z.eqb (w_isDefault w) 1)
       (wallets db).

Definition isProductAvailableInCommunity (productId communityId : id) (db : Store)
  : bool :=
  match find (fun pc => N.eqb (pc_productId pc) productId
                        && N.eqb (pc_communityId pc) communityId)
             (productCommunities db) with
  | Some _ => true
  | None => false
  end.

Definition getTransaction (i : id) (db : Store) : option Transaction :=
  find (fun t => N.eqb (t_id t) i) (transactions db).

Definition createTransaction (ins : InsertTransaction) (db : Store)
  : Transaction * Store :=
  let t := mkTransaction (id_seq db) (it_type ins) (it_amount ins)
                         (it_description ins) (it_status ins) (it_txHash ins)
                         (it_fromUserId ins) (it_toUserId ins)
                         (it_productId ins) (it_communityId ins) in
  (t, set_transactions db (transactions db ++ [t])%list (N.succ (id_seq db))).

(** [updateData] holds the status, and the hash only when one was passed. *)
Definition set_status (status : TxStatus) (txHash : option string)
           (t : Transaction) : Transaction :=
  mkTransaction (t_id t) (t_type t) (t_amount t) (t_description t) status
                (match txHash with Some h => Some h | None => t_txHash t end)
                (t_fromUserId t) (t_toUserId t) (t_productId t)
                (t_communityId t).

Definition updateTransactionStatus (i : id) (status : TxStatus)
           (txHash : option string) (db : Store)
  : option Transaction * Store :=
  let ts := map (fun t => if N.eqb (t_id t) i then set_status status txHash t else t)
                (transactions db) in
  (find (fun t => N.eqb (t_id t) i) ts, set_transactions db ts (id_seq db)).

Record BalanceRecord : Type := mkBalanceRecord {
  b_id : id;
  b_name : string;
  b_email : string;
  b_role : Role;
  b_tokenBalance : Z;
  b_ethAddress : address
}.

Definition balance_of_user (u : User) : BalanceRecord :=
  mkBalanceRecord (u_id u) (u_name u) (u_email u) (u_role u)
                  (u_tokenBalance u) (u_ethAddress u).

Definition bump (delta : Z) (b : BalanceRecord) : BalanceRecord :=
  mkBalanceRecord (b_id b) (b_name b) (b_email b) (b_role b)
                  (b_tokenBalance b + delta) (b_ethAddress b).

(** The purchase rows of the community joined with their product and its
    provider. *)
Definition providersWithSales (communityId : id) (db : Store)
  : list BalanceRecord :=
  flat_map (fun t =>
    if opt_id_eqb (t_communityId t) communityId && TxType_eqb (t_type t) tx_purchase
    then
      flat_map (fun p =>
        if opt_id_eqb (t_productId t) (p_id p) then
          map (fun u => mkBalanceRecord (u_id u) (u_name u) (u_email u)
                                        (u_role u) (t_amount t) (u_ethAddress u))
              (filter (fun u => N.eqb (p_providerId p) (u_id u)) (users db))
        else [])
        (products db)
    else [])
    (transactions db).

(** The burn rows of the community whose source account is a provider. *)
Definition providerBurns (communityId : id) (db : Store)
  : list (option id * Z) :=
  flat_map (fun t =>
    if opt_id_eqb (t_communityId t) communityId && TxType_eqb (t_type t) tx_burn
    then
      map (fun _ => (t_fromUserId t, t_amount t))
          (filter (fun u => opt_id_eqb (t_fromUserId t) (u_id u)
                            && Role_eqb (u_role u) role_provider)
                  (users db))
    else [])
    (transactions db).

(** The [Map<string, BalanceRecord>] of the source, in insertion order. *)
Definition map_get (k : id) (m : list BalanceRecord) : option BalanceRecord :=
  find (fun b => N.eqb (b_id b) k) m.

Fixpoint map_adjust (k : id) (delta : Z) (m : list BalanceRecord)
  : list BalanceRecord :=
  match m with
  | [] => []
  | b :: rest =>
      if N.eqb (b_id b) k then bump delta b :: rest
      else b :: map_adjust k delta rest
  end.

Definition add_sale (m : list BalanceRecord) (p : BalanceRecord)
  : list BalanceRecord :=
  match map_get (b_id p) m with
  | Some _ => map_adjust (b_id p) (b_tokenBalance p) m
  | None => (m ++ [p])%list
  end.

Definition sub_burn (m : list BalanceRecord) (burn : option id * Z)
  : list BalanceRecord :=
  match fst burn with
  | Some from =>
      match map_get from m with
      | Some _ => map_adjust from (- snd burn) m
      | None => m
      end
  | None => m
  end.

Definition providerBalances (communityId : id) (db : Store)
  : list BalanceRecord :=
  fold_left sub_burn (providerBurns communityId db)
            (fold_left add_sale (providersWithSales communityId db) []).

Definition push_missing (allBalances : list BalanceRecord) (p : BalanceRecord)
  : list BalanceRecord :=
  match map_get (b_id p) allBalances with
  | Some _ => allBalances
  | None => (allBalances ++ [p])%list
  end.

(** [allBalances] before the final filter. *)
Definition allBalances (communityId : id) (db : Store) : list BalanceRecord :=
  fold_left push_missing (providerBalances communityId db)
            (map balance_of_user
                 (filter (fun u => opt_id_eqb (u_communityId u) communityId)
                         (users db))).

Definition getCommunityBalances (communityId : id) (db : Store)
  : list BalanceRecord :=
  filter (fun b => 0 <? b_tokenBalance b) (allBalances communityId db).

Definition zero_balance (u : User) : User :=
  mkUser (u_id u) (u_email u) (u_name u) (u_role u) (u_communityId u) 0
         (u_ethAddress u).

(** One iteration of the loop of [burnAllCommunityTokens]; the accumulator
    holds the store and the two counters. *)
Definition burnAll_step (communityId coordinatorId : id)
           (acc : Store * (Z * Z)) (balance : BalanceRecord)
  : Store * (Z * Z) :=
  let '(db, (totalBurned, usersAffected)) := acc in
  if 0 <? b_tokenBalance balance then
    let db1 :=
      if negb (Role_eqb (b_role balance) role_provider) then
        set_users db (map (fun u => if N.eqb (u_id u) (b_id balance)
                                    then zero_balance u else u) (users db))
      else db in
    let db2 := snd (createTransaction
      (mkInsertTransaction tx_burn (b_tokenBalance balance)
         ("Burn completo - " ++ b_name balance) completed None
         (Some (b_id balance)) (Some coordinatorId) None (Some communityId))
      db1) in
    (db2, (totalBurned + b_tokenBalance balance, usersAffected + 1))
  else acc.

Definition burnAllCommunityTokens (communityId coordinatorId : id) (db : Store)
  : (Z * Z) * Store :=
  let balances := getCommunityBalances communityId db in
  let '(db', counters) :=
    fold_left (burnAll_step communityId coordinatorId) balances (db, (0, 0)) in
  (counters, db').

(** *** Wallets *)

Definition set_wallets (db : Store) (ws : list Wallet) (next : id) : Store :=
  mkStore (users db) (communities db) (products db) ws
          (productCommunities db) (transactions db) next.

Definition getWallet (i : id) (db : Store) : option Wallet :=
  find (fun w => N.eqb (w_id w) i) (wallets db).

(** [ORDER BY created_at DESC]: the rows are kept in the order of their
    creation. *)
Definition getWalletsByUser (userId : id) (db : Store) : list Wallet :=
  rev (filter (fun w => N.eqb (w_userId w) userId) (wallets db)).

(** The argument of [createWallet]; [isDefault] may be left out. *)
Record InsertWallet : Type := mkInsertWallet {
  iw_userId : id;
  iw_address : address;
  iw_encryptedPrivateKey : string;
  iw_isDefault : option Z
}.

(** [insertWallet.isDefault || 0] *)
Definition flag_or_zero (f : option Z) : Z :=
  match f with
  | Some d => if d =? 0 then 0 else d
  | None => 0
  end.

Definition createWallet (ins : InsertWallet) (db : Store) : Wallet * Store :=
  let existingWallets := getWalletsByUser (iw_userId ins) db in
  let isDefault :=
    if Nat.eqb (List.length existingWallets) 0 then 1
    else flag_or_zero (iw_isDefault ins) in
  let w := mkWallet (id_seq db) (iw_userId ins) (iw_address ins)
                    (iw_encryptedPrivateKey ins) isDefault in
  (w, set_wallets db (wallets db ++ [w])%list (N.succ (id_seq db))).

Definition set_default (flag : Z) (w : Wallet) : Wallet :=
  mkWallet (w_id w) (w_userId w) (w_address w) (w_encryptedPrivateKey w) flag.

(** Two statements: clear the flag of every wallet of the user, then set it
    on the wallet with the given key if that wallet is the user's. *)
Definition setDefaultWallet (userId walletId : id) (db : Store) : Store :=
  let cleared :=
    map (fun w => if N.eqb (w_userId w) userId then set_default 0 w else w)
        (wallets db) in
  let marked :=
    map (fun w => if N.eqb (w_id w) walletId && N.eqb (w_userId w) userId
                  then set_default 1 w else w)
        cleared in
  set_wallets db marked (id_seq db).

Definition deleteWallet (i : id) (db : Store) : Store :=
  set_wallets db (filter (fun w => negb (N.eqb (w_id w) i)) (wallets db))
              (id_seq db).

(** *** Products offered to communities *)




End Storage.

(** ** The world outside the process *)

Record Signature : Type := mkSignature {
  sig_v : Z;
  sig_r : string;
  sig_s : string
}.

(** The EIP-712 domain and the three typed messages of [blockchain.ts]. *)
Record Domain : Type := mkDomain {
  d_name : string;
  d_version : string;
  d_chainId : Z;
  d_verifyingContract : address
}.

Inductive TypedMessage : Type :=
| MintAuthorization (signer to : address) (amount : Z) (nonce : N) (deadline : Z)
| BurnAuthorization (signer from : address) (amount : Z) (nonce : N) (deadline : Z)
| Permit (owner spender : address) (value : Z) (nonce : N) (deadline : Z).

(** The state-changing contract methods the gateway submits. *)
Inductive ContractCall : Type :=
| call_mintWithSig (signer to : address) (amount deadline v : Z) (r s : string)
| call_burnWithSig (signer from : address) (amount deadline v : Z) (r s : string)
| call_permit (owner spender : address) (value deadline v : Z) (r s : string)
| call_transferFrom (from to : address) (value : Z).

Record Receipt : Type := mkReceipt {
  rc_hash : string;
  rc_blockNumber : Z
}.

(** The seven view calls that [getTokenConfig] awaits together. *)
Record TokenMetadata : Type := mkTokenMetadata {
  md_name : string;
  md_symbol : string;
  md_decimals : Z;
  md_totalSupply : Z;
  md_owner : address;
  md_adminSpender : address;
  md_mintPaused : bool
}.

(** The JSON-RPC endpoint and the wall clock, seen from the server.  View
    calls may fail but leave the world as it is; [send] submits a
    transaction from the admin wallet and awaits one confirmation (the call
    and [tx.wait()]), after which the world has moved on whether or not the
    transaction went through. *)
Class Chain (W : Type) : Type := {
  Date_now : W -> Z;
  getNetwork : W -> Outcome Z;
  read_metadata : W -> address -> Outcome TokenMetadata;
  read_adminBurnEnabled : W -> address -> Outcome bool;
  read_decimals : W -> address -> Outcome Z;
  read_mintNonces : W -> address -> address -> Outcome N;
  read_burnNonces : W -> address -> address -> Outcome N;
  read_nonces : W -> address -> address -> Outcome N;
  read_allowance : W -> address -> address -> address -> Outcome Z;
  send : W -> address -> ContractCall -> Outcome Receipt * W
}.

(** A JavaScript number: a finite double is the rational it denotes. *)
Inductive JsNumber : Type :=
| NaN
| PosInfinity
| NegInfinity
| Finite (q : Q).

(** A value of a JSON request body whose type the handler does not check.
    An object or array is truthy and carries the number it converts to. *)
Inductive JsValue : Type :=
| js_undefined
| js_null
| js_boolean (b : bool)
| js_number (n : JsNumber)
| js_string (s : string)
| js_object (toNumber : JsNumber).

(** The calls into [ethers], [zod] and the language runtime that run inside
    the process. *)
Class Library : Type := {
  (** the address of [new ethers.Wallet(privateKey)] *)
  wallet_address : string -> Outcome address;
  (** [wallet.signTypedData(domain, types, message)], split by
      [ethers.Signature.from] *)
  signTypedData : string -> Domain -> TypedMessage -> Outcome Signature;
  (** [ethers.parseUnits(String(amount), decimals)] *)
  parseUnits : Z -> Z -> Outcome Z;
  (** [z.string().email()] accepts the string *)
  z_email : string -> bool;
  (** [Number(s)] for a string *)
  StringToNumber : string -> JsNumber
}.

Definition is_zero (q : Q) : bool := Z.eqb (Qnum q) 0.

(** [!v] *)
Definition js_not (v : JsValue) : bool :=
  match v with
  | js_undefined => true
  | js_null => true
  | js_boolean b => negb b
  | js_number NaN => true
  | js_number (Finite q) => is_zero q
  | js_number _ => false
  | js_string s => falsy (Some s)
  | js_object _ => false
  end.

(** [Number(v)] *)
Definition Number {L : Library} (v : JsValue) : JsNumber :=
  match v with
  | js_undefined => NaN
  | js_null => Finite 0
  | js_boolean b => if b then Finite 1 else Finite 0
  | js_number n => n
  | js_string s => StringToNumber s
  | js_object n => n
  end.

(** [a <= b] and [a > b] where [b] is an integer. *)
Definition js_le (a : JsNumber) (b : Z) : bool :=
  match a with
  | NaN => false
  | PosInfinity => false
  | NegInfinity => true
  | Finite q => Qle_bool q (inject_Z b)
  end.

Definition js_gt (a : JsNumber) (b : Z) : bool :=
  match a with
  | NaN => false
  | PosInfinity => true
  | NegInfinity => false
  | Finite q => negb (Qle_bool q (inject_Z b))
  end.

(** ** Notifications ([websocket.ts]) *)

Inductive EventKind : Type := ev_created | ev_updated | ev_completed | ev_failed.

Inductive Room : Type :=
| room_user (userId : id)
| room_community (communityId : id).

(** A message handed to [io.to(room).emit]. *)
Inductive Event : Type :=
| transaction_update (room : Room) (transaction : option Transaction)
                     (fromUserName toUserName : option string)
                     (kind : EventKind)
| balance_update (room : Room) (balance : Z).

(** ** The socket handshake ([websocket.ts], lines 26-83) *)
Module WebSocket.

(** What the server sends to one socket with [socket.emit]. *)
Inductive Reply : Type :=
| auth_required
| error (message : string)
| authenticated.

(** The payload of an [authenticate] message. *)
Record AuthData : Type := mkAuthData {
  ad_userId : option id;
  ad_communityId : option id
}.

(** The server's side of one socket: the rooms it joined, what was sent
    to it, whether it is connected, and whether the [authenticate] listener
    was registered.  [disconnect] only clears the flag here; that the
    library also empties the rooms of a closed socket is not used. *)
Record Socket : Type := mkSocket {
  rooms : list Room;
  replies : list Reply;
  connected : bool;
  listens : bool
}.

Definition socket_emit (r : Reply) (s : Socket) : Socket :=
  mkSocket (rooms s) (replies s ++ [r]) (connected s) (listens s).

Definition disconnect (s : Socket) : Socket :=
  mkSocket (rooms s) (replies s) false (listens s).

Definition join (r : Room) (s : Socket) : Socket :=
  mkSocket (rooms s ++ [r]) (replies s) (connected s) (listens s).

Definition socket_on (s : Socket) : Socket :=
  mkSocket (rooms s) (replies s) (connected s) true.

(** [data.communityId && data.communityId !== user.communityId] *)
Definition community_mismatch (claimed stored : option id) : bool :=
  match claimed with
  | Some c => negb (opt_id_eqb stored c)
  | None => false
  end.

(** The [authenticate] listener (lines 39-78). *)
Definition authenticate (sessionUserId : option id) (data : AuthData)
           (db : Store) (s : Socket) : Socket :=
  match sessionUserId with
  | None => disconnect (socket_emit (error "Sessione non valida") s)
  | Some uid =>
      if negb (opt_id_eqb (ad_userId data) uid) then
        disconnect
          (socket_emit (error "ID utente non corrisponde alla sessione") s)
      else
        match Storage.getUser uid db with
        | None => disconnect (socket_emit (error "Utente non trovato") s)
        | Some user =>
            if community_mismatch (ad_communityId data) (u_communityId user)
            then
              disconnect (socket_emit (error "Community ID non corrisponde") s)
            else
              let s1 := join (room_user uid) s in
              let s2 := match u_communityId user with
                        | Some c => join (room_community c) s1
                        | None => s1
                        end in
              socket_emit authenticated s2
        end
  end.

(** The [connection] listener (lines 26-83): without a session user the
    socket is turned away and no listener is registered. *)
Definition connection (sessionUserId : option id) (s : Socket) : Socket :=
  match sessionUserId with
  | None => disconnect (socket_emit auth_required s)
  | Some _ => socket_on s
  end.

(** The messages one socket sends after it connected, each with the
    database as it is when the message is handled; a message reaches the
    listener only on a socket that is connected and has one. *)
Fixpoint messages (sessionUserId : option id) (ms : list (AuthData * Store))
         (s : Socket) : Socket :=
  match ms with
  | [] => s
  | (data, db) :: rest =>
      messages sessionUserId rest
        (if connected s && listens s
         then authenticate sessionUserId data db s else s)
  end.

End WebSocket.

(** ** The state a request handler runs in *)

Record World (W : Type) : Type := mkWorld {
  db : Store;
  ext : W;
  calls : list (address * ContractCall);
  emitted : list Event
}.

(** A computation yields a value, throws, or leaves the enclosing block
    early with a result ([return res...json(...)] in a handler, [continue]
    in a loop body). *)
Inductive Res (R A : Type) : Type :=
| Val (a : A)
| Exc (e : JsError)
| Ret (r : R).
Arguments Val {R A} a.
Arguments Exc {R A} e.
Arguments Ret {R A} r.

Definition M (W R A : Type) : Type := World W -> Res R A * World W.

Definition ret {W R A} (a : A) : M W R A := fun w => (Val a, w).

Definition bind {W R A B} (m : M W R A) (k : A -> M W R B) : M W R B :=
  fun w =>
    match m w with
    | (Val a, w') => k a w'
    | (Exc e, w') => (Exc e, w')
    | (Ret r, w') => (Ret r, w')
    end.

Notation "x <- m ;; k" := (bind m (fun x => k))
  (at level 61, m at next level, right associativity).
Notation "m ;; k" := (bind m (fun _ => k))
  (at level 61, right associativity).

Definition throw {W R A} (e : JsError) : M W R A := fun w => (Exc e, w).

Definition leave {W R A} (r : R) : M W R A := fun w => (Ret r, w).

Definition lift {W R A} (o : Outcome A) : M W R A :=
  match o with
  | Ok a => ret a
  | Throw e => throw e
  end.

(** [try { m } catch (e) { h e }] *)
Definition try_catch {W R A} (m : M W R A) (h : JsError -> M W R A) : M W R A :=
  fun w =>
    match m w with
    | (Exc e, w') => h e w'
    | other => other
    end.

(** A block whose early exit carries the value of the block itself. *)
Definition block {W R A} (m : M W A A) : M W R A :=
  fun w =>
    match m w with
    | (Val a, w') => (Val a, w')
    | (Ret a, w') => (Val a, w')
    | (Exc e, w') => (Exc e, w')
    end.

(** A call to a function of [blockchain.ts]: such a function returns or
    throws, it never answers the request itself. *)
Definition call {W R A} (m : M W Empty_set A) : M W R A :=
  fun w =>
    match m w with
    | (Val a, w') => (Val a, w')
    | (Exc e, w') => (Exc e, w')
    | (Ret x, _) => match x with end
    end.

Definition query {W R A} (f : Store -> A) : M W R A :=
  fun w => (Val (f (db w)), w).

Definition update {W R A} (f : Store -> A * Store) : M W R A :=
  fun w =>
    let (a, d) := f (db w) in
    (Val a, mkWorld d (ext w) (calls w) (emitted w)).

Definition emit {W R} (e : Event) : M W R unit :=
  fun w => (Val tt, mkWorld (db w) (ext w) (calls w) (emitted w ++ [e])%list).

Definition peek {W R A} (f : W -> A) : M W R A :=
  fun w => (Val (f (ext w)), w).

Definition view {W R A} (f : W -> Outcome A) : M W R A :=
  fun w => lift (f (ext w)) w.

Definition message_or (e : JsError) (fallback : string) : string :=
  match e with
  | Error EmptyString => fallback
  | Error m => m
  | ZodError => "ZodError"
  end.

(** ** Chain gateway and authorization signer ([blockchain.ts]) *)
Module Blockchain.

Record EWallet : Type := mkEWallet {
  ew_privateKey : string;
  ew_address : address
}.

Record TokenConfig : Type := mkTokenConfig {
  cfg_token : address;
  cfg_name : string;
  cfg_symbol : string;
  cfg_decimals : Z;
  cfg_totalSupply : Z;
  cfg_owner : address;
  cfg_adminSpender : address;
  cfg_mintPaused : bool;
  cfg_adminBurnEnabled : bool;
  cfg_chainId : Z
}.

(** What [signMintAuthorization] and [signBurnAuthorization] return. *)
Record Authorization : Type := mkAuthorization {
  a_v : Z;
  a_r : string;
  a_s : string;
  a_nonce : string;
  a_deadline : string
}.

Record PermitSignature : Type := mkPermitSignature {
  ps_v : Z;
  ps_r : string;
  ps_s : string;
  ps_owner : address;
  ps_spender : address;
  ps_value : Z;
  ps_nonce : string;
  ps_deadline : Z
}.

Record MintResult : Type := mkMintResult {
  mr_tx : string;
  mr_block : Z;
  mr_to : address;
  mr_amount : Z;
  mr_signer : address;
  mr_deadline : Z
}.

Record BurnResult : Type := mkBurnResult {
  br_tx : string;
  br_block : Z;
  br_signer : address;
  br_from : address;
  br_amount : Z;
  br_deadline : Z
}.

Record PermitTransferResult : Type := mkPermitTransferResult {
  pt_sent : Z;
  pt_allowanceAfter : Z;
  pt_permitTx : string;
  pt_permitBlock : Z;
  pt_transferTx : string;
  pt_transferBlock : Z
}.

(** [bigint.toString()] and [String(n)] for an integer. *)
Definition N_toString (n : N) : string := NilZero.string_of_uint (N.to_uint n).
Definition Z_toString (z : Z) : string := NilZero.string_of_int (Z.to_int z).

Definition lower (c : ascii) : ascii :=
  let n := N_of_ascii c in
  if ((65 <=? n) && (n <=? 90))%N then ascii_of_N (n + 32) else c.

Fixpoint toLowerCase (s : string) : string :=
  match s with
  | EmptyString => EmptyString
  | String c s' => String (lower c) (toLowerCase s')
  end.

(** A deadline that reaches the contract encoder must be an unsigned
    integer; the encoder throws on any other number. *)
Definition uint_of_number (n : JsNumber) : Outcome Z :=
  match n with
  | Finite q =>
      let r := Qred q in
      if (Pos.eqb (Qden r) 1 && (0 <=? Qnum r))%bool then Ok (Qnum r)
      else Throw (Error "invalid BigNumberish value")
  | _ => Throw (Error "invalid BigNumberish value")
  end.

Section Gateway.
Context {W : Type} {CH : Chain W} {L : Library} (env : Env).

Local Abbreviation M := (M W Empty_set).

(** Record a submission and hand it to the endpoint. *)
Definition submit (token : address) (c : ContractCall) : M Receipt :=
  fun w =>
    let (o, e') := send (ext w) token c in
    lift o (mkWorld (db w) e' (calls w ++ [(token, c)])%list (emitted w)).

Definition getProvider : M unit :=
  if falsy (RPC_URL env) then throw (Error "RPC_URL not configured")
  else ret tt.

Definition newWallet (privateKey : string) : M EWallet :=
  a <- lift (wallet_address privateKey) ;;
  ret (mkEWallet privateKey a).

Definition getAdminWallet : M EWallet :=
  match PRIVATE_KEY env with
  | Some k =>
      if falsy (Some k) then throw (Error "PRIVATE_KEY not configured")
      else getProvider ;; newWallet k
  | None => throw (Error "PRIVATE_KEY not configured")
  end.

Definition getTokenAddress : M address :=
  match TOKEN_ADDRESS env with
  | Some a =>
      if falsy (Some a) then throw (Error "TOKEN_ADDRESS not configured")
      else ret a
  | None => throw (Error "TOKEN_ADDRESS not configured")
  end.

(** [tokenAddress || getTokenAddress()] *)
Definition address_or_default (tokenAddress : option address) : M address :=
  match tokenAddress with
  | Some a => if falsy (Some a) then getTokenAddress else ret a
  | None => getTokenAddress
  end.

Definition getTokenContract (tokenAddress : option address) : M address :=
  a <- address_or_default tokenAddress ;;
  getAdminWallet ;;
  ret a.

Definition getTokenContractReadonly (tokenAddress : option address) : M address :=
  a <- address_or_default tokenAddress ;;
  getProvider ;;
  ret a.

Definition parseAmount (humanAmount decimals : Z) : M Z :=
  lift (parseUnits humanAmount decimals).

Definition getTokenConfig (tokenAddress : option address) : M TokenConfig :=
  token <- getTokenContractReadonly tokenAddress ;;
  getProvider ;;
  chainId <- view getNetwork ;;
  md <- view (fun x => read_metadata x token) ;;
  adminBurnEnabled <-
    try_catch (view (fun x => read_adminBurnEnabled x token))
              (fun _ => ret false) ;;
  a <- address_or_default tokenAddress ;;
  ret (mkTokenConfig a (md_name md) (md_symbol md) (md_decimals md)
                     (md_totalSupply md) (md_owner md) (md_adminSpender md)
                     (md_mintPaused md) adminBurnEnabled chainId).

Definition mintWithSignature (signer to : address) (amountHuman : Z)
           (deadline : JsNumber) (v : Z) (r s : string)
           (tokenAddress : option address)
  : M MintResult :=
  token <- getTokenContract tokenAddress ;;
  decimals <- view (fun x => read_decimals x token) ;;
  amount <- parseAmount amountHuman decimals ;;
  d <- lift (uint_of_number deadline) ;;
  rc <- submit token (call_mintWithSig signer to amount d v r s) ;;
  ret (mkMintResult (rc_hash rc) (rc_blockNumber rc) to amount signer d).

Definition burnWithSignature (signer from : address) (amountHuman : Z)
           (deadline : JsNumber) (v : Z) (r s : string)
           (tokenAddress : option address)
  : M BurnResult :=
  token <- getTokenContract tokenAddress ;;
  decimals <- view (fun x => read_decimals x token) ;;
  amount <- parseAmount amountHuman decimals ;;
  d <- lift (uint_of_number deadline) ;;
  rc <- submit token (call_burnWithSig signer from amount d v r s) ;;
  ret (mkBurnResult (rc_hash rc) (rc_blockNumber rc) signer from amount d).

Definition getMintNonce (signerAddress : address) (tokenAddress : option address)
  : M N :=
  token <- getTokenContractReadonly tokenAddress ;;
  view (fun x => read_mintNonces x token signerAddress).

Definition getBurnNonce (signerAddress : address) (tokenAddress : option address)
  : M N :=
  token <- getTokenContractReadonly tokenAddress ;;
  view (fun x => read_burnNonces x token signerAddress).

Definition getPermitNonce (ownerAddress : address) (tokenAddress : option address)
  : M N :=
  token <- getTokenContractReadonly tokenAddress ;;
  view (fun x => read_nonces x token ownerAddress).

Definition domain_of (config : TokenConfig) : Domain :=
  mkDomain (cfg_name config) "1" (cfg_chainId config) (cfg_token config).

Definition signPermit (wallet : EWallet) (spender : address) (amountWei : Z)
           (deadline : Z) (tokenAddress : option address) : M PermitSignature :=
  config <- getTokenConfig tokenAddress ;;
  nonce <- getPermitNonce (ew_address wallet) tokenAddress ;;
  sig <- lift (signTypedData (ew_privateKey wallet) (domain_of config)
                 (Permit (ew_address wallet) spender amountWei nonce deadline)) ;;
  ret (mkPermitSignature (sig_v sig) (sig_r sig) (sig_s sig) (ew_address wallet)
                         spender amountWei (N_toString nonce) deadline).

Definition signMintAuthorization (wallet : EWallet) (to : address)
           (amountWei : Z) (deadline : Z) (tokenAddress : option address)
  : M Authorization :=
  getTokenContractReadonly tokenAddress ;;
  config <- getTokenConfig tokenAddress ;;
  nonce <- getMintNonce (ew_address wallet) tokenAddress ;;
  sig <- lift (signTypedData (ew_privateKey wallet) (domain_of config)
                 (MintAuthorization (ew_address wallet) to amountWei nonce deadline)) ;;
  ret (mkAuthorization (sig_v sig) (sig_r sig) (sig_s sig)
                       (N_toString nonce) (Z_toString deadline)).

Definition signBurnAuthorization (wallet : EWallet) (from : address)
           (amountWei : Z) (deadline : Z) (tokenAddress : option address)
  : M Authorization :=
  config <- getTokenConfig tokenAddress ;;
  nonce <- getBurnNonce (ew_address wallet) tokenAddress ;;
  sig <- lift (signTypedData (ew_privateKey wallet) (domain_of config)
                 (BurnAuthorization (ew_address wallet) from amountWei nonce deadline)) ;;
  ret (mkAuthorization (sig_v sig) (sig_r sig) (sig_s sig)
                       (N_toString nonce) (Z_toString deadline)).

Definition permitTransfer (owner spender : address) (value : Z) (deadline : Z)
           (v : Z) (r s : string) (recipient : address)
           (tokenAddress : option address) : M PermitTransferResult :=
  token <- getTokenContract tokenAddress ;;
  wallet <- getAdminWallet ;;
  if negb (String.eqb (toLowerCase spender) (toLowerCase (ew_address wallet)))
  then throw (Error "Spender must be server wallet")
  else
    receiptPermit <- submit token (call_permit owner spender value deadline v r s) ;;
    allowance <- view (fun x => read_allowance x token owner (ew_address wallet)) ;;
    if allowance =? 0 then throw (Error "No allowance after permit")
    else
      let requested := value in
      let sendAmount := if requested <=? allowance then requested else allowance in
      receipt <- submit token (call_transferFrom owner recipient sendAmount) ;;
      leftover <- view (fun x => read_allowance x token owner (ew_address wallet)) ;;
      ret (mkPermitTransferResult sendAmount leftover
             (rc_hash receiptPermit) (rc_blockNumber receiptPermit)
             (rc_hash receipt) (rc_blockNumber receipt)).

(** [new ethers.Wallet(privateKey, getProvider())] *)
Definition getWalletFromPrivateKey (privateKey : string) : M EWallet :=
  getProvider ;; newWallet privateKey.

End Gateway.
End Blockchain.

(** ** Settlement request handlers ([routes.ts]) *)
Module Routes.
Import Storage Blockchain.

(** What a handler sends back: [res.status(s).json({ error })], the
    validation failure of a schema ([400] with the list of issues), or
    [res.json(body)]. *)
Inductive Resp (A : Type) : Type :=
| reply_error (status : Z) (error : string)
| reply_zod
| reply_json (body : A).
Arguments reply_error {A} status error.
Arguments reply_zod {A}.
Arguments reply_json {A} body.

Record Distribution : Type := mkDistribution {
  dist_email : string;
  dist_amount : Z
}.

Record Distributed : Type := mkDistributed {
  dr_email : string;
  dr_amount : Z;
  dr_userName : string;
  dr_txHash : string
}.

Record DistError : Type := mkDistError {
  de_email : string;
  de_error : string
}.

Record DistributeBody : Type := mkDistributeBody {
  distributed : list Distributed;
  dist_errors : list DistError
}.

Record BurnBody : Type := mkBurnBody {
  burned : Z;
  burn_txHash : string
}.

Record TransferBody : Type := mkTransferBody {
  transferred : Z;
  transfer_txHash : string;
  transfer_to : string
}.

Record BurnedHolder : Type := mkBurnedHolder {
  bh_name : string;
  bh_amount : Z;
  bh_txHash : string
}.

Record BurnAllError : Type := mkBurnAllError {
  be_name : string;
  be_error : string
}.

Record BurnAllBody : Type := mkBurnAllBody {
  totalBurned : Z;
  usersAffected : Z;
  burn_results : list BurnedHolder;
  burn_errors : list BurnAllError
}.

Record PurchaseBody : Type := mkPurchaseBody {
  newBalance : option Z;
  purchased_product : string;
  purchase_txHash : string
}.

(** The body of [POST /api/blockchain/mint-with-sig] and of
    [.../burn-with-sig] ([account] is [to], respectively [from]). *)
Record WithSigBody : Type := mkWithSigBody {
  ws_signer : option string;
  ws_account : option string;
  ws_amount : option Z;
  ws_deadline : JsValue;
  ws_v : option Z;
  ws_r : option string;
  ws_s : option string;
  ws_tokenAddress : option string
}.

(** What the wallet routes send back of a wallet: never its key. *)
Record WalletBody : Type := mkWalletBody {
  wb_id : id;
  wb_address : address;
  wb_isDefault : bool
}.

Definition wallet_body (w : Wallet) : WalletBody :=
  mkWalletBody (w_id w) (w_address w) (Z.eqb (w_isDefault w) 1).


Definition opt_eqb (a b : option id) : bool :=
  match a, b with
  | Some x, Some y => N.eqb x y
  | None, None => true
  | _, _ => false
  end.

(** [!amount || amount <= 0] *)
Definition bad_amount (amount : option Z) : bool :=
  match amount with
  | Some a => (a =? 0) || (a <=? 0)
  | None => true
  end.

Definition or_default (s : option string) (d : string) : string :=
  match s with
  | Some x => if falsy (Some x) then d else x
  | None => d
  end.

(** [community?.tokenAddress] when it is truthy. *)
Definition token_of (community : option Community) : option address :=
  match community with
  | Some c => if falsy (c_tokenAddress c) then None else c_tokenAddress c
  | None => None
  end.

Section Handlers.
Context {W : Type} {CH : Chain W} {L : Library} {C : KeyVault.NodeCrypto}.
Variable env : Env.

Definition require {R A} (o : option A) (r : R) : M W R A :=
  match o with
  | Some a => ret a
  | None => leave r
  end.

Definition reject_if {R} (cond : bool) (r : R) : M W R unit :=
  if cond then leave r else ret tt.

Definition when {R} (cond : bool) (m : M W R unit) : M W R unit :=
  if cond then m else ret tt.

(** [for (const x of xs) { body }], the loop variables threaded as [s];
    [continue] leaves the body. *)
Fixpoint for_of {R A S} (body : S -> A -> M W S S) (xs : list A) (s : S)
  : M W R S :=
  match xs with
  | [] => ret s
  | x :: rest => s' <- block (body s x) ;; for_of body rest s'
  end.

(** The [try { ... } catch (error) { ... }] that wraps a handler body. *)
Definition handle {A} (m : M W (Resp A) (Resp A)) (onError : JsError -> Resp A)
  : World W -> Resp A * World W :=
  fun w =>
    match m w with
    | (Val r, w') => (r, w')
    | (Ret r, w') => (r, w')
    | (Exc e, w') => (onError e, w')
    end.

(** The [requireAuth] middleware in front of a handler. *)
Definition requireAuth {A} (session : option id)
           (next : id -> World W -> Resp A * World W)
  : World W -> Resp A * World W :=
  match session with
  | None => fun w => (reply_error 401 "Non autenticato", w)
  | Some userId => next userId
  end.

Definition emitTransactionUpdate {R} (userId : id) (t : option Transaction)
           (fromUserName toUserName : option string) (kind : EventKind)
  : M W R unit :=
  emit (transaction_update (room_user userId) t fromUserName toUserName kind).

Definition emitTransactionToCommunity {R} (communityId : id)
           (t : option Transaction) (fromUserName toUserName : option string)
           (kind : EventKind) : M W R unit :=
  emit (transaction_update (room_community communityId) t
                           fromUserName toUserName kind).

(** [if (communityId) { ... }] *)
Definition ifCommunity {R} (communityId : option id) (m : id -> M W R unit)
  : M W R unit :=
  match communityId with
  | Some c => m c
  | None => ret tt
  end.

(** [emitBalanceUpdate(id, (await storage.getUser(id))?.tokenBalance || 0)] *)
Definition emitBalanceUpdate {R} (userId : id) : M W R unit :=
  u <- query (getUser userId) ;;
  emit (balance_update (room_user userId)
          (match u with Some x => u_tokenBalance x | None => 0 end)).

(** [Math.floor(Date.now() / 1000) + 3600] *)
Definition one_hour_from_now {R} : M W R Z :=
  now <- peek Date_now ;;
  ret (now / 1000 + 3600).

(** *** [POST /api/tokens/distribute] *)

Definition distributeTokensSchema_parse (body : option (list Distribution))
  : Outcome (list Distribution) :=
  match body with
  | Some ds =>
      if forallb (fun d => z_email (dist_email d) && (0 <? dist_amount d)) ds
      then Ok ds else Throw ZodError
  | None => Throw ZodError
  end.

Definition DistAcc : Type := (list Distributed * list DistError)%type.

(** The body of the loop over [distributions]. *)
Definition distribute_item (user : User) (tokenAddress : address) (signerWallet : EWallet)
           (acc : DistAcc) (dist : Distribution) : M W DistAcc DistAcc :=
  let (results, errors) := acc in
  found <- query (getUserByEmail (dist_email dist)) ;;
  targetUser <- require found
    (results, (errors ++ [mkDistError (dist_email dist) "Utente non trovato"])%list) ;;
  reject_if (negb (opt_eqb (u_communityId targetUser) (u_communityId user)))
    (results, (errors ++ [mkDistError (dist_email dist)
                            "Utente non appartiene alla comunità"])%list) ;;
  try_catch
    (pendingTransaction <- update (createTransaction
        (mkInsertTransaction tx_receive (dist_amount dist)
           ("Distribuzione da " ++ u_name user) pending None
           (Some (u_id user)) (Some (u_id targetUser)) None
           (u_communityId user))) ;;
     emitTransactionUpdate (u_id targetUser) (Some pendingTransaction)
       (Some (u_name user)) None ev_created ;;
     ifCommunity (u_communityId user) (fun c =>
       emitTransactionToCommunity c (Some pendingTransaction)
         (Some (u_name user)) (Some (u_name targetUser)) ev_created) ;;
     tokenConfig <- call (getTokenConfig env (Some tokenAddress)) ;;
     amountWei <- call (parseAmount (dist_amount dist) (cfg_decimals tokenConfig)) ;;
     deadline <- one_hour_from_now ;;
     signature <- call (signMintAuthorization env signerWallet
                    (u_ethAddress targetUser) amountWei deadline
                    (Some tokenAddress)) ;;
     mintResult <- call (mintWithSignature env (ew_address signerWallet)
                     (u_ethAddress targetUser) (dist_amount dist)
                     (Finite (inject_Z deadline))
                     (a_v signature) (a_r signature) (a_s signature)
                     (Some tokenAddress)) ;;
     update (updateUserBalance (u_id targetUser) (dist_amount dist)) ;;
     completedTransaction <- update (updateTransactionStatus
        (t_id pendingTransaction) completed (Some (mr_tx mintResult))) ;;
     emitTransactionUpdate (u_id targetUser) completedTransaction
       (Some (u_name user)) None ev_completed ;;
     emitBalanceUpdate (u_id targetUser) ;;
     ifCommunity (u_communityId user) (fun c =>
       emitTransactionToCommunity c completedTransaction
         (Some (u_name user)) (Some (u_name targetUser)) ev_completed) ;;
     ret ((results ++ [mkDistributed (dist_email dist) (dist_amount dist)
                         (u_name targetUser) (mr_tx mintResult)])%list,
          errors))
    (fun mintError =>
       ret (results,
            (errors ++ [mkDistError (dist_email dist)
               ("Errore blockchain: " ++ message_or mintError "Mint fallito")])%list)).

Definition distribute (session : option id) (body : option (list Distribution))
  : World W -> Resp DistributeBody * World W :=
  requireAuth session (fun userId =>
    handle
      (found <- query (getUser userId) ;;
       user <- require found
         (reply_error 403 "Solo i coordinatori possono distribuire token") ;;
       reject_if (negb (Role_eqb (u_role user) role_coordinator))
         (reply_error 403 "Solo i coordinatori possono distribuire token") ;;
       communityId <- require (u_communityId user)
         (reply_error 400 "Nessuna comunità associata") ;;
       community <- query (getCommunity communityId) ;;
       tokenAddress <- require (token_of community)
         (reply_error 400 "La comunità non ha ancora un token. Crealo prima nelle Impostazioni.") ;;
       wallet <- query (getDefaultWallet (u_id user)) ;;
       coordinatorWallet <- require wallet
         (reply_error 400 "Wallet del coordinatore non trovato") ;;
       privateKey <- lift (KeyVault.decryptPrivateKey env
                             (w_encryptedPrivateKey coordinatorWallet)) ;;
       signerWallet <- call (newWallet privateKey) ;;
       distributions <- lift (distributeTokensSchema_parse body) ;;
       acc <- for_of (distribute_item user tokenAddress signerWallet)
                     distributions ([], []) ;;
       ret (reply_json (mkDistributeBody (fst acc) (snd acc))))
      (fun error =>
         match error with
         | ZodError => reply_zod
         | _ => reply_error 500 "Errore nella distribuzione"
         end)).

(** *** [POST /api/tokens/burn] *)

Definition burn (session : option id) (amount : option Z)
           (description : option string) (targetUserId : option id)
  : World W -> Resp BurnBody * World W :=
  requireAuth session (fun userId =>
    handle
      (found <- query (getUser userId) ;;
       user <- require found
         (reply_error 403 "Solo i coordinatori possono bruciare token") ;;
       reject_if (negb (Role_eqb (u_role user) role_coordinator))
         (reply_error 403 "Solo i coordinatori possono bruciare token") ;;
       reject_if (bad_amount amount) (reply_error 400 "Importo non valido") ;;
       amount <- require amount (reply_error 400 "Importo non valido") ;;
       communityId <- require (u_communityId user)
         (reply_error 400 "Nessuna comunità associata") ;;
       community <- query (getCommunity communityId) ;;
       tokenAddress <- require (token_of community)
         (reply_error 400 "La comunità non ha ancora un token. Crealo prima nelle Impostazioni.") ;;
       wallet <- query (getDefaultWallet (u_id user)) ;;
       coordinatorWallet <- require wallet
         (reply_error 400 "Wallet del coordinatore non trovato") ;;
       burnFromUser <-
         match targetUserId with
         | Some tid =>
             target <- query (getUser tid) ;;
             targetUser <- require target
               (reply_error 400 "Utente non trovato o non appartiene alla comunità") ;;
             reject_if (negb (opt_eqb (u_communityId targetUser) (u_communityId user)))
               (reply_error 400 "Utente non trovato o non appartiene alla comunità") ;;
             ret targetUser
         | None => ret user
         end ;;
       privateKey <- lift (KeyVault.decryptPrivateKey env
                             (w_encryptedPrivateKey coordinatorWallet)) ;;
       signerWallet <- call (newWallet privateKey) ;;
       pendingTransaction <- update (createTransaction
          (mkInsertTransaction tx_burn amount
             (or_default description "Burn token") pending None
             (Some (u_id burnFromUser)) None None (u_communityId user))) ;;
       emitTransactionUpdate (u_id burnFromUser) (Some pendingTransaction)
         (Some (u_name burnFromUser)) None ev_created ;;
       ifCommunity (u_communityId user) (fun c =>
         emitTransactionToCommunity c (Some pendingTransaction)
           (Some (u_name burnFromUser)) None ev_created) ;;
       tokenConfig <- call (getTokenConfig env (Some tokenAddress)) ;;
       amountWei <- call (parseAmount amount (cfg_decimals tokenConfig)) ;;
       deadline <- one_hour_from_now ;;
       signature <- call (signBurnAuthorization env signerWallet
                      (u_ethAddress burnFromUser) amountWei deadline
                      (Some tokenAddress)) ;;
       burnResult <- call (burnWithSignature env (ew_address signerWallet)
                       (u_ethAddress burnFromUser) amount
                       (Finite (inject_Z deadline))
                       (a_v signature) (a_r signature) (a_s signature)
                       (Some tokenAddress)) ;;
       update (updateUserBalance (u_id burnFromUser) (- amount)) ;;
       completedTransaction <- update (updateTransactionStatus
          (t_id pendingTransaction) completed (Some (br_tx burnResult))) ;;
       emitTransactionUpdate (u_id burnFromUser) completedTransaction
         (Some (u_name burnFromUser)) None ev_completed ;;
       emitBalanceUpdate (u_id burnFromUser) ;;
       ifCommunity (u_communityId user) (fun c =>
         emitTransactionToCommunity c completedTransaction
           (Some (u_name burnFromUser)) None ev_completed) ;;
       ret (reply_json (mkBurnBody amount (br_tx burnResult))))
      (fun error =>
         reply_error 500
           ("Errore nel burn: " ++ message_or error "Operazione fallita"))).

(** *** [POST /api/tokens/transfer] *)

(** [sender.communityId || recipient.communityId] *)
Definition first_community (a b : option id) : option id :=
  match a with
  | Some x => Some x
  | None => b
  end.

(** Both accounts have a community and the two differ. *)
Definition communities_differ (a b : option id) : bool :=
  match a, b with
  | Some x, Some y => negb (N.eqb x y)
  | _, _ => false
  end.

Definition transfer (session : option id) (recipientId : option id)
           (amount : option Z) (note : option string)
  : World W -> Resp TransferBody * World W :=
  requireAuth session (fun userId =>
    handle
      (found <- query (getUser userId) ;;
       sender <- require found (reply_error 401 "Non autenticato") ;;
       recipientId <- require recipientId (reply_error 400 "Dati non validi") ;;
       reject_if (bad_amount amount) (reply_error 400 "Dati non validi") ;;
       amount <- require amount (reply_error 400 "Dati non validi") ;;
       reject_if (u_tokenBalance sender <? amount)
         (reply_error 400 "Saldo insufficiente") ;;
       target <- query (getUser recipientId) ;;
       recipient <- require target (reply_error 400 "Destinatario non trovato") ;;
       reject_if (communities_differ (u_communityId sender) (u_communityId recipient))
         (reply_error 400 "Trasferimento tra comunità diverse non permesso") ;;
       communityId <- require
         (first_community (u_communityId sender) (u_communityId recipient))
         (reply_error 400 "Nessuna comunità associata") ;;
       community <- query (getCommunity communityId) ;;
       tokenAddress <- require (token_of community)
         (reply_error 400 "La comunità non ha ancora un token") ;;
       wallet <- query (getDefaultWallet (u_id sender)) ;;
       senderWallet <- require wallet
         (reply_error 400 "Wallet del mittente non trovato") ;;
       privateKey <- lift (KeyVault.decryptPrivateKey env
                             (w_encryptedPrivateKey senderWallet)) ;;
       signerWallet <- call (newWallet privateKey) ;;
       adminWallet <- call (getAdminWallet env) ;;
       let adminAddress := ew_address adminWallet in
       tokenConfig <- call (getTokenConfig env (Some tokenAddress)) ;;
       amountWei <- call (parseAmount amount (cfg_decimals tokenConfig)) ;;
       deadline <- one_hour_from_now ;;
       permitSig <- call (signPermit env signerWallet adminAddress amountWei deadline
                      (Some tokenAddress)) ;;
       transferResult <- call (permitTransfer env (ew_address signerWallet) adminAddress
                           amountWei deadline
                           (ps_v permitSig) (ps_r permitSig) (ps_s permitSig)
                           (u_ethAddress recipient) (Some tokenAddress)) ;;
       update (updateUserBalance (u_id sender) (- amount)) ;;
       update (updateUserBalance (u_id recipient) amount) ;;
       transaction <- update (createTransaction
          (mkInsertTransaction tx_send amount
             (or_default note ("Trasferimento a " ++ u_name recipient))
             completed (Some (pt_transferTx transferResult))
             (Some (u_id sender)) (Some (u_id recipient)) None
             (Some communityId))) ;;
       emitTransactionUpdate (u_id sender) (Some transaction)
         (Some (u_name sender)) (Some (u_name recipient)) ev_completed ;;
       emitTransactionUpdate (u_id recipient) (Some transaction)
         (Some (u_name sender)) (Some (u_name recipient)) ev_completed ;;
       emitBalanceUpdate (u_id sender) ;;
       emitBalanceUpdate (u_id recipient) ;;
       emitTransactionToCommunity communityId (Some transaction)
         (Some (u_name sender)) (Some (u_name recipient)) ev_completed ;;
       ret (reply_json (mkTransferBody amount (pt_transferTx transferResult)
                                       (u_name recipient))))
      (fun error =>
         reply_error 500
           ("Errore nel trasferimento: " ++ message_or error "Operazione fallita"))).

(** *** [POST /api/tokens/burn-all] *)

Definition BurnAllAcc : Type :=
  (Z * Z * list BurnedHolder * list BurnAllError)%type.

(** The body of the loop over [balances]. *)
Definition burnAll_item (user : User) (tokenAddress : address)
           (signerWallet : EWallet) (tokenConfig : TokenConfig)
           (acc : BurnAllAcc) (balance : BalanceRecord)
  : M W BurnAllAcc BurnAllAcc :=
  let '(total, affected, results, errors) := acc in
  if 0 <? b_tokenBalance balance then
    try_catch
      (pendingTransaction <- update (createTransaction
          (mkInsertTransaction tx_burn (b_tokenBalance balance)
             ("Burn completo - " ++ b_name balance) pending None
             (Some (b_id balance)) (Some (u_id user)) None
             (u_communityId user))) ;;
       emitTransactionUpdate (b_id balance) (Some pendingTransaction)
         (Some (b_name balance)) None ev_created ;;
       ifCommunity (u_communityId user) (fun c =>
         emitTransactionToCommunity c (Some pendingTransaction)
           (Some (b_name balance)) None ev_created) ;;
       amountWei <- call (parseAmount (b_tokenBalance balance)
                      (cfg_decimals tokenConfig)) ;;
       deadline <- one_hour_from_now ;;
       signature <- call (signBurnAuthorization env signerWallet
                      (b_ethAddress balance) amountWei deadline
                      (Some tokenAddress)) ;;
       burnResult <- call (burnWithSignature env (ew_address signerWallet)
                       (b_ethAddress balance) (b_tokenBalance balance)
                       (Finite (inject_Z deadline))
                       (a_v signature) (a_r signature) (a_s signature)
                       (Some tokenAddress)) ;;
       when (negb (Role_eqb (b_role balance) role_provider))
         (update (updateUserBalance (b_id balance) (- b_tokenBalance balance)) ;;
          ret tt) ;;
       completedTransaction <- update (updateTransactionStatus
          (t_id pendingTransaction) completed (Some (br_tx burnResult))) ;;
       emitTransactionUpdate (b_id balance) completedTransaction
         (Some (b_name balance)) None ev_completed ;;
       emitBalanceUpdate (b_id balance) ;;
       ifCommunity (u_communityId user) (fun c =>
         emitTransactionToCommunity c completedTransaction
           (Some (b_name balance)) None ev_completed) ;;
       ret (total + b_tokenBalance balance, affected + 1,
            (results ++ [mkBurnedHolder (b_name balance) (b_tokenBalance balance)
                           (br_tx burnResult)])%list,
            errors))
      (fun burnError =>
         ret (total, affected, results,
              (errors ++ [mkBurnAllError (b_name balance)
                            (message_or burnError "Burn fallito")])%list))
  else ret acc.

Definition burnAll (session : option id)
  : World W -> Resp BurnAllBody * World W :=
  requireAuth session (fun userId =>
    handle
      (found <- query (getUser userId) ;;
       user <- require found
         (reply_error 403 "Solo i coordinatori possono eseguire il burn") ;;
       reject_if (negb (Role_eqb (u_role user) role_coordinator))
         (reply_error 403 "Solo i coordinatori possono eseguire il burn") ;;
       communityId <- require (u_communityId user)
         (reply_error 400 "Nessuna comunità associata") ;;
       community <- query (getCommunity communityId) ;;
       tokenAddress <- require (token_of community)
         (reply_error 400 "La comunità non ha ancora un token. Crealo prima nelle Impostazioni.") ;;
       wallet <- query (getDefaultWallet (u_id user)) ;;
       coordinatorWallet <- require wallet
         (reply_error 400 "Wallet del coordinatore non trovato") ;;
       privateKey <- lift (KeyVault.decryptPrivateKey env
                             (w_encryptedPrivateKey coordinatorWallet)) ;;
       signerWallet <- call (newWallet privateKey) ;;
       tokenConfig <- call (getTokenConfig env (Some tokenAddress)) ;;
       balances <- query (getCommunityBalances communityId) ;;
       acc <- for_of (burnAll_item user tokenAddress signerWallet tokenConfig)
                     balances (0, 0, [], []) ;;
       let '(total, affected, results, errors) := acc in
       ret (reply_json (mkBurnAllBody total affected results errors)))
      (fun _ => reply_error 500 "Errore nel burn totale")).

(** *** [POST /api/purchase] *)

(** [purchaseSchema.parse(req.body)]: the body must carry a product id. *)
Definition purchaseSchema_parse (productId : option id) : Outcome id :=
  match productId with
  | Some p => Ok p
  | None => Throw ZodError
  end.

Definition purchase (session : option id) (productId : option id)
  : World W -> Resp PurchaseBody * World W :=
  requireAuth session (fun userId =>
    handle
      (found <- query (getUser userId) ;;
       buyer <- require found (reply_error 404 "Utente non trovato") ;;
       productId <- lift (purchaseSchema_parse productId) ;;
       item <- query (getProduct productId) ;;
       product <- require item (reply_error 404 "Prodotto non trovato") ;;
       reject_if (u_tokenBalance buyer <? p_price product)
         (reply_error 400 "Saldo insufficiente") ;;
       seller <- query (getUser (p_providerId product)) ;;
       provider <- require seller (reply_error 400 "Provider non trovato") ;;
       communityId <- require (u_communityId buyer)
         (reply_error 400 "Utente non associato a una comunità") ;;
       isAvailableInCommunity <-
         query (isProductAvailableInCommunity (p_id product) communityId) ;;
       reject_if (negb isAvailableInCommunity)
         (reply_error 400 "Questo prodotto non è disponibile nella tua comunità") ;;
       community <- query (getCommunity communityId) ;;
       tokenAddress <- require (token_of community)
         (reply_error 400 "La comunità non ha ancora un token") ;;
       bw <- query (getDefaultWallet (u_id buyer)) ;;
       buyerWallet <- require bw
         (reply_error 400 "Wallet dell'acquirente non trovato") ;;
       pw <- query (getDefaultWallet (u_id provider)) ;;
       providerWallet <- require pw
         (reply_error 400 "Wallet del venditore non trovato") ;;
       privateKey <- lift (KeyVault.decryptPrivateKey env
                             (w_encryptedPrivateKey buyerWallet)) ;;
       signerWallet <- call (newWallet privateKey) ;;
       adminWallet <- call (getAdminWallet env) ;;
       let adminAddress := ew_address adminWallet in
       pendingTransaction <- update (createTransaction
          (mkInsertTransaction tx_purchase (p_price product)
             ("Acquisto: " ++ p_name product) pending None
             (Some (u_id buyer)) (Some (p_providerId product))
             (Some (p_id product)) (Some communityId))) ;;
       emitTransactionUpdate (u_id buyer) (Some pendingTransaction)
         (Some (u_name buyer)) (Some (u_name provider)) ev_created ;;
       emitTransactionUpdate (u_id provider) (Some pendingTransaction)
         (Some (u_name buyer)) (Some (u_name provider)) ev_created ;;
       emitTransactionToCommunity communityId (Some pendingTransaction)
         (Some (u_name buyer)) (Some (u_name provider)) ev_created ;;
       tokenConfig <- call (getTokenConfig env (Some tokenAddress)) ;;
       amountWei <- call (parseAmount (p_price product) (cfg_decimals tokenConfig)) ;;
       deadline <- one_hour_from_now ;;
       permitSig <- call (signPermit env signerWallet adminAddress amountWei deadline
                      (Some tokenAddress)) ;;
       transferResult <- call (permitTransfer env (ew_address signerWallet) adminAddress
                           amountWei deadline
                           (ps_v permitSig) (ps_r permitSig) (ps_s permitSig)
                           (w_address providerWallet) (Some tokenAddress)) ;;
       update (updateUserBalance (u_id buyer) (- p_price product)) ;;
       update (updateUserBalance (u_id provider) (p_price product)) ;;
       completedTransaction <- update (updateTransactionStatus
          (t_id pendingTransaction) completed
          (Some (pt_transferTx transferResult))) ;;
       emitTransactionUpdate (u_id buyer) completedTransaction
         (Some (u_name buyer)) (Some (u_name provider)) ev_completed ;;
       emitTransactionUpdate (u_id provider) completedTransaction
         (Some (u_name buyer)) (Some (u_name provider)) ev_completed ;;
       emitBalanceUpdate (u_id buyer) ;;
       emitBalanceUpdate (u_id provider) ;;
       emitTransactionToCommunity communityId completedTransaction
         (Some (u_name buyer)) (Some (u_name provider)) ev_completed ;;
       updatedUser <- query (getUser (u_id buyer)) ;;
       ret (reply_json (mkPurchaseBody (option_map u_tokenBalance updatedUser)
                          (p_name product) (pt_transferTx transferResult))))
      (fun error =>
         match error with
         | ZodError => reply_zod
         | _ => reply_error 500
                  ("Errore nell'acquisto: " ++ message_or error "Operazione fallita")
         end)).

(** *** [POST /api/blockchain/mint-with-sig] and [.../burn-with-sig] *)

(** [!amount] *)
Definition no_amount (amount : option Z) : bool :=
  match amount with
  | Some a => a =? 0
  | None => true
  end.

Definition is_undefined {A} (v : option A) : bool :=
  match v with
  | Some _ => false
  | None => true
  end.

Definition missing_parameters (b : WithSigBody) : bool :=
  falsy (ws_signer b) || falsy (ws_account b) || no_amount (ws_amount b)
  || js_not (ws_deadline b) || is_undefined (ws_v b)
  || falsy (ws_r b) || falsy (ws_s b).

(** The checks shared by the two handlers; the continuation receives the
    fields and [deadlineNum]. *)
Definition with_sig_checks {A R'} (b : WithSigBody)
           (k : string -> string -> Z -> JsNumber -> Z -> string -> string
                -> M W (Resp R') A)
  : M W (Resp R') A :=
  reject_if (missing_parameters b) (reply_error 400 "Parametri mancanti") ;;
  signer <- require (ws_signer b) (reply_error 400 "Parametri mancanti") ;;
  account <- require (ws_account b) (reply_error 400 "Parametri mancanti") ;;
  amount <- require (ws_amount b) (reply_error 400 "Parametri mancanti") ;;
  v <- require (ws_v b) (reply_error 400 "Parametri mancanti") ;;
  r <- require (ws_r b) (reply_error 400 "Parametri mancanti") ;;
  s <- require (ws_s b) (reply_error 400 "Parametri mancanti") ;;
  let deadlineNum := Number (ws_deadline b) in
  clock <- peek Date_now ;;
  let now := clock / 1000 in
  reject_if (js_le deadlineNum now) (reply_error 400 "La firma è scaduta") ;;
  reject_if (js_gt deadlineNum (now + 3600))
    (reply_error 400 "Deadline troppo lontana (max 1 ora)") ;;
  k signer account amount deadlineNum v r s.

Definition mintWithSig (session : option id) (b : WithSigBody)
  : World W -> Resp MintResult * World W :=
  requireAuth session (fun _ =>
    handle
      (with_sig_checks b (fun signer to amount deadlineNum v r s =>
         result <- call (mintWithSignature env signer to amount deadlineNum v r s
                     (ws_tokenAddress b)) ;;
         ret (reply_json result)))
      (fun _ => reply_error 500 "Errore nel minting con firma")).

Definition burnWithSig (session : option id) (b : WithSigBody)
  : World W -> Resp BurnResult * World W :=
  requireAuth session (fun _ =>
    handle
      (with_sig_checks b (fun signer from amount deadlineNum v r s =>
         result <- call (burnWithSignature env signer from amount deadlineNum v r s
                     (ws_tokenAddress b)) ;;
         ret (reply_json result)))
      (fun _ => reply_error 500 "Errore nel burn con firma")).

(** *** [POST /api/wallets/import] and [POST /api/wallets/generate]

    The initialization vector drawn by [encryptPrivateKey], and for
    [generate] the wallet drawn by [ethers.Wallet.createRandom()], are
    inputs. *)

Definition walletImport (session : option id) (label privateKey : option string)
           (iv : list byte)
  : World W -> Resp WalletBody * World W :=
  requireAuth session (fun userId =>
    handle
      (found <- query (getUser userId) ;;
       _ <- require found (reply_error 401 "Utente non trovato") ;;
       reject_if (falsy label || falsy privateKey)
         (reply_error 400 "Label e chiave privata richieste") ;;
       privateKey <- require privateKey
         (reply_error 400 "Label e chiave privata richieste") ;;
       walletInstance <- call (getWalletFromPrivateKey env privateKey) ;;
       encryptedPrivateKey <- lift (KeyVault.encryptPrivateKey env iv privateKey) ;;
       wallet <- update (createWallet
          (mkInsertWallet userId (ew_address walletInstance)
                          encryptedPrivateKey (Some 0))) ;;
       ret (reply_json (wallet_body wallet)))
      (fun _ => reply_error 500 "Errore nell'importazione wallet")).

Definition walletGenerate (session : option id) (label : option string)
           (random : EWallet) (iv : list byte)
  : World W -> Resp WalletBody * World W :=
  requireAuth session (fun userId =>
    handle
      (found <- query (getUser userId) ;;
       _ <- require found (reply_error 401 "Utente non trovato") ;;
       reject_if (falsy label) (reply_error 400 "Label richiesta") ;;
       encryptedPrivateKey <- lift (KeyVault.encryptPrivateKey env iv
                                      (ew_privateKey random)) ;;
       wallet <- update (createWallet
          (mkInsertWallet userId (ew_address random)
                          encryptedPrivateKey (Some 0))) ;;
       ret (reply_json (wallet_body wallet)))
      (fun _ => reply_error 500 "Errore nella generazione wallet")).

(** *** [POST /api/wallets/:id/set-default] and [DELETE /api/wallets/:id] *)

Definition walletSetDefault (session : option id) (walletId : id)
  : World W -> Resp unit * World W :=
  requireAuth session (fun userId =>
    handle
      (found <- query (getWallet walletId) ;;
       wallet <- require found (reply_error 404 "Wallet non trovato") ;;
       reject_if (negb (N.eqb (w_userId wallet) userId))
         (reply_error 404 "Wallet non trovato") ;;
       update (fun s => (tt, setDefaultWallet userId walletId s)) ;;
       ret (reply_json tt))
      (fun _ => reply_error 500 "Errore nell'impostazione wallet predefinito")).

Definition walletDelete (session : option id) (walletId : id)
  : World W -> Resp unit * World W :=
  requireAuth session (fun userId =>
    handle
      (found <- query (getWallet walletId) ;;
       wallet <- require found (reply_error 404 "Wallet non trovato") ;;
       reject_if (negb (N.eqb (w_userId wallet) userId))
         (reply_error 404 "Wallet non trovato") ;;
       update (fun s => (tt, deleteWallet walletId s)) ;;
       ret (reply_json tt))
      (fun _ => reply_error 500 "Errore nell'eliminazione wallet")).

(** *** [POST /api/blockchain/sign-mint] and [.../sign-burn] *)




End Handlers.
End Routes.

(** ** A simulated deployment

    A small closed instance of the external interfaces, on which the
    handlers run to a value: a shift cipher with a checksum tag in place of
    AES-GCM, a token contract that counts nonces and caps allowances, and
    stand-ins for the signing library. *)
Module Sim.
Import KeyVault Storage Blockchain Routes.

Definition byte_of (n : N) : byte :=
  match Byte.of_N (n mod 256) with
  | Some b => b
  | None => x00
  end.

Definition shift_of (key iv : list byte) : N :=
  (Byte.to_N (hd x00 key) + Byte.to_N (hd x00 iv)) mod 256.

Definition checksum (key iv ct : list byte) : list byte :=
  byte_of (fold_left (fun acc b => (acc + Byte.to_N b) mod 256)%N ct
                     (shift_of key iv))
  :: repeat x00 15.

Definition byte_list_eqb (a b : list byte) : bool :=
  if list_eq_dec Byte.byte_eq_dec a b then true else false.

#[local] Instance shift_cipher : NodeCrypto := {|
  scryptSync pw salt n :=
    repeat (byte_of (N.of_nat (String.length pw + List.length salt))) n;
  cipheriv_ok key iv :=
    Nat.eqb (List.length key) KEY_LENGTH && negb (Nat.eqb (List.length iv) 0);
  cipher_output key iv pt :=
    map (fun b => byte_of (Byte.to_N b + shift_of key iv)) pt;
  cipher_getAuthTag key iv pt :=
    checksum key iv (map (fun b => byte_of (Byte.to_N b + shift_of key iv)) pt);
  setAuthTag_ok tag := Nat.eqb (List.length tag) 16;
  decipher_update key iv ct :=
    map (fun b => byte_of (Byte.to_N b + 256 - shift_of key iv)) ct;
  decipher_final_ok key iv tag ct := byte_list_eqb tag (checksum key iv ct)
|}.

Definition all_digits (s : string) : bool :=
  forallb (fun c => let n := N_of_ascii c in (48 <=? n) && (n <=? 57))%N
          (list_ascii_of_string s).

Definition digits_value (s : string) : Z :=
  fold_left (fun acc c => 10 * acc + (Z.of_N (N_of_ascii c) - 48))
            (list_ascii_of_string s) 0.

Fixpoint has_at (s : string) : bool :=
  match s with
  | EmptyString => false
  | String c s' => Ascii.eqb c "@" || has_at s'
  end.

#[local] Instance library : Library := {|
  wallet_address pk := Ok ("0xaddr" ++ pk);
  signTypedData pk domain message := Ok (mkSignature 27 ("0xr" ++ pk) "0xs");
  parseUnits amount decimals := Ok (amount * 10 ^ decimals);
  z_email s := has_at s;
  StringToNumber s :=
    match s with
    | EmptyString => Finite 0
    | _ => if all_digits s then Finite (inject_Z (digits_value s)) else NaN
    end
|}.

(** The simulated endpoint: a clock, a block height, the three nonce
    counters of the one signer it knows, the allowance of the admin wallet,
    a cap on what [permit] grants, and a switch that makes every submission
    revert. *)
Record SimChain : Type := mkSimChain {
  sim_clock : Z;
  sim_block : Z;
  sim_mintNonce : N;
  sim_burnNonce : N;
  sim_permitNonce : N;
  sim_allowance : Z;
  sim_cap : Z;
  sim_reverts : bool
}.

Definition sim_send (w : SimChain) (token : address) (c : ContractCall)
  : Outcome Receipt * SimChain :=
  if sim_reverts w then
    (Throw (Error "execution reverted"),
     mkSimChain (sim_clock w + 1000) (sim_block w) (sim_mintNonce w)
                (sim_burnNonce w) (sim_permitNonce w) (sim_allowance w)
                (sim_cap w) (sim_reverts w))
  else
    let rc := mkReceipt ("0xtx" ++ Z_toString (sim_block w + 1)) (sim_block w + 1) in
    match c with
    | call_mintWithSig _ _ _ _ _ _ _ =>
        (Ok rc, mkSimChain (sim_clock w + 1000) (sim_block w + 1)
                  (N.succ (sim_mintNonce w)) (sim_burnNonce w)
                  (sim_permitNonce w) (sim_allowance w) (sim_cap w) false)
    | call_burnWithSig _ _ _ _ _ _ _ =>
        (Ok rc, mkSimChain (sim_clock w + 1000) (sim_block w + 1)
                  (sim_mintNonce w) (N.succ (sim_burnNonce w))
                  (sim_permitNonce w) (sim_allowance w) (sim_cap w) false)
    | call_permit _ _ value _ _ _ _ =>
        (Ok rc, mkSimChain (sim_clock w + 1000) (sim_block w + 1)
                  (sim_mintNonce w) (sim_burnNonce w)
                  (N.succ (sim_permitNonce w)) (Z.min value (sim_cap w))
                  (sim_cap w) false)
    | call_transferFrom _ _ value =>
        (Ok rc, mkSimChain (sim_clock w + 1000) (sim_block w + 1)
                  (sim_mintNonce w) (sim_burnNonce w) (sim_permitNonce w)
                  (sim_allowance w - value) (sim_cap w) false)
    end.

#[local] Instance sim_chain : Chain SimChain := {|
  Date_now w := sim_clock w;
  getNetwork w := Ok 11155111;
  read_metadata w token :=
    Ok (mkTokenMetadata "Rete Token" "RETE" 18 0 "0xowner" "0xadmin" false);
  read_adminBurnEnabled w token := Ok false;
  read_decimals w token := Ok 18;
  read_mintNonces w token signer := Ok (sim_mintNonce w);
  read_burnNonces w token signer := Ok (sim_burnNonce w);
  read_nonces w token owner := Ok (sim_permitNonce w);
  read_allowance w token owner spender := Ok (sim_allowance w);
  send := sim_send
|}.

Definition env : Env :=
  mkEnv (Some "http://rpc.local") (Some "0xadminkey") None None None
        (Some "master-secret").

Definition iv0 : list byte := repeat x2a 16.

Definition key_of (n : string) : string :=
  "0x" ++ n ++ "00000000000000000000000000000000000000000000000000000000000000".

Definition sealed (k : string) : string :=
  match encryptPrivateKey env iv0 k with
  | Ok record => record
  | Throw _ => EmptyString
  end.

Definition carla : User :=
  mkUser 1 "carla@rete.it" "Carla" role_coordinator (Some 10%N) 0 "0xC".
Definition alice : User :=
  mkUser 2 "alice@rete.it" "Alice" role_user (Some 10%N) 300 "0xA".
Definition bob : User :=
  mkUser 3 "bob@rete.it" "Bob" role_user (Some 10%N) 150 "0xB".
Definition dora : User :=
  mkUser 4 "dora@rete.it" "Dora" role_user (Some 10%N) 0 "0xD".
Definition paolo : User :=
  mkUser 5 "paolo@shop.it" "Paolo" role_provider None 0 "0xP".

Definition store0 : Store :=
  mkStore [carla; alice; bob; dora; paolo]
          [mkCommunity 10 "Borgo" (Some "0xT0KEN")]
          [mkProduct 20 "Pannello" 100 5]
          [mkWallet 31 1 "0xC" (sealed (key_of "c1")) 1;
           mkWallet 32 2 "0xA" (sealed (key_of "a1")) 1;
           mkWallet 35 5 "0xP" (sealed (key_of "e5")) 1]
          [mkProductCommunity 20 10]
          []
          100.

Definition chain0 : SimChain := mkSimChain 1700000000000 0 0 0 0 0 (10 ^ 30) false.

Definition world0 : World SimChain := mkWorld store0 chain0 [] [].


(** The same deployment with a token that grants at most 40 units of
    allowance per permit. *)
Definition world_capped : World SimChain :=
  mkWorld store0 (mkSimChain 1700000000000 0 0 0 0 0 (40 * 10 ^ 18) false) [] [].

(** The coordinator's signing wallet, as the handlers rebuild it. *)
Definition carla_wallet : EWallet :=
  mkEWallet (key_of "c1") ("0xaddr" ++ key_of "c1").

Definition sign_mint (to : address) (amountWei deadline : Z)
  : Res Empty_set Authorization * World SimChain :=
  signMintAuthorization (CH := sim_chain) env carla_wallet to amountWei deadline
                        (Some "0xT0KEN") world0.

Definition sign_burn (from : address) (amountWei deadline : Z)
  : Res Empty_set Authorization * World SimChain :=
  signBurnAuthorization (CH := sim_chain) env carla_wallet from amountWei deadline
                        (Some "0xT0KEN") world0.

(** A signature request whose deadline passed one second ago. *)
Definition expired_request : WithSigBody :=
  mkWithSigBody (Some "0xC") (Some "0xA") (Some 5)
                (js_number (Finite (inject_Z 1699999999)))
                (Some 27) (Some "0xr") (Some "0xs") (Some "0xT0KEN").

(** The handlers of the simulated deployment. *)
Definition encrypt := encryptPrivateKey (C := shift_cipher) env.
Definition decrypt := decryptPrivateKey (C := shift_cipher) env.
Definition distribute := Routes.distribute (CH := sim_chain) env.
Definition burn := Routes.burn (CH := sim_chain) env.
Definition burnAll := Routes.burnAll (CH := sim_chain) env.
Definition transfer := Routes.transfer (CH := sim_chain) env.
Definition purchase := Routes.purchase (CH := sim_chain) env.
Definition mintWithSig := Routes.mintWithSig (CH := sim_chain) env.
Definition burnWithSig := Routes.burnWithSig (CH := sim_chain) env.





Definition distributed_bob : Resp DistributeBody * World SimChain :=
  distribute (Some 1%N) (Some [mkDistribution "bob@rete.it" 75]) world0.

(** Dora imports her first wallet; Carla has a mint of five tokens to Alice
    signed with her wallet; the deployment without its master secret. *)
Definition imported : Resp WalletBody * World SimChain :=
  walletImport (W := SimChain) env (Some 4%N) (Some "main")
               (Some (key_of "d4")) iv0 world0.



Definition env_without_secret : Env :=
  mkEnv (Some "http://rpc.local") (Some "0xadminkey") None None None None.

(** Alice sends fifty tokens to Bob while the token grants at most forty
    units of allowance. *)
Definition capped_transfer : Resp TransferBody * World SimChain :=
  transfer (Some 2%N) (Some 3%N) (Some 50) None world_capped.



End Sim.

(** ** Vocabulary of the properties *)

(** Every result a computation can reach from [w] is related to [w] by
    [P]. *)
Definition respects {W R A} (P : World W -> World W -> Prop) (m : M W R A)
  : Prop :=
  forall w r w', m w = (r, w') -> P w w'.

(** Every result of [m] from [w] satisfies [Q]. *)
Definition post {W R A} (m : M W R A) (w : World W)
           (Q : Res R A -> World W -> Prop) : Prop :=
  forall r w', m w = (r, w') -> Q r w'.

(** [w] with more notifications. *)
Definition notified {W} (w : World W) (es : list Event) : World W :=
  mkWorld (db w) (ext w) (calls w) (emitted w ++ es)%list.

(** [w] with another database. *)
Definition stored {W} (w : World W) (d : Store) : World W :=
  mkWorld d (ext w) (calls w) (emitted w).

(** The computation only notifies: it returns, and all it does is emit. *)
Definition emits_only {W R} (m : M W R unit) : Prop :=
  forall w, exists es, m w = (Val tt, notified w es).

(** The relations used with [respects] are preorders on worlds. *)
Class Frame {W} (P : World W -> World W -> Prop) : Prop := {
  frame_refl : forall w, P w w;
  frame_trans : forall a b c, P a b -> P b c -> P a c
}.

(** The computation only reads. *)
Definition unchanged {W} (w w' : World W) : Prop := w' = w.

(** The computation leaves the database and the notifications alone and
    only ever appends to the submissions. *)
Definition same_db {W} (w w' : World W) : Prop :=
  db w' = db w /\ emitted w' = emitted w
  /\ exists cs, calls w' = (calls w ++ cs)%list.

(** The invariant of the transaction table: a completed transaction
    carries a chain transaction hash. *)
Definition hash_invariant (d : Store) : Prop :=
  forall t, In t (transactions d) ->
            t_status t = completed -> t_txHash t <> None.

Definition keeps_invariant {W} (w w' : World W) : Prop :=
  hash_invariant (db w) -> hash_invariant (db w').

(** The row that [distribute] inserts for one recipient, and the store
    after that recipient's mint went through with hash [h]: the pending row
    inserted, the balance credited, the row completed. *)
Definition distribute_insert (user target : User) (d : Routes.Distribution)
  : InsertTransaction :=
  mkInsertTransaction tx_receive (Routes.dist_amount d)
    ("Distribuzione da " ++ u_name user) pending None
    (Some (u_id user)) (Some (u_id target)) None (u_communityId user).

Definition distribute_store (user target : User) (d : Routes.Distribution)
           (h : string) (s : Store) : Store :=
  snd (Storage.updateTransactionStatus (id_seq s) completed (Some h)
         (snd (Storage.updateUserBalance (u_id target) (Routes.dist_amount d)
                 (snd (Storage.createTransaction
                         (distribute_insert user target d) s))))).

(** The row that [transfer] inserts once the chain transfer went through
    with hash [h]. *)
Definition transfer_insert (sender recipient : User) (amt : Z)
           (note : option string) (communityId : id) (h : string)
  : InsertTransaction :=
  mkInsertTransaction tx_send amt
    (Routes.or_default note ("Trasferimento a " ++ u_name recipient))
    completed (Some h) (Some (u_id sender)) (Some (u_id recipient)) None
    (Some communityId).

(** The row that [purchase] inserts before it turns to the chain, and the
    store after the purchase went through with hash [h]. *)
Definition purchase_insert (buyer : User) (product : Product) (communityId : id)
  : InsertTransaction :=
  mkInsertTransaction tx_purchase (p_price product)
    ("Acquisto: " ++ p_name product) pending None
    (Some (u_id buyer)) (Some (p_providerId product)) (Some (p_id product))
    (Some communityId).

Definition purchase_store (buyer provider : User) (product : Product)
           (communityId : id) (h : string) (s : Store) : Store :=
  snd (Storage.updateTransactionStatus (id_seq s) completed (Some h)
         (snd (Storage.updateUserBalance (u_id provider) (p_price product)
                 (snd (Storage.updateUserBalance (u_id buyer) (- p_price product)
                         (snd (Storage.createTransaction
                                 (purchase_insert buyer product communityId)
                                 s))))))).



(** Two integrity constraints of the database: [users.id] is a primary key,
    and the account a product names as its provider has the provider role
    (products are only created by providers). *)
Definition unique_ids (s : Store) : Prop := NoDup (map u_id (users s)).

Definition providers_own_products (s : Store) : Prop :=
  forall p u,
    In p (products s) -> In u (users s) -> u_id u = p_providerId p ->
    u_role u = role_provider.

(** The total of the cached ledger. *)
Definition total_balance (s : Store) : Z :=
  fold_right (fun u total => u_tokenBalance u + total) 0 (users s).

(** No account is overdrawn in the cached ledger. *)
Definition solvent (s : Store) : Prop :=
  forall u, In u (users s) -> 0 <= u_tokenBalance u.




(** [wallets.id] is a primary key. *)
Definition unique_wallet_ids (s : Store) : Prop :=
  NoDup (map w_id (wallets s)).

(** A relation on worlds that only looks at the database. *)
Definition on_db {W} (D : Store -> Store -> Prop) (w w' : World W) : Prop :=
  D (db w) (db w').

(** The two stores hold the same accounts, up to their cached balances, and
    the same communities, products, wallets and offers. *)
Definition same_accounts (s s' : Store) : Prop :=
  map Storage.zero_balance (users s') = map Storage.zero_balance (users s)
  /\ communities s' = communities s
  /\ products s' = products s
  /\ wallets s' = wallets s
  /\ productCommunities s' = productCommunities s.

(** [t'] records the same settlement as [t]: they differ at most in status
    and hash. *)
Definition same_record (t t' : Transaction) : Prop :=
  t_id t' = t_id t /\ t_type t' = t_type t /\ t_amount t' = t_amount t
  /\ t_description t' = t_description t
  /\ t_fromUserId t' = t_fromUserId t /\ t_toUserId t' = t_toUserId t
  /\ t_productId t' = t_productId t /\ t_communityId t' = t_communityId t.

(** Every transaction of [s] is still recorded in [s'], and is still
    completed if it was. *)
Definition log_kept (s s' : Store) : Prop :=
  forall t, In t (transactions s) ->
    exists t', In t' (transactions s') /\ same_record t t'
               /\ (t_status t = completed -> t_status t' = completed).


(** The row that [burn] inserts, and the store after the burn went through
    with hash [h]: the pending row inserted, the account debited, the row
    completed. *)
Definition burn_insert (user account : User) (amount : Z)
           (description : option string) : InsertTransaction :=
  mkInsertTransaction tx_burn amount
    (Routes.or_default description "Burn token") pending None
    (Some (u_id account)) None None (u_communityId user).

Definition burn_store (user account : User) (amount : Z)
           (description : option string) (h : string) (s : Store) : Store :=
  snd (Storage.updateTransactionStatus (id_seq s) completed (Some h)
         (snd (Storage.updateUserBalance (u_id account) (- amount)
                 (snd (Storage.createTransaction
                         (burn_insert user account amount description) s))))).

(** The tokens a distribution reports as minted. *)
Definition sum_distributed (rs : list Routes.Distributed) : Z :=
  fold_right (fun r total => Routes.dr_amount r + total) 0 rs.

(** A JavaScript number that is not an unsigned integer. *)
Definition not_a_uint (n : JsNumber) : Prop :=
  match n with
  | Finite q => Qnum (Qred q) < 0 \/ Qden (Qred q) <> 1%positive
  | _ => True
  end.

(** The rooms a user may listen to: the user's own, and the one of the
    community the database stores for the user. *)
Definition own_room (uid : id) (db : Store) (r : Room) : Prop :=
  r = room_user uid
  \/ exists user c,
       Storage.getUser uid db = Some user
       /\ u_communityId user = Some c
       /\ r = room_community c.

(** An [authenticate] message that names the session's user, found in the
    database, and no community or the stored one. *)
Definition accepted (uid : id) (data : WebSocket.AuthData) (db : Store)
  : Prop :=
  WebSocket.ad_userId data = Some uid
  /\ exists user,
       Storage.getUser uid db = Some user
       /\ (WebSocket.ad_communityId data = None
           \/ WebSocket.ad_communityId data = u_communityId user).

(** The five settlement requests. *)
Inductive Settlement : Type :=
| do_distribute (session : option id) (body : option (list Routes.Distribution))
| do_burn (session : option id) (amount : option Z)
          (description : option string) (targetUserId : option id)
| do_burnAll (session : option id)
| do_transfer (session : option id) (recipientId : option id)
              (amount : option Z) (note : option string)
| do_purchase (session : option id) (productId : option id).

Section Reachability.
Context {W : Type} {CH : Chain W} {L : Library} {C : KeyVault.NodeCrypto}.
Variable env : Env.

(** The world after the server has answered a request. *)
Definition serve (q : Settlement) (w : World W) : World W :=
  match q with
  | do_distribute session body => snd (Routes.distribute env session body w)
  | do_burn session amount description target =>
      snd (Routes.burn env session amount description target w)
  | do_burnAll session => snd (Routes.burnAll env session w)
  | do_transfer session recipient amount note =>
      snd (Routes.transfer env session recipient amount note w)
  | do_purchase session productId => snd (Routes.purchase env session productId w)
  end.

(** The worlds reached from [w0] by settlement requests, the chain and the
    clock moving freely between two requests. *)
Inductive reachable (w0 : World W) : World W -> Prop :=
| reach_start : reachable w0 w0
| reach_serve q w : reachable w0 w -> reachable w0 (serve q w)
| reach_chain e w :
    reachable w0 w -> reachable w0 (mkWorld (db w) e (calls w) (emitted w)).

End Reachability.

(** * Properties *)

(** ** Key vault *)
Section KeyVaultFacts.
Import KeyVault.

Lemma append_empty_r (s : string) : s ++ EmptyString = s.
Proof. induction s as [|c s IH]; simpl; [reflexivity | now rewrite IH]. Qed.

Lemma append_assoc (a b c : string) : (a ++ b) ++ c = a ++ (b ++ c).
Proof. induction a as [|x a IH]; simpl; [reflexivity | now rewrite IH]. Qed.

Lemma from_hex_byte (b : byte) (s : string) :
  from_hex (byte_to_hex b ++ s) = b :: from_hex s.
Proof. destruct b; reflexivity. Qed.

Lemma from_hex_to_hex (bs : list byte) : from_hex (to_hex bs) = bs.
Proof.
  induction bs as [|b bs IH]; cbn [to_hex]; [reflexivity|].
  rewrite from_hex_byte. now rewrite IH.
Qed.

Lemma split_aux_byte (b : byte) (s : string) :
  split_aux colon (byte_to_hex b ++ s)
  = (byte_to_hex b ++ fst (split_aux colon s), snd (split_aux colon s)).
Proof.
  destruct b; cbn; destruct (split_aux colon s); reflexivity.
Qed.

Lemma split_aux_hex (bs : list byte) (s : string) :
  split_aux colon (to_hex bs ++ s)
  = (to_hex bs ++ fst (split_aux colon s), snd (split_aux colon s)).
Proof.
  induction bs as [|b bs IH]; cbn [to_hex].
  - cbn [append]. now destruct (split_aux colon s).
  - rewrite append_assoc, split_aux_byte, IH. cbn [fst snd].
    now rewrite append_assoc.
Qed.

Lemma split_aux_colon (s : string) :
  split_aux colon (String colon s)
  = (EmptyString, fst (split_aux colon s) :: snd (split_aux colon s)).
Proof. simpl. now destruct (split_aux colon s). Qed.

(** A record written by the vault splits into its three fields. *)
Lemma split_record (iv tag ct : list byte) :
  split colon (to_hex iv ++ ":" ++ to_hex tag ++ ":" ++ to_hex ct)
  = [to_hex iv; to_hex tag; to_hex ct].
Proof.
  assert (Hct : split_aux colon (to_hex ct) = (to_hex ct, [])).
  { rewrite <- (append_empty_r (to_hex ct)) at 1.
    rewrite split_aux_hex. cbn. now rewrite append_empty_r. }
  assert (Htag : split_aux colon (to_hex tag ++ String colon (to_hex ct))
                 = (to_hex tag, [to_hex ct])).
  { rewrite split_aux_hex, split_aux_colon, Hct. cbn.
    now rewrite append_empty_r. }
  unfold split. change ":" with (String colon EmptyString). cbn [append].
  rewrite split_aux_hex, split_aux_colon, Htag. cbn.
  now rewrite append_empty_r.
Qed.

Lemma utf8_roundtrip (s : string) : utf8_decode (utf8_encode s) = s.
Proof. apply string_of_list_byte_of_string. Qed.

Lemma getEncryptionKey_configured {C : NodeCrypto} env secret :
  WALLET_ENCRYPTION_KEY env = Some secret -> secret <> EmptyString ->
  getEncryptionKey env
  = Ok (scryptSync secret
          (scryptSync secret (utf8_encode "rete-wallet-salt") SALT_LENGTH)
          KEY_LENGTH).
Proof.
  intros Hk Hne. unfold getEncryptionKey. rewrite Hk.
  destruct secret; [congruence | reflexivity].
Qed.

(** C3. With the master secret configured, every valid private key, sealed
    under any 16-byte initialization vector, is recovered by decryption:
    [decryptPrivateKey (encryptPrivateKey k) = k]. *)
Theorem decrypt_encrypt_roundtrip (C : NodeCrypto) (G : GcmCorrect C)
        (env : Env) (secret : string) (iv : list byte) (k : string) :
  WALLET_ENCRYPTION_KEY env = Some secret ->
  secret <> EmptyString ->
  List.length iv = IV_LENGTH ->
  valid_private_key k = true ->
  exists record,
    encryptPrivateKey env iv k = Ok record
    /\ decryptPrivateKey env record = Ok k.
Proof.
  intros Hk Hne Hiv _.
  pose proof (getEncryptionKey_configured env Hk Hne) as Hkey.
  set (key := scryptSync secret _ KEY_LENGTH) in Hkey.
  assert (Hlen : List.length key = KEY_LENGTH) by apply (scrypt_length G).
  unfold encryptPrivateKey, decryptPrivateKey. rewrite Hkey.
  rewrite (gcm_accepts G key iv Hlen Hiv).
  eexists; split; [reflexivity|].
  rewrite split_record, !from_hex_to_hex.
  rewrite (gcm_accepts G key iv Hlen Hiv).
  rewrite (gcm_tag_accepted G key iv _ Hlen Hiv).
  rewrite (gcm_authentic G key iv _ Hlen Hiv).
  rewrite (gcm_inverse G key iv _ Hlen Hiv).
  cbn [negb]. now rewrite utf8_roundtrip, append_empty_r.
Qed.


End KeyVaultFacts.

(** *** The shift cipher of the simulated deployment obeys the laws *)
Section ShiftCipher.
Import KeyVault.

Lemma byte_of_to_N (b : byte) : Sim.byte_of (Byte.to_N b) = b.
Proof. destruct b; reflexivity. Qed.

Lemma to_N_byte_of (n : N) : Byte.to_N (Sim.byte_of n) = (n mod 256)%N.
Proof.
  unfold Sim.byte_of. destruct (Byte.of_N (n mod 256)) eqn:E.
  - now apply Byte.to_of_N in E.
  - apply Byte.of_N_None_iff in E.
    pose proof (N.mod_lt n 256). lia.
Qed.

Lemma shift_back (x sh : N) :
  (x < 256 -> sh < 256 -> ((x + sh) mod 256 + 256 - sh) mod 256 = x)%N.
Proof.
  intros Hx Hs.
  destruct (N.lt_ge_cases (x + sh) 256) as [H|H].
  - rewrite (N.mod_small (x + sh)) by assumption.
    replace (x + sh + 256 - sh)%N with (x + 1 * 256)%N by lia.
    rewrite N.Div0.mod_add. now apply N.mod_small.
  - replace ((x + sh) mod 256)%N with (x + sh - 256)%N.
    + replace (x + sh - 256 + 256 - sh)%N with x by lia. now apply N.mod_small.
    + apply N.mod_unique with (q := 1%N); lia.
Qed.

Lemma shift_of_bound key iv : (Sim.shift_of key iv < 256)%N.
Proof. unfold Sim.shift_of. now apply N.mod_lt. Qed.

Lemma unshift_shift key iv (b : byte) :
  Sim.byte_of (Byte.to_N (Sim.byte_of (Byte.to_N b + Sim.shift_of key iv))
               + 256 - Sim.shift_of key iv) = b.
Proof.
  rewrite to_N_byte_of.
  pose proof (Byte.to_N_bounded b) as Hb.
  pose proof (shift_of_bound key iv) as Hs.
  unfold Sim.byte_of at 1.
  rewrite shift_back by lia.
  fold (Sim.byte_of (Byte.to_N b)).
  replace (Byte.of_N (Byte.to_N b)) with (Some b) by (symmetry; apply Byte.of_to_N).
  reflexivity.
Qed.

Lemma shift_cipher_correct : GcmCorrect Sim.shift_cipher.
Proof.
  split; cbn.
  - intros. apply repeat_length.
  - intros key iv Hk Hi. rewrite Hk, Hi. reflexivity.
  - reflexivity.
  - intros key iv pt _ _. rewrite map_map.
    rewrite <- (map_id pt) at 2. apply map_ext. apply unshift_shift.
  - intros key iv pt _ _. unfold Sim.byte_list_eqb.
    now destruct (list_eq_dec _ _ _).
Qed.

End ShiftCipher.

(** ** The request monad *)
Section Frames.
Context {W : Type}.
Variable P : World W -> World W -> Prop.
Context {F : Frame P}.

Let P_refl : forall w, P w w := frame_refl.
Let P_trans : forall a b c, P a b -> P b c -> P a c := frame_trans.

Lemma respects_ret {R A} (a : A) : respects P (ret (R := R) a).
Proof. intros w r w' H. injection H as _ <-. apply P_refl. Qed.

Lemma respects_throw {R A} e : respects P (throw (R := R) (A := A) e).
Proof. intros w r w' H. injection H as _ <-. apply P_refl. Qed.

Lemma respects_leave {R A} r : respects P (leave (R := R) (A := A) r).
Proof. intros w r0 w' H. injection H as _ <-. apply P_refl. Qed.

Lemma respects_lift {R A} (o : Outcome A) : respects P (lift (R := R) o).
Proof. destruct o; [apply respects_ret | apply respects_throw]. Qed.

Lemma respects_query {R A} (f : Store -> A) : respects P (query (R := R) f).
Proof. intros w r w' H. injection H as _ <-. apply P_refl. Qed.

Lemma respects_peek {R A} (f : W -> A) : respects P (peek (R := R) f).
Proof. intros w r w' H. injection H as _ <-. apply P_refl. Qed.

Lemma respects_view {R A} (f : W -> Outcome A) : respects P (view (R := R) f).
Proof. intros w r w' H. unfold view in H. now apply respects_lift in H. Qed.

Lemma respects_bind {R A B} (m : M W R A) (k : A -> M W R B) :
  respects P m -> (forall a, respects P (k a)) -> respects P (bind m k).
Proof.
  intros Hm Hk w r w' H. unfold bind in H.
  destruct (m w) as [[a|e|x] w1] eqn:E; apply Hm in E.
  - apply Hk in H. eauto.
  - injection H as _ <-. exact E.
  - injection H as _ <-. exact E.
Qed.

Lemma respects_try_catch {R A} (m : M W R A) (h : JsError -> M W R A) :
  respects P m -> (forall e, respects P (h e)) -> respects P (try_catch m h).
Proof.
  intros Hm Hh w r w' H. unfold try_catch in H.
  destruct (m w) as [[a|e|x] w1] eqn:E; apply Hm in E.
  - injection H as _ <-. exact E.
  - apply Hh in H. eauto.
  - injection H as _ <-. exact E.
Qed.

Lemma respects_call {R A} (m : M W Empty_set A) :
  respects P m -> respects P (call (R := R) m).
Proof.
  intros Hm w r w' H. unfold call in H.
  destruct (m w) as [[a|e|[]] w1] eqn:E; apply Hm in E;
    injection H as _ <-; exact E.
Qed.

Lemma respects_block {R A} (m : M W A A) : respects P m -> respects P (block (R := R) m).
Proof.
  intros Hm w r w' H. unfold block in H.
  destruct (m w) as [[a|e|x] w1] eqn:E; apply Hm in E;
    injection H as _ <-; exact E.
Qed.

Lemma respects_require {R A} (o : option A) (r : R) :
  respects P (Routes.require (W := W) o r).
Proof. destruct o; [apply respects_ret | apply respects_leave]. Qed.

Lemma respects_reject_if {R} (c : bool) (r : R) :
  respects P (Routes.reject_if (W := W) c r).
Proof. destruct c; [apply respects_leave | apply respects_ret]. Qed.

Lemma respects_when {R} (c : bool) (m : M W R unit) :
  respects P m -> respects P (Routes.when c m).
Proof. destruct c; cbn; [trivial | intros; apply respects_ret]. Qed.

Lemma respects_ifCommunity {R} (c : option id) (m : id -> M W R unit) :
  (forall x, respects P (m x)) -> respects P (Routes.ifCommunity c m).
Proof. destruct c; cbn; [auto | intros; apply respects_ret]. Qed.

Lemma respects_for_of {R A S} (body : S -> A -> M W S S) xs :
  (forall s x, respects P (body s x)) ->
  forall s, respects P (Routes.for_of (R := R) body xs s).
Proof.
  intros Hb. induction xs as [|x xs IH]; intros s; cbn [Routes.for_of].
  - apply respects_ret.
  - apply respects_bind; [apply respects_block, Hb | intros; apply IH].
Qed.

Lemma respects_handle {A} (m : M W (Routes.Resp A) (Routes.Resp A)) onError :
  respects P m ->
  forall w, P w (snd (Routes.handle m onError w)).
Proof.
  intros Hm w. unfold Routes.handle.
  destruct (m w) as [[a|e|x] w1] eqn:E; apply Hm in E; exact E.
Qed.

Lemma respects_requireAuth {A} session
      (next : id -> World W -> Routes.Resp A * World W) :
  (forall u w, P w (snd (next u w))) ->
  forall w, P w (snd (Routes.requireAuth session next w)).
Proof. intros H w. destruct session; cbn; auto. Qed.

End Frames.

(** Decompose a computation along its binds, branches and loops. *)
Ltac framed l :=
  apply l; try (match goal with |- Frame _ => typeclasses eauto end).

Ltac step_frames :=
  lazymatch goal with
  | |- respects _ (bind _ _) => framed respects_bind; [|intro]
  | |- respects _ (ret _) => framed respects_ret
  | |- respects _ (throw _) => framed respects_throw
  | |- respects _ (leave _) => framed respects_leave
  | |- respects _ (lift _) => framed respects_lift
  | |- respects _ (query _) => framed respects_query
  | |- respects _ (peek _) => framed respects_peek
  | |- respects _ (view _) => framed respects_view
  | |- respects _ (Routes.require _ _) => framed respects_require
  | |- respects _ (Routes.reject_if _ _) => framed respects_reject_if
  | |- respects _ (Routes.when _ _) => framed respects_when
  | |- respects _ (Routes.ifCommunity _ _) => framed respects_ifCommunity; intro
  | |- respects _ (try_catch _ _) => framed respects_try_catch; [|intro]
  | |- respects _ (block _) => framed respects_block
  | |- respects _ (call _) => framed respects_call
  | |- respects _ (Routes.for_of _ _ _) => framed respects_for_of; intros
  | |- respects _ (match ?x with _ => _ end) => destruct x
  end.

Ltac frames :=
  repeat first
    [ assumption
    | match goal with
      | H : forall t, respects _ (?f t) |- respects _ (?f _) => apply H
      | H : forall a t, respects _ (?f a t) |- respects _ (?f _ _) => apply H
      | H : forall a b t, respects _ (?f a b t) |- respects _ (?f _ _ _) => apply H
      end
    | step_frames ].

Instance unchanged_frame {W} : Frame (@unchanged W).
Proof. split; unfold unchanged; congruence. Qed.

Instance same_db_frame {W} : Frame (@same_db W).
Proof.
  split; unfold same_db.
  - intros w. repeat split. exists []. now rewrite app_nil_r.
  - intros a b c (H1 & H2 & cs1 & H3) (H4 & H5 & cs2 & H6).
    repeat split; try congruence.
    exists (cs1 ++ cs2)%list. now rewrite H6, H3, app_assoc.
Qed.

Instance keeps_invariant_frame {W} : Frame (@keeps_invariant W).
Proof. split; unfold keeps_invariant; auto. Qed.

(** ** Gateway and signer *)
Section GatewayFrames.
Import Blockchain.
Context {W : Type} {CH : Chain W} {L : Library}.
Variable env : Env.
Variable P : World W -> World W -> Prop.
Context {F : Frame P}.

Lemma getProvider_respects : respects P (getProvider env).
Proof. unfold getProvider. frames. Qed.

Lemma newWallet_respects k : respects P (newWallet k).
Proof. unfold newWallet. frames. Qed.

Lemma getAdminWallet_respects : respects P (getAdminWallet env).
Proof.
  pose proof getProvider_respects. pose proof newWallet_respects.
  unfold getAdminWallet. frames.
Qed.

Lemma getTokenAddress_respects : respects P (getTokenAddress env).
Proof. unfold getTokenAddress. frames. Qed.

Lemma address_or_default_respects t :
  respects P (address_or_default env t).
Proof.
  pose proof getTokenAddress_respects.
  unfold address_or_default. frames.
Qed.

Lemma getTokenContract_respects t :
  respects P (getTokenContract env t).
Proof.
  pose proof address_or_default_respects.
  pose proof getAdminWallet_respects.
  unfold getTokenContract. frames.
Qed.

Lemma getTokenContractReadonly_respects t :
  respects P (getTokenContractReadonly env t).
Proof.
  pose proof address_or_default_respects.
  pose proof getProvider_respects.
  unfold getTokenContractReadonly. frames.
Qed.

Lemma parseAmount_respects a d : respects P (parseAmount a d).
Proof. unfold parseAmount. frames. Qed.

Lemma getTokenConfig_respects t :
  respects P (getTokenConfig env t).
Proof.
  pose proof address_or_default_respects.
  pose proof getProvider_respects.
  pose proof getTokenContractReadonly_respects.
  unfold getTokenConfig. frames.
Qed.

Lemma getMintNonce_respects a t :
  respects P (getMintNonce env a t).
Proof.
  pose proof getTokenContractReadonly_respects.
  unfold getMintNonce. frames.
Qed.

Lemma getBurnNonce_respects a t :
  respects P (getBurnNonce env a t).
Proof.
  pose proof getTokenContractReadonly_respects.
  unfold getBurnNonce. frames.
Qed.

Lemma getPermitNonce_respects a t :
  respects P (getPermitNonce env a t).
Proof.
  pose proof getTokenContractReadonly_respects.
  unfold getPermitNonce. frames.
Qed.

Lemma signPermit_respects wl sp a d t :
  respects P (signPermit env wl sp a d t).
Proof.
  pose proof getTokenConfig_respects.
  pose proof getPermitNonce_respects.
  unfold signPermit. frames.
Qed.

Lemma signMintAuthorization_respects wl to a d t :
  respects P (signMintAuthorization env wl to a d t).
Proof.
  pose proof getTokenConfig_respects.
  pose proof getTokenContractReadonly_respects.
  pose proof getMintNonce_respects.
  unfold signMintAuthorization. frames.
Qed.

Lemma signBurnAuthorization_respects wl from a d t :
  respects P (signBurnAuthorization env wl from a d t).
Proof.
  pose proof getTokenConfig_respects.
  pose proof getBurnNonce_respects.
  unfold signBurnAuthorization. frames.
Qed.

Lemma one_hour_from_now_respects {R} :
  respects P (Routes.one_hour_from_now (W := W) (R := R)).
Proof. unfold Routes.one_hour_from_now. frames. Qed.

(** The functions that submit respect every frame that [submit] does. *)
Hypothesis P_submit : forall t c, respects P (submit t c).

Lemma mintWithSignature_respects sg to a d v r s t :
  respects P (mintWithSignature env sg to a d v r s t).
Proof.
  pose proof getTokenContract_respects.
  pose proof parseAmount_respects.
  unfold mintWithSignature. frames.
Qed.

Lemma burnWithSignature_respects sg from a d v r s t :
  respects P (burnWithSignature env sg from a d v r s t).
Proof.
  pose proof getTokenContract_respects.
  pose proof parseAmount_respects.
  unfold burnWithSignature. frames.
Qed.

Lemma permitTransfer_respects o sp val d v r s rcp t :
  respects P (permitTransfer env o sp val d v r s rcp t).
Proof.
  pose proof getTokenContract_respects.
  pose proof getAdminWallet_respects.
  unfold permitTransfer. frames.
Qed.

End GatewayFrames.

(** The calls of a handler into the gateway that only read. *)
Ltac gateway_leaf :=
  lazymatch goal with
  | |- respects _ (Blockchain.getTokenConfig _ _) => framed getTokenConfig_respects
  | |- respects _ (Blockchain.signMintAuthorization _ _ _ _ _ _) =>
      framed signMintAuthorization_respects
  | |- respects _ (Blockchain.signBurnAuthorization _ _ _ _ _ _) =>
      framed signBurnAuthorization_respects
  | |- respects _ (Blockchain.signPermit _ _ _ _ _ _) => framed signPermit_respects
  | |- respects _ (Blockchain.parseAmount _ _) => framed parseAmount_respects
  | |- respects _ (Blockchain.newWallet _) => framed newWallet_respects
  | |- respects _ (Blockchain.getAdminWallet _) => framed getAdminWallet_respects
  | |- respects _ Routes.one_hour_from_now => framed one_hour_from_now_respects
  | |- respects _ (Blockchain.getMintNonce _ _ _) => framed getMintNonce_respects
  | |- respects _ (Blockchain.getBurnNonce _ _ _) => framed getBurnNonce_respects
  | |- respects _ (Blockchain.getPermitNonce _ _ _) => framed getPermitNonce_respects
  | |- respects _ (Blockchain.getTokenContractReadonly _ _) =>
      framed getTokenContractReadonly_respects
  | |- respects _ (Blockchain.getTokenContract _ _) =>
      framed getTokenContract_respects
  | |- respects _ (Blockchain.address_or_default _ _) =>
      framed address_or_default_respects
  | |- respects _ (Blockchain.getProvider _) => framed getProvider_respects
  end.

Lemma run_unchanged {W R A} (m : M W R A) w r w' :
  respects unchanged m -> m w = (r, w') -> w' = w.
Proof. intros Hm H. exact (Hm _ _ _ H). Qed.

(** The world after a read in [H] is the world before. *)
Ltac reads H :=
  match type of H with
  | ?m ?w = (?r, ?w') =>
      let U := fresh "U" in
      assert (U : w' = w)
        by (apply (@run_unchanged _ _ _ m w r w');
            [ first [gateway_leaf | step_frames] | exact H ]);
      subst w'
  end.

(** ** The hash invariant of the transaction table *)
Section HashInvariant.
Import Storage Blockchain Routes.

Lemma createTransaction_invariant ins d :
  (it_status ins = completed -> it_txHash ins <> None) ->
  hash_invariant d -> hash_invariant (snd (createTransaction ins d)).
Proof.
  intros Hins Hd t Hin. cbn in Hin. apply in_app_or in Hin.
  destruct Hin as [Hin | [<- | []]]; [now apply Hd | exact Hins].
Qed.

Lemma updateTransactionStatus_invariant i st h d :
  hash_invariant d ->
  hash_invariant (snd (updateTransactionStatus i st (Some h) d)).
Proof.
  intros Hd t Hin. cbn in Hin. apply in_map_iff in Hin.
  destruct Hin as (t0 & <- & Hin).
  destruct (N.eqb (t_id t0) i); [cbn; discriminate | now apply Hd].
Qed.

Lemma updateUserBalance_invariant i a d :
  hash_invariant d -> hash_invariant (snd (updateUserBalance i a d)).
Proof. intros Hd t Hin. now apply Hd. Qed.

Context {W : Type} {CH : Chain W} {L : Library} {C : KeyVault.NodeCrypto}.
Variable env : Env.

Lemma submit_keeps_invariant t c :
  respects keeps_invariant (submit (W := W) t c).
Proof.
  intros w r w' H. unfold submit in H.
  destruct (send (ext w) t c) as [o e'].
  apply (respects_lift (P := keeps_invariant)) in H. exact H.
Qed.

Lemma emit_keeps_invariant {R} e :
  respects keeps_invariant (emit (W := W) (R := R) e).
Proof. intros w r w' H. injection H as _ <-. now intros Hd. Qed.

Lemma update_keeps_invariant {R A} (f : Store -> A * Store) :
  (forall d, hash_invariant d -> hash_invariant (snd (f d))) ->
  respects keeps_invariant (update (W := W) (R := R) f).
Proof.
  intros Hf w r w' H. unfold update in H.
  specialize (Hf (db w)). destruct (f (db w)) as [a d].
  injection H as _ <-. exact Hf.
Qed.

(** The steps of a handler that touch the store, the notifications or the
    chain. *)
Ltac invariant_leaf :=
  lazymatch goal with
  | |- respects _ (emit _) => apply emit_keeps_invariant
  | |- respects _ (Blockchain.submit _ _) => apply submit_keeps_invariant
  | |- respects _ (update _) =>
      apply update_keeps_invariant; intros ? ?;
      first [ apply createTransaction_invariant;
              [cbn; first [discriminate | intros _; discriminate] | assumption]
            | apply updateTransactionStatus_invariant; assumption
            | apply updateUserBalance_invariant; assumption ]
  | |- respects _ (mintWithSignature _ _ _ _ _ _ _ _ _) =>
      framed mintWithSignature_respects; intros; apply submit_keeps_invariant
  | |- respects _ (burnWithSignature _ _ _ _ _ _ _ _ _) =>
      framed burnWithSignature_respects; intros; apply submit_keeps_invariant
  | |- respects _ (permitTransfer _ _ _ _ _ _ _ _ _ _) =>
      framed permitTransfer_respects; intros; apply submit_keeps_invariant
  end.

Ltac invariant_frames :=
  repeat first [ gateway_leaf | invariant_leaf | step_frames ].

Lemma distribute_keeps_invariant session body (w : World W) :
  keeps_invariant w (snd (distribute env session body w)).
Proof.
  revert w. apply (respects_requireAuth (P := keeps_invariant)). intros u.
  apply respects_handle. unfold distribute_item, emitTransactionUpdate,
    emitTransactionToCommunity, emitBalanceUpdate.
  invariant_frames.
Qed.

Lemma burn_keeps_invariant session amount description target (w : World W) :
  keeps_invariant w (snd (burn env session amount description target w)).
Proof.
  revert w. apply (respects_requireAuth (P := keeps_invariant)). intros u.
  apply respects_handle. unfold emitTransactionUpdate,
    emitTransactionToCommunity, emitBalanceUpdate.
  invariant_frames.
Qed.

Lemma burnAll_keeps_invariant session (w : World W) :
  keeps_invariant w (snd (burnAll env session w)).
Proof.
  revert w. apply (respects_requireAuth (P := keeps_invariant)). intros u.
  apply respects_handle. unfold burnAll_item, emitTransactionUpdate,
    emitTransactionToCommunity, emitBalanceUpdate.
  invariant_frames.
Qed.

Lemma transfer_keeps_invariant session recipient amount note (w : World W) :
  keeps_invariant w (snd (transfer env session recipient amount note w)).
Proof.
  revert w. apply (respects_requireAuth (P := keeps_invariant)). intros u.
  apply respects_handle. unfold emitTransactionUpdate,
    emitTransactionToCommunity, emitBalanceUpdate.
  invariant_frames.
Qed.

Lemma purchase_keeps_invariant session productId (w : World W) :
  keeps_invariant w (snd (purchase env session productId w)).
Proof.
  revert w. apply (respects_requireAuth (P := keeps_invariant)). intros u.
  apply respects_handle. unfold emitTransactionUpdate,
    emitTransactionToCommunity, emitBalanceUpdate.
  invariant_frames.
Qed.

(** C2, as amended.  Starting from a store that satisfies it, the invariant
    holds in every world reached through the five settlement requests
    (distribute, burn, burn-all, transfer, purchase): each completed
    transaction carries a chain transaction hash. *)
Theorem settlement_requests_keep_hash_invariant (w0 w : World W) :
  hash_invariant (db w0) ->
  reachable env w0 w ->
  hash_invariant (db w).
Proof.
  intros H0 Hreach. induction Hreach as [|q w Hreach IH|e w Hreach IH].
  - exact H0.
  - destruct q; cbn [serve].
    + now apply distribute_keeps_invariant.
    + now apply burn_keeps_invariant.
    + now apply burnAll_keeps_invariant.
    + now apply transfer_keeps_invariant.
    + now apply purchase_keeps_invariant.
  - exact IH.
Qed.

End HashInvariant.


(** ** Running a computation step by step *)

Lemma bind_Val {W R A B} (m : M W R A) (k : A -> M W R B) w b w' :
  bind m k w = (Val b, w') ->
  exists a w1, m w = (Val a, w1) /\ k a w1 = (Val b, w').
Proof.
  unfold bind. destruct (m w) as [[a|e|r] w1]; intros H;
    try discriminate; eauto.
Qed.

Lemma view_Val {W R A} (f : W -> Outcome A) (w : World W) a w' :
  view (R := R) f w = (Val a, w') -> f (ext w) = Ok a /\ w' = w.
Proof.
  unfold view. destruct (f (ext w)); cbn; intros H;
    [injection H as <- <-; auto | discriminate].
Qed.

Lemma lift_Val {W R A} (o : Outcome A) (w : World W) a w' :
  lift (R := R) o w = (Val a, w') -> o = Ok a /\ w' = w.
Proof.
  destruct o; cbn; intros H; [injection H as <- <-; auto | discriminate].
Qed.

Lemma ret_Val {W R A} (x : A) (w : World W) a w' :
  ret (R := R) x w = (Val a, w') -> a = x /\ w' = w.
Proof. intros H. injection H as <- <-. auto. Qed.

(** Split the leading bind of a successful run. *)
Ltac run_bind H :=
  let a := fresh "a" in
  let w1 := fresh "w" in
  let E := fresh "E" in
  apply bind_Val in H; destruct H as (a & w1 & E & H).

(** ** The signer reads the nonce and reserves nothing *)
Section Signer.
Import Blockchain.
Context {W : Type} {CH : Chain W} {L : Library}.
Variable env : Env.

Lemma getMintNonce_reads signer tok (w : World W) n w' :
  getMintNonce env signer tok w = (Val n, w') ->
  w' = w
  /\ exists token,
       getTokenContractReadonly env tok w = (Val token, w)
       /\ read_mintNonces (ext w) token signer = Ok n.
Proof.
  intros H. pose proof H as H'. reads H'.
  split; [reflexivity|].
  unfold getMintNonce in H. run_bind H. reads E.
  apply view_Val in H. destruct H as [H _]. eauto.
Qed.

Lemma getBurnNonce_reads signer tok (w : World W) n w' :
  getBurnNonce env signer tok w = (Val n, w') ->
  w' = w
  /\ exists token,
       getTokenContractReadonly env tok w = (Val token, w)
       /\ read_burnNonces (ext w) token signer = Ok n.
Proof.
  intros H. pose proof H as H'. reads H'.
  split; [reflexivity|].
  unfold getBurnNonce in H. run_bind H. reads E.
  apply view_Val in H. destruct H as [H _]. eauto.
Qed.

Lemma signMintAuthorization_nonce wallet to amountWei deadline tok
      (w : World W) auth w' :
  signMintAuthorization env wallet to amountWei deadline tok w
  = (Val auth, w') ->
  w' = w
  /\ exists token n,
       getTokenContractReadonly env tok w = (Val token, w)
       /\ read_mintNonces (ext w) token (ew_address wallet) = Ok n
       /\ a_nonce auth = N_toString n.
Proof.
  intros H. pose proof H as H'. reads H'.
  split; [reflexivity|].
  unfold signMintAuthorization in H.
  run_bind H. reads E.
  run_bind H. reads E0.
  run_bind H. apply getMintNonce_reads in E1.
  destruct E1 as (-> & token & Htok & Hn).
  run_bind H. apply lift_Val in E1. destruct E1 as [_ ->].
  apply ret_Val in H. destruct H as [-> _].
  exists token, a1. auto.
Qed.

Lemma signBurnAuthorization_nonce wallet from amountWei deadline tok
      (w : World W) auth w' :
  signBurnAuthorization env wallet from amountWei deadline tok w
  = (Val auth, w') ->
  w' = w
  /\ exists token n,
       getTokenContractReadonly env tok w = (Val token, w)
       /\ read_burnNonces (ext w) token (ew_address wallet) = Ok n
       /\ a_nonce auth = N_toString n.
Proof.
  intros H. pose proof H as H'. reads H'.
  split; [reflexivity|].
  unfold signBurnAuthorization in H.
  run_bind H. reads E.
  run_bind H. apply getBurnNonce_reads in E0.
  destruct E0 as (-> & token & Htok & Hn).
  run_bind H. apply lift_Val in E0. destruct E0 as [_ ->].
  apply ret_Val in H. destruct H as [-> _].
  exists token, a0. auto.
Qed.

(** C8. Signing only reads: the world after [signMintAuthorization] or
    [signBurnAuthorization] is the world before, the nonce of the returned
    authorization is the contract's counter for that signer and nonce type
    as read at that moment, and two sign requests for the same signer and
    nonce type run against the same chain state return the same nonce. *)
Theorem signing_reads_nonce_without_reserving
        (wallet : EWallet) (tok : option address) (w : World W) :
  (forall to amountWei deadline auth w',
      signMintAuthorization env wallet to amountWei deadline tok w
      = (Val auth, w') ->
      w' = w
      /\ exists token n,
           getTokenContractReadonly env tok w = (Val token, w)
           /\ read_mintNonces (ext w) token (ew_address wallet) = Ok n
           /\ a_nonce auth = N_toString n)
  /\ (forall from amountWei deadline auth w',
      signBurnAuthorization env wallet from amountWei deadline tok w
      = (Val auth, w') ->
      w' = w
      /\ exists token n,
           getTokenContractReadonly env tok w = (Val token, w)
           /\ read_burnNonces (ext w) token (ew_address wallet) = Ok n
           /\ a_nonce auth = N_toString n)
  /\ (forall to1 amount1 deadline1 to2 amount2 deadline2 auth1 w1 auth2 w2,
      signMintAuthorization env wallet to1 amount1 deadline1 tok w
      = (Val auth1, w1) ->
      signMintAuthorization env wallet to2 amount2 deadline2 tok w
      = (Val auth2, w2) ->
      a_nonce auth1 = a_nonce auth2)
  /\ (forall from1 amount1 deadline1 from2 amount2 deadline2 auth1 w1 auth2 w2,
      signBurnAuthorization env wallet from1 amount1 deadline1 tok w
      = (Val auth1, w1) ->
      signBurnAuthorization env wallet from2 amount2 deadline2 tok w
      = (Val auth2, w2) ->
      a_nonce auth1 = a_nonce auth2).
Proof.
  split; [intros; now apply signMintAuthorization_nonce with (to := to)
                    (amountWei := amountWei) (deadline := deadline)|].
  split; [intros; now apply signBurnAuthorization_nonce with (from := from)
                    (amountWei := amountWei) (deadline := deadline)|].
  split.
  - intros to1 amount1 deadline1 to2 amount2 deadline2 auth1 w1 auth2 w2 H1 H2.
    apply signMintAuthorization_nonce in H1, H2.
    destruct H1 as (_ & t1 & n1 & Ht1 & Hn1 & ->).
    destruct H2 as (_ & t2 & n2 & Ht2 & Hn2 & ->).
    congruence.
  - intros f1 amount1 deadline1 f2 amount2 deadline2 auth1 w1 auth2 w2 H1 H2.
    apply signBurnAuthorization_nonce in H1, H2.
    destruct H1 as (_ & t1 & n1 & Ht1 & Hn1 & ->).
    destruct H2 as (_ & t2 & n2 & Ht2 & Hn2 & ->).
    congruence.
Qed.

End Signer.

(** ** Deadline validation of the signature endpoints *)
Section Deadline.
Import Blockchain Routes.
Context {W : Type} {CH : Chain W} {L : Library} {C : KeyVault.NodeCrypto}.
Variable env : Env.

Lemma with_sig_checks_expired {A R'} (b : WithSigBody) k (w : World W) :
  js_le (Number (ws_deadline b)) (Date_now (ext w) / 1000) = true ->
  exists error,
    with_sig_checks (A := A) (R' := R') b k w
    = (Ret (reply_error 400 error), w).
Proof.
  intros Hexp. unfold with_sig_checks, bind, reject_if, require, leave, ret, peek.
  destruct (missing_parameters b); [eauto|].
  destruct (ws_signer b); [|eauto].
  destruct (ws_account b); [|eauto].
  destruct (ws_amount b); [|eauto].
  destruct (ws_v b); [|eauto].
  destruct (ws_r b); [|eauto].
  destruct (ws_s b); [|eauto].
  cbn. rewrite Hexp. eauto.
Qed.

(** C9. A mint-with-signature or burn-with-signature request whose deadline
    is not later than the current time is answered by a validation error
    (400, or 401 without a session) and leaves the world as it was: nothing
    is submitted to the chain. *)
Theorem expired_deadline_is_rejected_before_submission
        (session : option id) (b : WithSigBody) (w : World W) :
  js_le (Number (ws_deadline b)) (Date_now (ext w) / 1000) = true ->
  (exists status error,
      mintWithSig env session b w = (reply_error status error, w)
      /\ (status = 400 \/ status = 401))
  /\ (exists status error,
      burnWithSig env session b w = (reply_error status error, w)
      /\ (status = 400 \/ status = 401))
  /\ calls (snd (mintWithSig env session b w)) = calls w
  /\ calls (snd (burnWithSig env session b w)) = calls w.
Proof.
  intros Hexp.
  assert (Hm : exists status error,
             mintWithSig env session b w = (reply_error status error, w)
             /\ (status = 400 \/ status = 401)).
  { destruct session as [u|]; cbn; [|eauto 6].
    unfold handle.
    match goal with
    | |- context [with_sig_checks b ?k w] =>
        destruct (with_sig_checks_expired b k w Hexp) as [error ->]
    end.
    eauto 6. }
  assert (Hb : exists status error,
             burnWithSig env session b w = (reply_error status error, w)
             /\ (status = 400 \/ status = 401)).
  { destruct session as [u|]; cbn; [|eauto 6].
    unfold handle.
    match goal with
    | |- context [with_sig_checks b ?k w] =>
        destruct (with_sig_checks_expired b k w Hexp) as [error ->]
    end.
    eauto 6. }
  split; [exact Hm|]. split; [exact Hb|].
  destruct Hm as (? & ? & -> & _). destruct Hb as (? & ? & -> & _).
  split; reflexivity.
Qed.

End Deadline.

(** ** Submissions *)
Section Submissions.
Import Blockchain.
Context {W : Type} {CH : Chain W} {L : Library}.
Variable env : Env.

Lemma submit_Val token c (w : World W) rc w' :
  submit token c w = (Val rc, w') ->
  exists e',
    send (ext w) token c = (Ok rc, e')
    /\ w' = mkWorld (db w) e' (calls w ++ [(token, c)])%list (emitted w).
Proof.
  unfold submit. destruct (send (ext w) token c) as [[rc'|e] e'] eqn:E;
    cbn; intros H.
  - injection H as <- <-. eauto.
  - discriminate.
Qed.

Lemma submit_same_db token c : respects same_db (submit (W := W) token c).
Proof.
  intros w r w' H. unfold submit in H.
  destruct (send (ext w) token c) as [o e'].
  destruct o; cbn in H; injection H as _ <-;
    (split; [reflexivity|split; [reflexivity|eexists; reflexivity]]).
Qed.

Lemma mintWithSignature_same_db sg to a d v r s t :
  respects same_db (mintWithSignature (W := W) env sg to a d v r s t).
Proof. framed mintWithSignature_respects. apply submit_same_db. Qed.

Lemma burnWithSignature_same_db sg from a d v r s t :
  respects same_db (burnWithSignature (W := W) env sg from a d v r s t).
Proof. framed burnWithSignature_respects. apply submit_same_db. Qed.

Lemma permitTransfer_same_db o sp val d v r s rcp t :
  respects same_db (permitTransfer (W := W) env o sp val d v r s rcp t).
Proof. framed permitTransfer_respects. apply submit_same_db. Qed.

End Submissions.

(** ** Postconditions of handler steps *)
Section Post.
Context {W : Type}.

Lemma post_ret {R A} (a : A) (w : World W) Q :
  Q (Val a) w -> post (ret (R := R) a) w Q.
Proof. intros H r w' E. injection E as <- <-. exact H. Qed.

Lemma post_conseq {R A} (m : M W R A) (w : World W) (Q Q' : Res R A -> World W -> Prop) :
  post m w Q -> (forall r w', Q r w' -> Q' r w') -> post m w Q'.
Proof. intros H HQ r w' E. apply HQ, H, E. Qed.


Lemma post_bind {R A B} (m : M W R A) (k : A -> M W R B) (w : World W) Q :
  post m w (fun r w1 =>
              match r with
              | Val a => post (k a) w1 Q
              | Exc e => Q (Exc e) w1
              | Ret x => Q (Ret x) w1
              end) ->
  post (bind m k) w Q.
Proof.
  intros H r w' E. unfold bind in E.
  destruct (m w) as [[a|e|x] w1] eqn:Em; specialize (H _ _ Em); cbn in H.
  - now apply H.
  - injection E as <- <-. exact H.
  - injection E as <- <-. exact H.
Qed.

Lemma post_bind_query {R A B} (f : Store -> A) (k : A -> M W R B) w Q :
  post (k (f (db w))) w Q -> post (bind (query f) k) w Q.
Proof. intros H. apply post_bind. intros r w' E. injection E as <- <-. exact H. Qed.

Lemma post_bind_peek {R A B} (f : W -> A) (k : A -> M W R B) w Q :
  post (k (f (ext w))) w Q -> post (bind (peek f) k) w Q.
Proof. intros H. apply post_bind. intros r w' E. injection E as <- <-. exact H. Qed.

Lemma post_bind_require {R A B} (o : option A) (x : R) (k : A -> M W R B) w Q :
  (forall a, o = Some a -> post (k a) w Q) ->
  (o = None -> Q (Ret x) w) ->
  post (bind (Routes.require o x) k) w Q.
Proof.
  intros Hs Hn. apply post_bind. intros r w' E.
  destruct o; cbn in E; injection E as <- <-; auto.
Qed.

Lemma post_bind_reject_if {R B} (c : bool) (x : R) (k : unit -> M W R B) w Q :
  (c = false -> post (k tt) w Q) ->
  (c = true -> Q (Ret x) w) ->
  post (bind (Routes.reject_if c x) k) w Q.
Proof.
  intros Hf Ht. apply post_bind. intros r w' E.
  destruct c; cbn in E; injection E as <- <-; auto.
Qed.

Lemma post_bind_lift {R A B} (o : Outcome A) (k : A -> M W R B) w Q :
  (forall a, o = Ok a -> post (k a) w Q) ->
  (forall e, o = Throw e -> Q (Exc e) w) ->
  post (bind (lift o) k) w Q.
Proof.
  intros Hs Hn. apply post_bind. intros r w' E.
  destruct o; cbn in E; injection E as <- <-; auto.
Qed.

Lemma post_bind_update {R A B} (f : Store -> A * Store) (k : A -> M W R B) w Q :
  post (k (fst (f (db w)))) (stored w (snd (f (db w)))) Q ->
  post (bind (update f) k) w Q.
Proof.
  intros H. apply post_bind. intros r w' E. unfold update in E.
  destruct (f (db w)) as [a d]. injection E as <- <-. exact H.
Qed.

Lemma post_bind_emits {R B} (m : M W R unit) (k : unit -> M W R B) w Q :
  emits_only m ->
  (forall es, post (k tt) (notified w es) Q) ->
  post (bind m k) w Q.
Proof.
  intros Hm H. apply post_bind. intros r w' E.
  destruct (Hm w) as [es Hes]. rewrite Hes in E. injection E as <- <-. apply H.
Qed.

Lemma post_bind_call_read {R A B} (g : M W Empty_set A) (k : A -> M W R B) w Q :
  respects unchanged g ->
  (forall a, g w = (Val a, w) -> post (k a) w Q) ->
  (forall e, g w = (Exc e, w) -> Q (Exc e) w) ->
  post (bind (call g) k) w Q.
Proof.
  intros Hg Hs He. apply post_bind. intros r w' E. unfold call in E.
  destruct (g w) as [[a|e|[]] w1] eqn:Eg;
    pose proof (Hg _ _ _ Eg) as U; unfold unchanged in U; subst w1;
    injection E as <- <-; auto.
Qed.

Lemma post_bind_call {R A B} (g : M W Empty_set A) (k : A -> M W R B) w Q :
  respects same_db g ->
  (forall a w1, g w = (Val a, w1) -> same_db w w1 -> post (k a) w1 Q) ->
  (forall e w1, g w = (Exc e, w1) -> same_db w w1 -> Q (Exc e) w1) ->
  post (bind (call g) k) w Q.
Proof.
  intros Hg Hs He. apply post_bind. intros r w' E. unfold call in E.
  destruct (g w) as [[a|e|[]] w1] eqn:Eg;
    pose proof (Hg _ _ _ Eg) as U; injection E as <- <-; auto.
Qed.

Lemma post_try_catch {R A} (m : M W R A) (h : JsError -> M W R A) w Q :
  post m w (fun r w1 =>
              match r with
              | Exc e => post (h e) w1 Q
              | other => Q other w1
              end) ->
  post (try_catch m h) w Q.
Proof.
  intros H r w' E. unfold try_catch in E.
  destruct (m w) as [[a|e|x] w1] eqn:Em; specialize (H _ _ Em); cbn in H.
  - injection E as <- <-. exact H.
  - now apply H.
  - injection E as <- <-. exact H.
Qed.

Lemma post_block {R A} (m : M W A A) w (Q : Res R A -> World W -> Prop) :
  post m w (fun r w1 =>
              match r with
              | Val a => Q (Val a) w1
              | Ret a => Q (Val a) w1
              | Exc e => Q (Exc e) w1
              end) ->
  post (block m) w Q.
Proof.
  intros H r w' E. unfold block in E.
  destruct (m w) as [[a|e|x] w1] eqn:Em; specialize (H _ _ Em); cbn in H;
    injection E as <- <-; exact H.
Qed.

Lemma post_handle {A} (m : M W (Routes.Resp A) (Routes.Resp A)) onError w
      (Q : Routes.Resp A -> World W -> Prop) :
  post m w (fun r w1 =>
              match r with
              | Val x => Q x w1
              | Ret x => Q x w1
              | Exc e => Q (onError e) w1
              end) ->
  forall resp w', Routes.handle m onError w = (resp, w') -> Q resp w'.
Proof.
  intros H resp w' E. unfold Routes.handle in E.
  destruct (m w) as [[a|e|x] w1] eqn:Em; specialize (H _ _ Em); cbn in H;
    injection E as <- <-; exact H.
Qed.

(** *** Notifications *)

Lemma emits_only_emit {R} e : emits_only (emit (W := W) (R := R) e).
Proof. intros w. exists [e]. reflexivity. Qed.

Lemma emits_only_ifCommunity {R} c (m : id -> M W R unit) :
  (forall x, emits_only (m x)) -> emits_only (Routes.ifCommunity c m).
Proof.
  intros H. destruct c; cbn; [apply H|].
  intros w. exists []. unfold notified. rewrite app_nil_r. now destruct w.
Qed.

Lemma emits_only_emitBalanceUpdate {R} u :
  emits_only (Routes.emitBalanceUpdate (W := W) (R := R) u).
Proof. intros w. eexists [_]. reflexivity. Qed.

End Post.

Lemma notified_notified {W} (w : World W) es1 es2 :
  notified (notified w es1) es2 = notified w (es1 ++ es2)%list.
Proof. unfold notified. cbn. now rewrite app_assoc. Qed.

(** One step of a handler: split the leading bind according to what it
    binds. *)
Ltac wp_emits :=
  first [ apply emits_only_emit
        | apply emits_only_emitBalanceUpdate
        | apply emits_only_ifCommunity; intro; apply emits_only_emit ].

Ltac wp_step :=
  lazymatch goal with
  | |- post (bind (query _) _) _ _ => apply post_bind_query
  | |- post (bind (peek _) _) _ _ => apply post_bind_peek
  | |- post (bind (Routes.require _ _) _) _ _ =>
      apply post_bind_require; [intros ? ?|intros ?]
  | |- post (bind (Routes.reject_if _ _) _) _ _ =>
      apply post_bind_reject_if; intros ?
  | |- post (bind (lift _) _) _ _ =>
      apply post_bind_lift; [intros ? ?|intros ? ?]
  | |- post (bind (update _) _) _ _ => apply post_bind_update
  | |- post (bind (emit _) _) _ _ =>
      apply post_bind_emits; [wp_emits | intros ?]
  | |- post (bind (Routes.emitTransactionUpdate _ _ _ _ _) _) _ _ =>
      apply post_bind_emits; [wp_emits | intros ?]
  | |- post (bind (Routes.emitTransactionToCommunity _ _ _ _ _) _) _ _ =>
      apply post_bind_emits; [wp_emits | intros ?]
  | |- post (bind (Routes.emitBalanceUpdate _) _) _ _ =>
      apply post_bind_emits; [wp_emits | intros ?]
  | |- post (bind (Routes.ifCommunity _ _) _) _ _ =>
      apply post_bind_emits; [wp_emits | intros ?]
  | |- post (bind Routes.one_hour_from_now _) _ _ =>
      unfold Routes.one_hour_from_now at 1; apply post_bind;
      apply post_bind_peek; apply post_ret
  | |- post (bind (call (Blockchain.mintWithSignature _ _ _ _ _ _ _ _ _)) _) _ _ =>
      apply post_bind_call;
      [apply mintWithSignature_same_db | intros ? ? ? ? | intros ? ? ? ?]
  | |- post (bind (call (Blockchain.burnWithSignature _ _ _ _ _ _ _ _ _)) _) _ _ =>
      apply post_bind_call;
      [apply burnWithSignature_same_db | intros ? ? ? ? | intros ? ? ? ?]
  | |- post (bind (call (Blockchain.permitTransfer _ _ _ _ _ _ _ _ _ _)) _) _ _ =>
      apply post_bind_call;
      [apply permitTransfer_same_db | intros ? ? ? ? | intros ? ? ? ?]
  | |- post (bind (call _) _) _ _ =>
      apply post_bind_call_read; [gateway_leaf | intros ? ? | intros ? ?]
  | |- post (let _ := _ in _) _ _ => cbv zeta
  | |- post (ret _) _ _ => apply post_ret
  end.

(** ** Facts about the store *)
Section StorageFacts.
Import Storage.

Lemma find_map_id {A} (key : A -> id) (f : A -> A) i (l : list A) :
  (forall x, key (f x) = key x) ->
  find (fun x => N.eqb (key x) i) (map f l)
  = option_map f (find (fun x => N.eqb (key x) i) l).
Proof.
  intros Hk. induction l as [|x l IH]; cbn; [reflexivity|].
  rewrite Hk. destruct (N.eqb (key x) i); [reflexivity | exact IH].
Qed.


Lemma getUserByEmail_In e d u :
  getUserByEmail e d = Some u -> In u (users d) /\ u_email u = e.
Proof.
  intros H. apply find_some in H. destruct H as [Hin Heq].
  now apply String.eqb_eq in Heq.
Qed.


Lemma emails_updateUserBalance i a d :
  map u_email (users (snd (updateUserBalance i a d))) = map u_email (users d).
Proof.
  cbn. rewrite map_map. apply map_ext. intros u.
  now destruct (N.eqb (u_id u) i).
Qed.

Lemma getUserByEmail_None e d :
  getUserByEmail e d = None <-> ~ In e (map u_email (users d)).
Proof.
  unfold getUserByEmail. split.
  - intros H Hin. apply in_map_iff in Hin. destruct Hin as (u & <- & Hin).
    apply (find_none _ _ H) in Hin. now rewrite String.eqb_refl in Hin.
  - intros H. destruct (find _ _) as [u|] eqn:E; [|reflexivity].
    exfalso. apply H. apply find_some in E. destruct E as [Hin Heq].
    apply String.eqb_eq in Heq. subst e. now apply in_map.
Qed.

End StorageFacts.

Ltac open_same_db :=
  repeat match goal with
  | H : same_db _ _ |- _ =>
      let Hd := fresh "Hdb" in
      let He := fresh "Hem" in
      let Hc := fresh "Hcalls" in
      destruct H as (Hd & He & ? & Hc)
  end.

(** ** Distribution *)
Section Distribute.
Import Storage Blockchain Routes.
Context {W : Type} {CH : Chain W} {L : Library} {C : KeyVault.NodeCrypto}.
Variable env : Env.

(** One recipient of a batch: the item always ends by extending one of the
    two lists, never by throwing out of the loop. *)
Lemma distribute_item_post R user tok sw results errors d (w : World W) :
  post (block (R := R) (distribute_item env user tok sw (results, errors) d)) w
    (fun r w' =>
       map u_email (users (db w')) = map u_email (users (db w))
       /\ ((exists e, r = Val (results, (errors ++ [e])%list)
                  /\ de_email e = dist_email d
                  /\ users (db w') = users (db w)
                  /\ (getUserByEmail (dist_email d) (db w) = None ->
                      e = mkDistError (dist_email d) "Utente non trovato"
                      /\ w' = w))
       \/ (exists target h,
             r = Val ((results ++ [mkDistributed (dist_email d) (dist_amount d)
                                     (u_name target) h])%list, errors)
             /\ getUserByEmail (dist_email d) (db w) = Some target
             /\ db w' = distribute_store user target d h (db w)))).
Proof.
  assert (Hfail : forall (w1 : World W) msg,
             users (db w1) = users (db w) ->
             (getUserByEmail (dist_email d) (db w) = None ->
              msg = "Utente non trovato" /\ w1 = w) ->
             map u_email (users (db w1)) = map u_email (users (db w))
             /\ ((exists e, Val (R := R) (results, (errors ++ [mkDistError (dist_email d) msg])%list)
                            = Val (results, (errors ++ [e])%list)
                  /\ de_email e = dist_email d
                  /\ users (db w1) = users (db w)
                  /\ (getUserByEmail (dist_email d) (db w) = None ->
                      e = mkDistError (dist_email d) "Utente non trovato"
                      /\ w1 = w))
                 \/ (exists target h,
                       Val (R := R) (results, (errors ++ [mkDistError (dist_email d) msg])%list)
                       = Val ((results ++ [mkDistributed (dist_email d) (dist_amount d)
                                     (u_name target) h])%list, errors)
             /\ getUserByEmail (dist_email d) (db w) = Some target
             /\ db w1 = distribute_store user target d h (db w)))).
  { intros w1 msg Hu Hn. split; [now rewrite Hu|]. left. eexists.
    split; [reflexivity|]. split; [reflexivity|]. split; [exact Hu|].
    intros Hnone. destruct (Hn Hnone) as [-> ->]. auto. }
  apply post_block. unfold distribute_item.
  wp_step. wp_step.
  2:{ cbn. apply Hfail; auto. }
  wp_step.
  2:{ cbn. apply Hfail; [auto | congruence]. }
  apply post_try_catch.
  wp_step. wp_step. wp_step.
  wp_step.
  2:{ cbn. apply post_ret. apply Hfail; [auto | congruence]. }
  wp_step.
  2:{ cbn. apply post_ret. apply Hfail; [auto | congruence]. }
  wp_step. 
  wp_step.
  2:{ cbn. apply post_ret. apply Hfail; [auto | congruence]. }
  wp_step.
  2:{ cbn. apply post_ret. open_same_db. apply Hfail; [now rewrite Hdb | congruence]. }
  repeat wp_step.
  open_same_db.
  split.
  - cbn. rewrite Hdb. cbn. rewrite map_map. apply map_ext.
    intros u. now destruct (N.eqb (u_id u) _).
  - right.
    match goal with
    | Ht : getUserByEmail _ _ = Some ?t |- context [mr_tx ?m] =>
        exists t, (mr_tx m)
    end.
    split; [reflexivity|]. split; [assumption|].
    cbn. rewrite Hdb. reflexivity.
Qed.


(** The loop over the batch: every item is processed, each lands in
    exactly one of the two lists, and a recipient that does not exist is
    reported as such. *)
Lemma distribute_loop_post R user tok sw ds :
  forall results errors (w : World W),
    post (for_of (R := R) (distribute_item env user tok sw) ds (results, errors)) w
      (fun r w' =>
         exists results' errors',
           r = Val ((results ++ results')%list, (errors ++ errors')%list)
           /\ (List.length results' + List.length errors' = List.length ds)%nat
           /\ map u_email (users (db w')) = map u_email (users (db w))
           /\ (forall d, In d ds ->
                 getUserByEmail (dist_email d) (db w) = None ->
                 In (mkDistError (dist_email d) "Utente non trovato") errors')).
Proof.
  induction ds as [|d ds IH]; intros results errors w; cbn [for_of].
  - apply post_ret. exists [], []. rewrite !app_nil_r.
    repeat split; auto; try (intros d []).
  - apply post_bind.
    eapply post_conseq; [apply distribute_item_post|].
    intros r w1 (Hem & [(e & -> & He & Hu & Hn) | (t & h & -> & Ht & Hdb)]).
    + eapply post_conseq; [apply IH|].
      intros r w' (rs & es & -> & Hlen & Hem' & Hnf).
      exists rs, (e :: es). rewrite <- app_assoc.
      split; [reflexivity|]. split; [cbn; lia|]. split; [congruence|].
      intros d0 [<- | Hin] Hnone.
      * destruct (Hn Hnone) as [-> _]. now left.
      * right. apply Hnf; [assumption|].
        apply getUserByEmail_None. rewrite Hem.
        now apply getUserByEmail_None.
    + eapply post_conseq; [apply IH|].
      intros r w' (rs & es & -> & Hlen & Hem' & Hnf).
      eexists (_ :: rs), es. rewrite <- app_assoc.
      split; [reflexivity|]. split; [cbn; lia|]. split; [congruence|].
      intros d0 [<- | Hin] Hnone; [congruence|].
      apply Hnf; [assumption|].
      apply getUserByEmail_None. rewrite Hem.
      now apply getUserByEmail_None.
Qed.

Lemma distribute_loop_returns R user tok sw ds acc (w : World W) :
  exists acc' w',
    for_of (R := R) (distribute_item env user tok sw) ds acc w = (Val acc', w').
Proof.
  destruct acc as [results errors].
  destruct (for_of (R := R) (distribute_item env user tok sw) ds (results, errors) w)
    as [r w'] eqn:E.
  destruct (@distribute_loop_post R user tok sw ds results errors w _ _ E)
    as (rs & es & -> & _). eauto.
Qed.

(** A request answered with the two lists went through the loop; any other
    answer left the world as it was. *)
Lemma distribute_inversion session body (w : World W) resp w' :
  distribute env session body w = (resp, w') ->
  match resp with
  | reply_json b =>
      exists uid user tok sw ds,
        session = Some uid /\ body = Some ds
        /\ getUser uid (db w) = Some user
        /\ for_of (R := Resp DistributeBody) (distribute_item env user tok sw)
                  ds ([], []) w
           = (Val (distributed b, dist_errors b), w')
  | _ => w' = w
  end.
Proof.
  destruct session as [uid|]; cbn [distribute requireAuth].
  2:{ intros H. injection H as <- <-. reflexivity. }
  intros H. pattern resp, w'. eapply post_handle; [|exact H]. clear H.
  do 11 (wp_step; try solve [exact eq_refl | destruct e; exact eq_refl]).
  apply post_bind. intros r w1 E.
  match goal with
  | E : for_of (distribute_item env ?u ?t ?s) ?ds ?acc w = _ |- _ =>
      destruct (@distribute_loop_returns (Resp DistributeBody) u t s ds ([], []) w)
        as (acc' & w2 & E');
      rewrite E' in E; injection E as <- <-;
      apply post_ret; exists uid, u, t, s, ds
  end.
  match goal with
  | Hp : distributeTokensSchema_parse body = Ok _ |- _ =>
      destruct body as [ds|]; [|discriminate];
      cbn in Hp; destruct (forallb _ ds); [|discriminate]; injection Hp as <-
  end.
  destruct acc'. repeat split; auto.
Qed.










End Distribute.

(** ** Peer transfer and marketplace purchase *)
Section SingleItemFlows.
Import Storage Blockchain Routes.
Context {W : Type} {CH : Chain W} {L : Library} {C : KeyVault.NodeCrypto}.
Variable env : Env.

Lemma min_as_if (a b : Z) : (if a <=? b then a else b) = Z.min a b.
Proof. destruct (Z.leb_spec a b); lia. Qed.

Lemma permitTransfer_Val owner spender value deadline v r s recipient tok
      (w : World W) tr w1 :
  permitTransfer env owner spender value deadline v r s recipient tok w
  = (Val tr, w1) ->
  exists token admin rc1 e1 allowance rc2,
    send (ext w) token (call_permit owner spender value deadline v r s)
    = (Ok rc1, e1)
    /\ read_allowance e1 token owner admin = Ok allowance
    /\ allowance <> 0
    /\ send e1 token (call_transferFrom owner recipient (Z.min value allowance))
       = (Ok rc2, ext w1)
    /\ calls w1
       = (calls w ++ [(token, call_permit owner spender value deadline v r s);
                      (token, call_transferFrom owner recipient
                                                (Z.min value allowance))])%list
    /\ db w1 = db w
    /\ pt_sent tr = Z.min value allowance
    /\ pt_transferTx tr = rc_hash rc2.
Proof.
  intros H. unfold permitTransfer in H.
  run_bind H. reads E. run_bind H. reads E0.
  destruct (negb _); [discriminate|].
  run_bind H. apply submit_Val in E1. destruct E1 as (e1 & Hs1 & ->).
  run_bind H. apply view_Val in E1. destruct E1 as [Hal ->]. cbn in Hal.
  destruct (Z.eqb_spec a2 0) as [|Hnz]; [discriminate|].
  run_bind H. apply submit_Val in E1. destruct E1 as (e2 & Hs2 & ->).
  cbn in Hs2.
  run_bind H. apply view_Val in E1. destruct E1 as [_ ->].
  apply ret_Val in H. destruct H as [-> ->].
  rewrite min_as_if in *.
  exists a, (ew_address a0), a1, e1, a2, a3. cbn.
  rewrite <- app_assoc. cbn. repeat split; auto.
Qed.

(** A transfer answered with its receipt ran every step; any other answer
    left the store as it was. *)
Lemma transfer_inversion session rid amount note (w : World W) resp w' :
  transfer env session rid amount note w = (resp, w') ->
  match resp with
  | reply_json b =>
      exists uid ridv amt sender recipient cid tok sw admin cfg amountWei deadline sig tr w1,
        session = Some uid /\ rid = Some ridv /\ amount = Some amt
        /\ getUser uid (db w) = Some sender
        /\ getUser ridv (db w) = Some recipient
        /\ parseUnits amt (cfg_decimals cfg) = Ok amountWei
        /\ permitTransfer env (ew_address sw) (ew_address admin) amountWei
             deadline (ps_v sig) (ps_r sig) (ps_s sig)
             (u_ethAddress recipient) (Some tok) w
           = (Val tr, w1)
        /\ db w' = snd (createTransaction
                          (transfer_insert sender recipient amt note cid (pt_transferTx tr))
                          (snd (updateUserBalance (u_id recipient) amt
                                  (snd (updateUserBalance (u_id sender) (- amt) (db w))))))
        /\ calls w' = calls w1
        /\ b = mkTransferBody amt (pt_transferTx tr) (u_name recipient)
  | _ => db w' = db w
  end.
Proof.
  destruct session as [uid|]; cbn [transfer requireAuth].
  2:{ intros H. injection H as <- <-. reflexivity. }
  intros H. pattern resp, w'. eapply post_handle; [|exact H]. clear H.
  repeat (wp_step; try solve [exact eq_refl | destruct e; exact eq_refl
                              | open_same_db; assumption ]).
  open_same_db.
  do 15 eexists.
  split; [reflexivity|]. split; [eassumption|]. split; [eassumption|].
  split; [eassumption|]. split; [eassumption|].
  split; [match goal with H : parseAmount _ _ _ = _ |- _ =>
            apply lift_Val in H; destruct H as [H _]; exact H end|].
  split; [eassumption|].
  split; [cbn; rewrite Hdb; reflexivity|].
  split; reflexivity.
Qed.

(** A purchase answered with its receipt ran every step; any other answer
    left the store as it was, or as it was with the pending row added. *)
Lemma purchase_inversion session pid (w : World W) resp w' :
  purchase env session pid w = (resp, w') ->
  match resp with
  | reply_json b =>
      exists uid pidv buyer product provider providerWallet cid tok sw admin cfg
             amountWei deadline sig tr w0 w1,
        session = Some uid
        /\ purchaseSchema_parse pid = Ok pidv
        /\ getUser uid (db w) = Some buyer
        /\ getProduct pidv (db w) = Some product
        /\ getUser (p_providerId product) (db w) = Some provider
        /\ parseUnits (p_price product) (cfg_decimals cfg) = Ok amountWei
        /\ ext w0 = ext w /\ calls w0 = calls w
        /\ permitTransfer env (ew_address sw) (ew_address admin) amountWei
             deadline (ps_v sig) (ps_r sig) (ps_s sig)
             (w_address providerWallet) (Some tok) w0
           = (Val tr, w1)
        /\ db w' = purchase_store buyer provider product cid (pt_transferTx tr) (db w)
        /\ calls w' = calls w1
        /\ purchase_txHash b = pt_transferTx tr
  | _ =>
      (db w' = db w /\ calls w' = calls w)
      \/ exists buyer product cid,
           db w' = snd (createTransaction (purchase_insert buyer product cid) (db w))
  end.
Proof.
  destruct session as [uid|]; cbn [purchase requireAuth].
  2:{ intros H. injection H as <- <-. left. split; reflexivity. }
  intros H. pattern resp, w'. eapply post_handle; [|exact H]. clear H.
  repeat (wp_step;
          try solve [ left; split; exact eq_refl
                    | destruct e; left; split; exact eq_refl
                    | try (match goal with
                           | |- context [match ?e with Error _ => _ | ZodError => _ end] =>
                               destruct e
                           end);
                      right; do 3 eexists; open_same_db; cbn;
                      try (match goal with Hd : db _ = _ |- _ => rewrite Hd end);
                      reflexivity ]).
  open_same_db.
  do 17 eexists.
  split; [reflexivity|]. split; [eassumption|]. split; [eassumption|].
  split; [eassumption|]. split; [eassumption|].
  split; [match goal with H : parseAmount _ _ _ = _ |- _ =>
            apply lift_Val in H; destruct H as [H _]; exact H end|].
  split; [|split; [|split; [eassumption|]]]; [reflexivity | reflexivity |].
  split; [cbn; rewrite Hdb; reflexivity|].
  split; reflexivity.
Qed.

Lemma getUser_id i d u : getUser i d = Some u -> u_id u = i.
Proof. intros H. apply find_some in H. now apply N.eqb_eq. Qed.





End SingleItemFlows.

(** ** Burning every balance of a community *)
Section Balances.
Import Storage.

Section Keys.
Variables (A K : Type) (key : A -> K) (keep : A -> bool).

(** Rows selected from a table with distinct keys have distinct keys. *)
Lemma keys_of_selection rows :
  NoDup (map key rows) -> NoDup (map key (filter keep rows)).
Proof.
  induction rows as [|x rows IH]; cbn; [trivial|].
  rewrite NoDup_cons_iff. intros [Hx Hrows].
  destruct (keep x); [|auto].
  cbn. apply NoDup_cons; [|auto].
  contradict Hx. apply in_map_iff in Hx. destruct Hx as (y & Hy & Hin).
  apply filter_In in Hin. rewrite <- Hy. apply in_map, Hin.
Qed.

End Keys.

Lemma map_get_None k m :
  map_get k m = None <-> ~ In k (map b_id m).
Proof.
  unfold map_get. split.
  - intros H Hin. apply in_map_iff in Hin. destruct Hin as (b & <- & Hin).
    apply (find_none _ _ H) in Hin. now rewrite N.eqb_refl in Hin.
  - intros H. destruct (find _ _) as [b|] eqn:E; [|reflexivity].
    exfalso. apply H. apply find_some in E. destruct E as [Hin Heq].
    apply N.eqb_eq in Heq. subst k. now apply in_map.
Qed.

Lemma ids_push_missing m p :
  NoDup (map b_id m) -> NoDup (map b_id (push_missing m p)).
Proof.
  intros H. unfold push_missing.
  destruct (map_get (b_id p) m) eqn:E; [exact H|].
  rewrite map_app. cbn. apply NoDup_app; [exact H | | ].
  1: constructor; [intros [] | constructor].
  intros x Hx [<- | []]. revert Hx. now apply map_get_None.
Qed.

Lemma ids_fold_push_missing ps : forall m,
  NoDup (map b_id m) -> NoDup (map b_id (fold_left push_missing ps m)).
Proof.
  induction ps as [|p ps IH]; intros m H; cbn; [exact H|].
  apply IH. now apply ids_push_missing.
Qed.

Lemma ids_getCommunityBalances cid s :
  unique_ids s -> NoDup (map b_id (getCommunityBalances cid s)).
Proof.
  intros H. unfold getCommunityBalances, allBalances.
  apply keys_of_selection. apply ids_fold_push_missing.
  rewrite map_map. cbn. now apply keys_of_selection.
Qed.

Lemma In_fold_push_missing b ps : forall m,
  In b (fold_left push_missing ps m) -> In b m \/ In b ps.
Proof.
  induction ps as [|p ps IH]; intros m H; cbn in *; [now left|].
  apply IH in H. destruct H as [H | H]; [|tauto].
  unfold push_missing in H. destruct (map_get (b_id p) m); [tauto|].
  apply in_app_iff in H. cbn in H. tauto.
Qed.

Section Preserved.
Variable P : BalanceRecord -> Prop.
Hypothesis P_bump : forall d b, P b -> P (bump d b).

Lemma preserved_map_adjust k d m : Forall P m -> Forall P (map_adjust k d m).
Proof.
  induction 1 as [|b m Hb Hm IH]; cbn; [constructor|].
  destruct (N.eqb (b_id b) k); constructor; auto.
Qed.

Lemma preserved_add_sale m p : Forall P m -> P p -> Forall P (add_sale m p).
Proof.
  intros Hm Hp. unfold add_sale. destruct (map_get (b_id p) m).
  - now apply preserved_map_adjust.
  - apply Forall_app. split; [exact Hm|]. now constructor.
Qed.

Lemma preserved_sub_burn m burn : Forall P m -> Forall P (sub_burn m burn).
Proof.
  intros Hm. unfold sub_burn. destruct (fst burn) as [from|]; [|exact Hm].
  destruct (map_get from m); [|exact Hm]. now apply preserved_map_adjust.
Qed.

Lemma preserved_providerBalances cid s :
  Forall P (providersWithSales cid s) -> Forall P (providerBalances cid s).
Proof.
  intros Hp. unfold providerBalances.
  assert (Hs : forall l m, Forall P m -> Forall P l ->
                           Forall P (fold_left add_sale l m)).
  { induction l as [|p l IH]; intros m Hm Hl; cbn; [exact Hm|].
    inversion Hl; subst. apply IH; [|assumption]. now apply preserved_add_sale. }
  assert (Hb : forall l m, Forall P m -> Forall P (fold_left sub_burn l m)).
  { induction l as [|x l IH]; intros m Hm; cbn; [exact Hm|].
    apply IH. now apply preserved_sub_burn. }
  apply Hb, Hs; [constructor | exact Hp].
Qed.

End Preserved.

Lemma sale_of_provider cid s b :
  In b (providersWithSales cid s) ->
  exists p u, In p (products s) /\ In u (users s)
              /\ u_id u = p_providerId p
              /\ b_id b = u_id u /\ b_role b = u_role u.
Proof.
  intros Hb. unfold providersWithSales in Hb.
  apply in_flat_map in Hb. destruct Hb as (t & _ & Hb).
  destruct (_ && _); [|destruct Hb].
  apply in_flat_map in Hb. destruct Hb as (p & Hp & Hb).
  destruct (opt_id_eqb _ _); [|destruct Hb].
  apply in_map_iff in Hb. destruct Hb as (u & <- & Hu).
  apply filter_In in Hu. destruct Hu as [Hu Heq].
  apply N.eqb_eq in Heq. exists p, u. cbn. auto.
Qed.


Lemma accounts_providerBalances cid s :
  Forall (fun b => exists u, In u (users s) /\ u_id u = b_id b
                             /\ u_role u = b_role b)
         (providerBalances cid s).
Proof.
  apply preserved_providerBalances; [auto|].
  apply Forall_forall. intros b Hb.
  apply sale_of_provider in Hb.
  destruct Hb as (p & u & _ & Hu & _ & Hid & Hr). exists u. auto.
Qed.

(** Every holder is listed under the id and the role of an account. *)
Lemma holder_account cid s b :
  In b (getCommunityBalances cid s) ->
  exists u, In u (users s) /\ u_id u = b_id b /\ u_role u = b_role b.
Proof.
  intros Hb. unfold getCommunityBalances in Hb.
  apply filter_In in Hb. destruct Hb as [Hb _].
  apply In_fold_push_missing in Hb. destruct Hb as [Hb | Hb].
  - apply in_map_iff in Hb. destruct Hb as (u & <- & Hu).
    apply filter_In in Hu. exists u. cbn. tauto.
  - pose proof (accounts_providerBalances cid s) as F.
    rewrite Forall_forall in F. now apply F.
Qed.







Lemma getUser_unique s u :
  unique_ids s -> In u (users s) -> getUser (u_id u) s = Some u.
Proof.
  unfold unique_ids, getUser. induction (users s) as [|x l IH]; intros Hnd Hin;
    [destruct Hin|].
  inversion Hnd as [|? ? Hx Hl]; subst. cbn.
  destruct Hin as [-> | Hin]; [now rewrite N.eqb_refl|].
  destruct (N.eqb (u_id x) (u_id u)) eqn:E; [|now apply IH].
  exfalso. apply Hx. apply N.eqb_eq in E. rewrite E. now apply in_map.
Qed.



End Balances.

Section BurnAll.
Import Storage Blockchain Routes.
Context {W : Type} {CH : Chain W} {L : Library} {C : KeyVault.NodeCrypto}.
Variable env : Env.





End BurnAll.

(** ** The storage layer *)
Section StorageLedger.
Import Storage.

Lemma push_missing_keeps b ps : forall m,
  In b m -> In b (fold_left push_missing ps m).
Proof.
  induction ps as [|p ps IH]; intros m H; cbn; [exact H|].
  apply IH. unfold push_missing. destruct (map_get (b_id p) m); [exact H|].
  apply in_or_app. now left.
Qed.

(** X1. The listing of [getCommunityBalances]: only strictly positive balances,
    no account twice, every member of the community that holds tokens under
    its cached balance, and every entry under the id, role and address of an
    account. *)
Theorem getCommunityBalances_lists_each_holder_once cid s :
  (forall b, In b (getCommunityBalances cid s) -> 0 < b_tokenBalance b)
  /\ (unique_ids s -> NoDup (map b_id (getCommunityBalances cid s)))
  /\ (forall u, In u (users s) -> u_communityId u = Some cid ->
                0 < u_tokenBalance u ->
                In (balance_of_user u) (getCommunityBalances cid s))
  /\ (forall b, In b (getCommunityBalances cid s) ->
                exists u, In u (users s) /\ u_id u = b_id b
                          /\ u_role u = b_role b).
Proof.
  split; [|split; [|split]].
  - intros b Hb. apply filter_In in Hb. destruct Hb as [_ Hb].
    now apply Z.ltb_lt.
  - apply ids_getCommunityBalances.
  - intros u Hu Hc Hpos. apply filter_In. split.
    + apply push_missing_keeps. apply in_map. apply filter_In.
      split; [exact Hu|]. rewrite Hc. cbn. apply N.eqb_refl.
    + now apply Z.ltb_lt.
  - intros b. apply holder_account.
Qed.

End StorageLedger.

Section StorageBurnAll.
Import Storage.




End StorageBurnAll.

Section StorageRows.
Import Storage.

Lemma find_absent_map {A} (key : A -> id) (f : A -> A) i (rows : list A) :
  find (fun x => N.eqb (key x) i) rows = None ->
  map (fun x => if N.eqb (key x) i then f x else x) rows = rows.
Proof.
  induction rows as [|x rows IH]; cbn; [reflexivity|].
  destruct (N.eqb (key x) i); [discriminate|].
  intros H. now rewrite IH.
Qed.



Lemma getTransaction_updateTransactionStatus j i st h s :
  getTransaction j (snd (updateTransactionStatus i st h s))
  = option_map (fun t => if N.eqb (t_id t) i then set_status st h t else t)
               (getTransaction j s).
Proof.
  unfold getTransaction. cbn. apply find_map_id.
  intros t. now destruct (N.eqb (t_id t) i).
Qed.

Lemma getTransaction_id i s t : getTransaction i s = Some t -> t_id t = i.
Proof. intros H. apply find_some in H. now apply N.eqb_eq. Qed.


(** X4. [updateTransactionStatus] on a key that is not stored returns no row and
    leaves the store as it was; on a stored key it never erases a hash when
    none is passed, and it keeps every column but the status and the hash. *)
Theorem updateTransactionStatus_unknown_key_and_kept_hash i st s :
  (forall h, getTransaction i s = None ->
             updateTransactionStatus i st h s = (None, s))
  /\ (forall t, getTransaction i s = Some t ->
        exists t',
          fst (updateTransactionStatus i st None s) = Some t'
          /\ getTransaction i (snd (updateTransactionStatus i st None s)) = Some t'
          /\ t_status t' = st
          /\ t_txHash t' = t_txHash t
          /\ t_amount t' = t_amount t /\ t_type t' = t_type t
          /\ t_fromUserId t' = t_fromUserId t /\ t_toUserId t' = t_toUserId t)
  /\ (forall h j, j <> i ->
        getTransaction j (snd (updateTransactionStatus i st h s))
        = getTransaction j s).
Proof.
  split; [|split].
  - intros h Hn. unfold updateTransactionStatus.
    rewrite (@find_absent_map Transaction t_id (set_status st h) i (transactions s) Hn).
    unfold getTransaction in Hn. rewrite Hn. destruct s; reflexivity.
  - intros t Ht. exists (set_status st None t).
    assert (E : getTransaction i (snd (updateTransactionStatus i st None s))
                = Some (set_status st None t)).
    { rewrite getTransaction_updateTransactionStatus, Ht. cbn.
      now rewrite (getTransaction_id _ _ Ht), N.eqb_refl. }
    split; [exact E|]. split; [exact E|]. repeat split.
  - intros h j Hj. rewrite getTransaction_updateTransactionStatus.
    destruct (getTransaction j s) as [y|] eqn:Ey; [|reflexivity].
    cbn. rewrite (getTransaction_id _ _ Ey).
    destruct (N.eqb j i) eqn:E; [|reflexivity].
    apply N.eqb_eq in E. now elim Hj.
Qed.

Lemma total_balance_updateUserBalance i a s u :
  unique_ids s -> getUser i s = Some u ->
  total_balance (snd (updateUserBalance i a s)) = total_balance s + a.
Proof.
  unfold unique_ids, getUser, total_balance. cbn.
  induction (users s) as [|x l IH]; cbn; [discriminate|].
  intros Hnd Hg. inversion Hnd as [|? ? Hx Hl]; subst.
  destruct (N.eqb (u_id x) i) eqn:E.
  - cbn. apply N.eqb_eq in E.
    assert (Hrest : map (fun u0 => if N.eqb (u_id u0) i then add_balance a u0 else u0) l = l).
    { apply (@find_absent_map User u_id (add_balance a) i l).
      destruct (find (fun x0 => N.eqb (u_id x0) i) l) as [y|] eqn:Ey; [|reflexivity].
      exfalso. apply Hx. apply find_some in Ey. destruct Ey as [Hin Hy].
      apply N.eqb_eq in Hy. rewrite E, <- Hy. now apply in_map. }
    rewrite Hrest. lia.
  - rewrite (IH Hl Hg). lia.
Qed.


End StorageRows.

Section Wallets.
Import Storage.

Lemma getDefaultWallet_appended uid s w next :
  getDefaultWallet uid (set_wallets s (wallets s ++ [w])%list next)
  = match getDefaultWallet uid s with
    | Some d => Some d
    | None => if N.eqb (w_userId w) uid && Z.eqb (w_isDefault w) 1
              then Some w else None
    end.
Proof.
  unfold getDefaultWallet. cbn.
  induction (wallets s) as [|x l IH]; cbn; [reflexivity|].
  destruct (N.eqb (w_userId x) uid && Z.eqb (w_isDefault x) 1);
    [reflexivity | exact IH].
Qed.

Lemma createWallet_appends ins s :
  let w := fst (createWallet ins s) in
  let s' := snd (createWallet ins s) in
  wallets s' = (wallets s ++ [w])%list
  /\ w_userId w = iw_userId ins
  /\ (getWalletsByUser (iw_userId ins) s = [] ->
      w_isDefault w = 1
      /\ getDefaultWallet (iw_userId ins) s' = Some w)
  /\ (getWalletsByUser (iw_userId ins) s <> [] ->
      w_isDefault w = flag_or_zero (iw_isDefault ins)).
Proof.
  intros w s'.
  assert (Hd : forall uid,
             getDefaultWallet uid s'
             = match getDefaultWallet uid s with
               | Some d => Some d
               | None => if N.eqb (w_userId w) uid && Z.eqb (w_isDefault w) 1
                         then Some w else None
               end).
  { intros uid. apply getDefaultWallet_appended. }
  split; [reflexivity|]. split; [reflexivity|].
  split.
  - intros He.
    assert (Hf : w_isDefault w = 1).
    { unfold w, createWallet. cbn. now rewrite He. }
    split; [exact Hf|]. rewrite Hd.
    destruct (getDefaultWallet (iw_userId ins) s) as [d|] eqn:Ed.
    + exfalso. apply find_some in Ed. destruct Ed as [Hin Hq].
      apply andb_prop in Hq. destruct Hq as [Hu _].
      assert (Hx : In d (getWalletsByUser (iw_userId ins) s)).
      { unfold getWalletsByUser. apply -> in_rev. apply filter_In. now split. }
      rewrite He in Hx. destruct Hx.
    + rewrite Hf. cbn. now rewrite N.eqb_refl.
  - intros Hne. unfold w, createWallet. cbn.
    destruct (getWalletsByUser (iw_userId ins) s); [now elim Hne | reflexivity].
Qed.

(** X6. [createWallet]: the first wallet of a user becomes the default one
    whatever flag was asked for; a later wallet gets the flag that was
    passed (0 when left out) and the default wallet the user already has
    stays the default; the rows already stored are not changed, and no other
    user's default wallet is affected. *)
Theorem createWallet_first_wallet_is_default ins s :
  let w := fst (createWallet ins s) in
  let s' := snd (createWallet ins s) in
  wallets s' = (wallets s ++ [w])%list
  /\ w_userId w = iw_userId ins
  /\ (getWalletsByUser (iw_userId ins) s = [] ->
      w_isDefault w = 1
      /\ getDefaultWallet (iw_userId ins) s' = Some w)
  /\ (getWalletsByUser (iw_userId ins) s <> [] ->
      w_isDefault w = flag_or_zero (iw_isDefault ins))
  /\ (forall d, getDefaultWallet (iw_userId ins) s = Some d ->
                getDefaultWallet (iw_userId ins) s' = Some d)
  /\ (forall v, v <> iw_userId ins ->
                getDefaultWallet v s' = getDefaultWallet v s).
Proof.
  intros w s'.
  pose proof (createWallet_appends ins s) as (Hw & Hu & Hfirst & Hlater).
  assert (Hd : forall uid,
             getDefaultWallet uid s'
             = match getDefaultWallet uid s with
               | Some d => Some d
               | None => if N.eqb (w_userId w) uid && Z.eqb (w_isDefault w) 1
                         then Some w else None
               end).
  { intros uid. apply getDefaultWallet_appended. }
  split; [exact Hw|]. split; [exact Hu|]. split; [exact Hfirst|].
  split; [exact Hlater|]. split.
  - intros d Hg. now rewrite Hd, Hg.
  - intros v Hv. rewrite Hd.
    destruct (getDefaultWallet v s); [reflexivity|].
    cbn. destruct (N.eqb_spec (iw_userId ins) v) as [E|_]; [|reflexivity].
    now elim Hv.
Qed.

Lemma getDefaultWallet_some uid s d :
  getDefaultWallet uid s = Some d ->
  In d (wallets s) /\ w_userId d = uid /\ w_isDefault d = 1.
Proof.
  intros H. apply find_some in H. destruct H as [Hin Hq].
  apply andb_prop in Hq. destruct Hq as [Hu Hf].
  apply N.eqb_eq in Hu. apply Z.eqb_eq in Hf. auto.
Qed.

Lemma setDefaultWallet_row uid wid s x :
  In x (wallets (setDefaultWallet uid wid s)) <->
  exists y, In y (wallets s)
            /\ x = if N.eqb (w_userId y) uid
                   then set_default (if N.eqb (w_id y) wid then 1 else 0) y
                   else y.
Proof.
  unfold setDefaultWallet. cbn. rewrite map_map, in_map_iff.
  split; intros (y & Hy & Hin); exists y.
  - split; [exact Hin|]. subst x.
    destruct (N.eqb (w_userId y) uid) eqn:Eu; cbn; rewrite Eu.
    + now destruct (N.eqb (w_id y) wid).
    + now rewrite andb_false_r.
  - split; [|exact Hy]. subst x.
    destruct (N.eqb (w_userId y) uid) eqn:Eu; cbn; rewrite Eu.
    + now destruct (N.eqb (w_id y) wid).
    + now rewrite andb_false_r.
Qed.

Lemma setDefaultWallet_rows uid wid s :
  let s' := setDefaultWallet uid wid s in
  (forall x, In x (wallets s') -> w_userId x = uid -> w_isDefault x = 1 ->
             w_id x = wid)
  /\ (forall w, unique_wallet_ids s -> getWallet wid s = Some w ->
                w_userId w = uid ->
                getDefaultWallet uid s' = Some (set_default 1 w))
  /\ (forall x, w_userId x <> uid ->
                (In x (wallets s') <-> In x (wallets s))).
Proof.
  intros s'.
  assert (Hown : forall x, In x (wallets s') -> w_userId x = uid ->
                           w_isDefault x = 1 -> w_id x = wid).
  { intros x Hx Hu Hf. apply setDefaultWallet_row in Hx.
    destruct Hx as (y & Hy & ->).
    destruct (N.eqb (w_userId y) uid) eqn:Eu.
    - cbn in Hf |- *. destruct (N.eqb_spec (w_id y) wid); [assumption | discriminate].
    - apply N.eqb_neq in Eu. now elim Eu. }
  split; [exact Hown|]. split.
  - intros w Hk Hg Hu.
    destruct (getDefaultWallet uid s') as [d|] eqn:Ed.
    + apply getDefaultWallet_some in Ed. destruct Ed as (Hin & Hdu & Hdf).
      pose proof (Hown d Hin Hdu Hdf) as Hid.
      apply setDefaultWallet_row in Hin. destruct Hin as (y & Hy & ->).
      assert (Hyw : y = w).
      { apply find_some in Hg. destruct Hg as [Hw Hwid]. apply N.eqb_eq in Hwid.
        assert (Hyid : w_id y = w_id w).
        { rewrite Hwid. destruct (N.eqb (w_userId y) uid); exact Hid. }
        clear - Hk Hy Hw Hyid. unfold unique_wallet_ids in Hk.
        induction (wallets s) as [|z l IH]; [destruct Hy|].
        inversion Hk as [|? ? Hz Hl]; subst.
        destruct Hy as [-> | Hy], Hw as [-> | Hw]; auto.
        - exfalso. apply Hz. rewrite Hyid. now apply in_map.
        - exfalso. apply Hz. rewrite <- Hyid. now apply in_map. }
      subst y. apply N.eqb_eq in Hu. rewrite Hu.
      apply find_some in Hg. destruct Hg as [_ Hwid]. now rewrite Hwid.
    + exfalso.
      apply find_some in Hg. destruct Hg as [Hw Hwid].
      assert (Hin : In (set_default 1 w) (wallets s')).
      { apply setDefaultWallet_row. exists w. split; [exact Hw|].
        apply N.eqb_eq in Hu. now rewrite Hu, Hwid. }
      apply (find_none _ _ Ed) in Hin. cbn in Hin.
      apply N.eqb_eq in Hu. now rewrite Hu in Hin.
  - intros x Hx. unfold s'. rewrite setDefaultWallet_row. split.
    + intros (y & Hy & ->).
      destruct (N.eqb (w_userId y) uid) eqn:Eu; [|exact Hy].
      apply N.eqb_eq in Eu. now elim Hx.
    + intros Hin. exists x. split; [exact Hin|].
      apply N.eqb_neq in Hx. now rewrite Hx.
Qed.

(** X7. [setDefaultWallet]: afterwards the only wallet of the user that can
    carry the flag is the one with the given key; when that key names a
    wallet of the user it is the default wallet, and when it does not (an
    unknown key, or the wallet of somebody else) the user is left with no
    default wallet at all.  The wallets of other users are not touched. *)
Theorem setDefaultWallet_marks_only_an_own_wallet uid wid s :
  let s' := setDefaultWallet uid wid s in
  (forall x, In x (wallets s') -> w_userId x = uid -> w_isDefault x = 1 ->
             w_id x = wid)
  /\ (forall w, unique_wallet_ids s -> getWallet wid s = Some w ->
                w_userId w = uid ->
                getDefaultWallet uid s' = Some (set_default 1 w))
  /\ ((forall w, In w (wallets s) -> w_id w = wid -> w_userId w <> uid) ->
      getDefaultWallet uid s' = None)
  /\ (forall x, w_userId x <> uid ->
                (In x (wallets s') <-> In x (wallets s)))
  /\ (forall v, v <> uid -> getDefaultWallet v s' = getDefaultWallet v s).
Proof.
  intros s'.
  pose proof (setDefaultWallet_rows uid wid s) as (Hown & Hset & Hothers).
  split; [exact Hown|]. split; [exact Hset|]. split; [|split; [exact Hothers|]].
  - intros Hnone.
    destruct (getDefaultWallet uid s') as [d|] eqn:Ed; [|reflexivity].
    exfalso. apply getDefaultWallet_some in Ed. destruct Ed as (Hin & Hdu & Hdf).
    pose proof (Hown d Hin Hdu Hdf) as Hid.
    apply setDefaultWallet_row in Hin. destruct Hin as (y & Hy & ->).
    destruct (N.eqb (w_userId y) uid) eqn:Eu.
    + apply N.eqb_eq in Eu. now apply (Hnone y Hy Hid).
    + apply N.eqb_neq in Eu. now elim Eu.
  - intros v Hv. clear Hown Hset Hothers.
    unfold s', getDefaultWallet, setDefaultWallet. clear s'. cbn.
    rewrite map_map.
    induction (wallets s) as [|x l IH]; cbn; [reflexivity|].
    destruct (N.eqb (w_userId x) uid) eqn:Eu; cbn; rewrite Eu.
    + apply N.eqb_eq in Eu.
      assert (En : N.eqb (w_userId x) v = false)
        by (apply N.eqb_neq; congruence).
      destruct (N.eqb (w_id x) wid); cbn; rewrite En; cbn; exact IH.
    + rewrite andb_false_r.
      destruct (N.eqb (w_userId x) v && Z.eqb (w_isDefault x) 1);
        [reflexivity | exact IH].
Qed.

End Wallets.

Section ProductCommunities.
Import Storage.




End ProductCommunities.

(** ** What the settlement requests leave alone *)
Section StoreFrames.
Import Storage Blockchain Routes.

Lemma same_accounts_refl s : same_accounts s s.
Proof. repeat split. Qed.

Lemma same_accounts_trans a b c :
  same_accounts a b -> same_accounts b c -> same_accounts a c.
Proof.
  intros (H1 & H2 & H3 & H4 & H5) (K1 & K2 & K3 & K4 & K5).
  repeat split; congruence.
Qed.

Lemma same_record_refl t : same_record t t.
Proof. repeat split. Qed.

Lemma same_record_trans a b c :
  same_record a b -> same_record b c -> same_record a c.
Proof.
  intros (H1 & H2 & H3 & H4 & H5 & H6 & H7 & H8)
         (K1 & K2 & K3 & K4 & K5 & K6 & K7 & K8).
  repeat split; congruence.
Qed.

Lemma log_kept_refl s : log_kept s s.
Proof. intros t Ht. exists t. split; [exact Ht|]. split; [apply same_record_refl|auto]. Qed.

Lemma log_kept_trans a b c : log_kept a b -> log_kept b c -> log_kept a c.
Proof.
  intros H K t Ht. destruct (H t Ht) as (t1 & H1 & R1 & S1).
  destruct (K t1 H1) as (t2 & H2 & R2 & S2). exists t2.
  split; [exact H2|]. split; [now apply same_record_trans with t1 | auto].
Qed.

#[local] Instance same_accounts_frame {W} : Frame (on_db (W := W) same_accounts).
Proof.
  split; unfold on_db.
  - intros w. apply same_accounts_refl.
  - intros a b c. apply same_accounts_trans.
Qed.

#[local] Instance log_kept_frame {W} : Frame (on_db (W := W) log_kept).
Proof.
  split; unfold on_db.
  - intros w. apply log_kept_refl.
  - intros a b c. apply log_kept_trans.
Qed.

Lemma createTransaction_same_accounts ins s :
  same_accounts s (snd (createTransaction ins s)).
Proof. repeat split. Qed.

Lemma updateTransactionStatus_same_accounts i st h s :
  same_accounts s (snd (updateTransactionStatus i st h s)).
Proof. repeat split. Qed.

Lemma updateUserBalance_same_accounts i a s :
  same_accounts s (snd (updateUserBalance i a s)).
Proof.
  repeat split. cbn. rewrite map_map. apply map_ext. intros u.
  now destruct (N.eqb (u_id u) i).
Qed.

Lemma createTransaction_log_kept ins s : log_kept s (snd (createTransaction ins s)).
Proof.
  intros t Ht. exists t. split; [cbn; apply in_or_app; now left|].
  split; [apply same_record_refl | auto].
Qed.

Lemma updateTransactionStatus_log_kept i h s :
  log_kept s (snd (updateTransactionStatus i completed h s)).
Proof.
  intros t Ht.
  exists (if N.eqb (t_id t) i then set_status completed h t else t).
  split.
  - cbn. apply in_map_iff. now exists t.
  - destruct (N.eqb (t_id t) i); [|split; [apply same_record_refl | auto]].
    split; [repeat split | reflexivity].
Qed.

Lemma updateUserBalance_log_kept i a s : log_kept s (snd (updateUserBalance i a s)).
Proof.
  intros t Ht. exists t. split; [exact Ht|].
  split; [apply same_record_refl | auto].
Qed.

Context {W : Type} {CH : Chain W} {L : Library} {C : KeyVault.NodeCrypto}.
Variable env : Env.
Variable D : Store -> Store -> Prop.
Hypothesis D_refl : forall s, D s s.

Lemma submit_on_db t c : respects (on_db D) (submit (W := W) t c).
Proof.
  intros w r w' H. unfold submit in H.
  destruct (send (ext w) t c) as [o e'].
  destruct o; cbn in H; injection H as _ <-; apply D_refl.
Qed.

Lemma emit_on_db {R} e : respects (on_db D) (emit (W := W) (R := R) e).
Proof. intros w r w' H. injection H as _ <-. apply D_refl. Qed.

Lemma update_on_db {R A} (f : Store -> A * Store) :
  (forall s, D s (snd (f s))) ->
  respects (on_db D) (update (W := W) (R := R) f).
Proof.
  intros Hf w r w' H. unfold update in H.
  specialize (Hf (db w)). destruct (f (db w)) as [a d].
  injection H as _ <-. exact Hf.
Qed.

End StoreFrames.

Section StoreInvariants.
Import Storage Blockchain Routes.
Context {W : Type} {CH : Chain W} {L : Library} {C : KeyVault.NodeCrypto}.
Variable env : Env.
Variable D : Store -> Store -> Prop.
Hypothesis D_frame : Frame (on_db (W := W) D).
Hypothesis D_refl : forall s, D s s.
Hypothesis D_create : forall ins s, D s (snd (createTransaction ins s)).
Hypothesis D_status :
  forall i h s, D s (snd (updateTransactionStatus i completed h s)).
Hypothesis D_balance : forall i a s, D s (snd (updateUserBalance i a s)).

Ltac generic_leaf :=
  lazymatch goal with
  | |- respects _ (emit _) => apply emit_on_db; exact D_refl
  | |- respects _ (Blockchain.submit _ _) => apply submit_on_db; exact D_refl
  | |- respects _ (update _) =>
      apply update_on_db; intros ?;
      first [ apply D_create | apply D_status | apply D_balance ]
  | |- respects _ (Blockchain.mintWithSignature _ _ _ _ _ _ _ _ _) =>
      framed mintWithSignature_respects; intros; apply submit_on_db; exact D_refl
  | |- respects _ (Blockchain.burnWithSignature _ _ _ _ _ _ _ _ _) =>
      framed burnWithSignature_respects; intros; apply submit_on_db; exact D_refl
  | |- respects _ (Blockchain.permitTransfer _ _ _ _ _ _ _ _ _ _) =>
      framed permitTransfer_respects; intros; apply submit_on_db; exact D_refl
  end.

Ltac generic_frames := repeat first [ gateway_leaf | generic_leaf | step_frames ].

Lemma serve_on_db q (w : World W) : on_db D w (serve env q w).
Proof.
  destruct q; cbn [serve]; revert w;
    apply (respects_requireAuth (P := on_db D)); intros u;
    apply respects_handle;
    unfold distribute_item, burnAll_item, emitTransactionUpdate,
      emitTransactionToCommunity, emitBalanceUpdate;
    generic_frames.
Qed.

Lemma reachable_on_db (w0 w : World W) : reachable env w0 w -> D (db w0) (db w).
Proof.
  induction 1 as [|q w Hreach IH|e w Hreach IH].
  - apply D_refl.
  - exact (frame_trans (P := on_db D) w0 w _ IH (serve_on_db q w)).
  - exact IH.
Qed.

End StoreInvariants.

Section SettlementInvariants.
Import Storage Blockchain Routes.
Context {W : Type} {CH : Chain W} {L : Library} {C : KeyVault.NodeCrypto}.
Variable env : Env.

Lemma unique_ids_same_accounts s s' :
  same_accounts s s' -> unique_ids s -> unique_ids s'.
Proof.
  intros (Hu & _) Hk. unfold unique_ids in *.
  assert (E : forall us, map u_id us = map u_id (map zero_balance us))
    by (intros us; rewrite map_map; reflexivity).
  rewrite E, Hu, <- E. exact Hk.
Qed.

Lemma providers_own_products_same_accounts s s' :
  same_accounts s s' -> providers_own_products s -> providers_own_products s'.
Proof.
  intros (Hu & _ & Hp & _) H p u Hin Hu' Hid. rewrite Hp in Hin.
  assert (Hz : In (zero_balance u) (map zero_balance (users s)))
    by (rewrite <- Hu; now apply in_map).
  apply in_map_iff in Hz. destruct Hz as (u0 & Hz & Hu0).
  assert (Hr : u_role u0 = u_role u)
    by (change (u_role (zero_balance u0) = u_role (zero_balance u)); now rewrite Hz).
  assert (Hi : u_id u0 = u_id u)
    by (change (u_id (zero_balance u0) = u_id (zero_balance u)); now rewrite Hz).
  rewrite <- Hr. apply (H p u0 Hin Hu0). congruence.
Qed.

(** X9. The settlement requests only move cached balances and write the
    transaction log: in every world they reach, the accounts are the initial
    ones up to their balance, and the communities, products, wallets and
    offers are the initial ones.  So key uniqueness of the accounts and the
    provider role of product owners, once true, stay true. *)
Theorem settlement_requests_only_move_balances (w0 w : World W) :
  reachable env w0 w ->
  same_accounts (db w0) (db w)
  /\ (unique_ids (db w0) -> unique_ids (db w))
  /\ (providers_own_products (db w0) -> providers_own_products (db w)).
Proof.
  intros Hreach.
  assert (H : same_accounts (db w0) (db w)).
  { apply (reachable_on_db (env := env) (D := same_accounts)); auto.
    - apply same_accounts_frame.
    - apply same_accounts_refl.
    - apply createTransaction_same_accounts.
    - intros. apply updateTransactionStatus_same_accounts.
    - apply updateUserBalance_same_accounts. }
  split; [exact H|]. split.
  - now apply unique_ids_same_accounts.
  - now apply providers_own_products_same_accounts.
Qed.

(** X10. The settlement requests never delete a transaction, never change what
    it records (kind, amount, description, parties, product, community) and
    never take a completed transaction back: every transaction of the
    initial log is still recorded in every world they reach. *)
Theorem settlement_requests_keep_the_log (w0 w : World W) :
  reachable env w0 w -> log_kept (db w0) (db w).
Proof.
  intros Hreach.
  apply (reachable_on_db (env := env) (D := log_kept)); auto.
  - apply log_kept_frame.
  - apply log_kept_refl.
  - apply createTransaction_log_kept.
  - apply updateTransactionStatus_log_kept.
  - apply updateUserBalance_log_kept.
Qed.

End SettlementInvariants.

(** ** The requests as a whole *)
Section ClientErrors.
Import Storage Blockchain Routes.
Context {W : Type} {CH : Chain W} {L : Library} {C : KeyVault.NodeCrypto}.
Variable env : Env.










End ClientErrors.

Section Coordinators.
Import Storage Blockchain Routes.
Context {W : Type} {CH : Chain W} {L : Library} {C : KeyVault.NodeCrypto}.
Variable env : Env.

Lemma not_coordinator r :
  r <> role_coordinator -> negb (Role_eqb r role_coordinator) = false -> False.
Proof. destruct r; cbn; intros H E; first [discriminate E | now elim H]. Qed.

(** X12. Minting and burning are the coordinator's: when the session belongs to
    no account, or to an account that is not a coordinator, the three
    requests answer 403 and leave the world as it was. *)
Theorem only_a_coordinator_mints_or_burns uid (w : World W) :
  (forall u, getUser uid (db w) = Some u -> u_role u <> role_coordinator) ->
  (forall body,
      distribute env (Some uid) body w
      = (reply_error 403 "Solo i coordinatori possono distribuire token", w))
  /\ (forall amount description target,
      burn env (Some uid) amount description target w
      = (reply_error 403 "Solo i coordinatori possono bruciare token", w))
  /\ burnAll env (Some uid) w
     = (reply_error 403 "Solo i coordinatori possono eseguire il burn", w).
Proof.
  intros Hrole.
  assert (Hd : forall A (m : M W (Resp A) (Resp A)) onError msg,
             post m w (fun r w1 => match r with
                                   | Val x | Ret x => x = reply_error 403 msg /\ w1 = w
                                   | Exc e => onError e = reply_error 403 msg /\ w1 = w
                                   end) ->
             handle m onError w = (reply_error 403 msg, w)).
  { intros A m onError msg H.
    destruct (handle m onError w) as [resp w'] eqn:E.
    pose proof (@post_handle W A m onError w
                  (fun resp w1 => resp = reply_error 403 msg /\ w1 = w)
                  H resp w' E) as [-> ->].
    reflexivity. }
  split; [|split].
  - intros body. cbn [distribute requireAuth]. apply Hd.
    wp_step. wp_step; [|now split].
    wp_step; [|now split].
    exfalso. eapply not_coordinator; [apply Hrole|]; eassumption.
  - intros amount description target. cbn [burn requireAuth]. apply Hd.
    wp_step. wp_step; [|now split].
    wp_step; [|now split].
    exfalso. eapply not_coordinator; [apply Hrole|]; eassumption.
  - cbn [burnAll requireAuth]. apply Hd.
    wp_step. wp_step; [|now split].
    wp_step; [|now split].
    exfalso. eapply not_coordinator; [apply Hrole|]; eassumption.
Qed.

End Coordinators.

Section Burn.
Import Storage Blockchain Routes.
Context {W : Type} {CH : Chain W} {L : Library} {C : KeyVault.NodeCrypto}.
Variable env : Env.

(** A burn answered with its receipt ran every step. *)
Lemma burn_inversion session amount description target (w : World W) resp w' :
  burn env session amount description target w = (resp, w') ->
  match resp with
  | reply_json b =>
      exists uid user amt account,
        session = Some uid
        /\ getUser uid (db w) = Some user
        /\ u_role user = role_coordinator
        /\ amount = Some amt /\ 0 < amt
        /\ match target with
           | Some tid => getUser tid (db w) = Some account
                         /\ opt_eqb (u_communityId account) (u_communityId user) = true
           | None => account = user
           end
        /\ burned b = amt
        /\ db w' = burn_store user account amt description (burn_txHash b) (db w)
  | _ => True
  end.
Proof.
  destruct session as [uid|]; cbn [burn requireAuth].
  2:{ intros H. injection H as <- <-. exact I. }
  intros H. pattern resp, w'. eapply post_handle; [|exact H]. clear H.
  do 10 (wp_step; try solve [exact I]).
  assert (Hpos : 0 < a0).
  { match goal with
    | Hb : bad_amount amount = false, Ha : amount = Some _ |- _ =>
        rewrite Ha in Hb; cbn in Hb; apply orb_false_elim in Hb;
        destruct Hb as [_ Hb]; apply Z.leb_gt in Hb; exact Hb
    end. }
  assert (Hc : u_role a = role_coordinator).
  { match goal with
    | Hr : negb (Role_eqb (u_role ?u) role_coordinator) = false |- _ =>
        destruct (u_role u); first [reflexivity | discriminate Hr]
    end. }
  apply post_bind. destruct target as [tid|].
  - do 3 (wp_step; try solve [exact I]). wp_step.
    repeat (wp_step; try solve [exact I | destruct e; exact I]).
    open_same_db.
    exists uid, a. eexists. eexists.
    split; [reflexivity|]. split; [eassumption|]. split; [exact Hc|].
    split; [eassumption|]. split; [exact Hpos|].
    split; [split; [eassumption|]|].
    { match goal with
      | Hq : negb (opt_eqb _ _) = false |- _ =>
          apply negb_false_iff in Hq; exact Hq
      end. }
    split; [reflexivity|].
    cbn. rewrite Hdb. reflexivity.
  - wp_step.
    repeat (wp_step; try solve [exact I | destruct e; exact I]).
    open_same_db.
    exists uid, a. eexists. eexists.
    split; [reflexivity|]. split; [eassumption|]. split; [exact Hc|].
    split; [eassumption|]. split; [exact Hpos|].
    split; [reflexivity|].
    split; [reflexivity|].
    cbn. rewrite Hdb. reflexivity.
Qed.


End Burn.

Section LedgerTotal.
Import Storage Blockchain Routes.

Lemma ids_updateUserBalance i a s :
  map u_id (users (snd (updateUserBalance i a s))) = map u_id (users s).
Proof.
  cbn. rewrite map_map. apply map_ext. intros u.
  now destruct (N.eqb (u_id u) i).
Qed.

Lemma unique_ids_updateUserBalance i a s :
  unique_ids s -> unique_ids (snd (updateUserBalance i a s)).
Proof. unfold unique_ids. now rewrite ids_updateUserBalance. Qed.

Lemma total_balance_users s s' :
  users s' = users s -> total_balance s' = total_balance s.
Proof. unfold total_balance. now intros ->. Qed.

Lemma unique_ids_users s s' : users s' = users s -> unique_ids s -> unique_ids s'.
Proof. unfold unique_ids. now intros ->. Qed.


Context {W : Type} {CH : Chain W} {L : Library} {C : KeyVault.NodeCrypto}.
Variable env : Env.



Lemma sum_distributed_app rs rs' :
  sum_distributed (rs ++ rs') = sum_distributed rs + sum_distributed rs'.
Proof.
  induction rs as [|r rs IH]; cbn; [reflexivity|].
  fold (sum_distributed (rs ++ rs')). fold (sum_distributed rs). lia.
Qed.

Lemma total_balance_distribute_store user target d h s :
  unique_ids s -> getUserByEmail (dist_email d) s = Some target ->
  total_balance (distribute_store user target d h s)
  = total_balance s + dist_amount d
  /\ unique_ids (distribute_store user target d h s).
Proof.
  intros Hk Ht. apply getUserByEmail_In in Ht. destruct Ht as [Hin _].
  pose proof (@getUser_unique s target Hk Hin) as Hg.
  split.
  - etransitivity;
      [|exact (@total_balance_updateUserBalance (u_id target) (dist_amount d)
                 s target Hk Hg)].
    reflexivity.
  - exact (@unique_ids_updateUserBalance (u_id target) (dist_amount d) s Hk).
Qed.

Lemma distribute_loop_total R user tok sw ds :
  forall results errors (w : World W),
    unique_ids (db w) ->
    post (for_of (R := R) (distribute_item env user tok sw) ds (results, errors)) w
      (fun r w' =>
         exists results' errors',
           r = Val ((results ++ results')%list, (errors ++ errors')%list)
           /\ unique_ids (db w')
           /\ total_balance (db w')
              = total_balance (db w) + sum_distributed results').
Proof.
  induction ds as [|d ds IH]; intros results errors w Hk; cbn [for_of].
  - apply post_ret. exists [], []. rewrite !app_nil_r. cbn.
    repeat split; [exact Hk | lia].
  - apply post_bind.
    eapply post_conseq; [apply distribute_item_post|].
    intros r w1 (_ & [(e & -> & _ & Hu & _) | (t & h & -> & Ht & Hdb)]).
    + eapply post_conseq; [apply IH; now apply (@unique_ids_users (db w) (db w1) Hu)|].
      intros r w' (rs & es & -> & Hk' & Htot).
      exists rs, (e :: es). rewrite <- app_assoc.
      split; [reflexivity|]. split; [exact Hk'|].
      now rewrite Htot, (@total_balance_users (db w) (db w1) Hu).
    + destruct (@total_balance_distribute_store user t d h (db w) Hk Ht)
        as [Htot1 Hk1].
      rewrite <- Hdb in Htot1, Hk1.
      eapply post_conseq; [apply IH; exact Hk1|].
      intros r w' (rs & es & -> & Hk' & Htot).
      eexists (_ :: rs), es. rewrite <- app_assoc.
      split; [reflexivity|]. split; [exact Hk'|].
      rewrite Htot, Htot1. cbn. fold (sum_distributed rs). lia.
Qed.

(** X15. Minting and burning move the total of the cached ledger by what the
    reply reports: a distribution adds the amounts of the entries it lists
    as distributed, a burn takes away the burned amount. *)
Theorem distribute_and_burn_move_the_ledger_total :
  (forall session body (w : World W) b w',
      distribute env session body w = (reply_json b, w') ->
      unique_ids (db w) ->
      total_balance (db w')
      = total_balance (db w) + sum_distributed (distributed b))
  /\ (forall session amount description target (w : World W) b w',
      burn env session amount description target w = (reply_json b, w') ->
      unique_ids (db w) ->
      total_balance (db w') = total_balance (db w) - burned b).
Proof.
  split.
  - intros session body w b w' H Hk.
    apply distribute_inversion in H.
    destruct H as (uid & user & tok & sw & ds & _ & _ & _ & Hloop).
    apply (@distribute_loop_total (Resp DistributeBody) user tok sw ds
             [] [] w Hk) in Hloop.
    destruct Hloop as (rs & es & Hacc & _ & Htot).
    injection Hacc as Hrs _. cbn in Hrs. now rewrite Hrs.
  - intros session amount description target w b w' H Hk.
    apply burn_inversion in H.
    destruct H as (uid & user & amt & account & -> & Hu & _ & -> & _ & Ht
                   & Hb & Hdb).
    assert (Ha : getUser (u_id account) (db w) = Some account).
    { destruct target as [tid|].
      - destruct Ht as [Ht _]. now rewrite (getUser_id _ _ Ht).
      - subst account. now rewrite (getUser_id _ _ Hu). }
    rewrite Hdb, Hb.
    etransitivity;
      [|exact (@total_balance_updateUserBalance (u_id account) (- amt)
                 (db w) account Hk Ha)].
    reflexivity.
Qed.

End LedgerTotal.

Section Solvency.
Import Storage Blockchain Routes.

Lemma solvent_users s s' : users s' = users s -> solvent s -> solvent s'.
Proof. unfold solvent. now intros ->. Qed.

Lemma solvent_credit i a s :
  solvent s -> 0 <= a -> solvent (snd (updateUserBalance i a s)).
Proof.
  intros Hs Ha x Hx. cbn in Hx. apply in_map_iff in Hx.
  destruct Hx as (y & <- & Hy). specialize (Hs y Hy).
  destruct (N.eqb (u_id y) i); cbn; lia.
Qed.

Lemma solvent_debit i a s u :
  unique_ids s -> solvent s -> getUser i s = Some u -> a <= u_tokenBalance u ->
  solvent (snd (updateUserBalance i (- a) s)).
Proof.
  intros Hk Hs Hu Ha x Hx. cbn in Hx. apply in_map_iff in Hx.
  destruct Hx as (y & <- & Hy).
  destruct (N.eqb (u_id y) i) eqn:E; [|now apply Hs].
  apply N.eqb_eq in E.
  pose proof (@getUser_unique s y Hk Hy) as Hg. rewrite E, Hu in Hg.
  injection Hg as ->. cbn. lia.
Qed.

Context {W : Type} {CH : Chain W} {L : Library} {C : KeyVault.NodeCrypto}.
Variable env : Env.

(** What a transfer that succeeds has checked. *)
Lemma transfer_checks session rid amount note (w : World W) resp w' :
  transfer env session rid amount note w = (resp, w') ->
  match resp with
  | reply_json _ =>
      forall uid sender amt,
        session = Some uid -> getUser uid (db w) = Some sender ->
        amount = Some amt ->
        0 < amt /\ amt <= u_tokenBalance sender
  | _ => True
  end.
Proof.
  destruct session as [uid|]; cbn [transfer requireAuth].
  2:{ intros H. injection H as <- <-. exact I. }
  intros H. pattern resp, w'. eapply post_handle; [|exact H]. clear H.
  do 6 (wp_step; try solve [exact I]).
  match goal with
  | Hu : getUser uid (db w) = Some ?s,
    Hb : bad_amount amount = false,
    Ha : amount = Some ?x,
    Hc : (u_tokenBalance ?s <? ?x) = false |- _ =>
      assert (Hok : forall uid0 sender amt,
                 Some uid = Some uid0 -> getUser uid0 (db w) = Some sender ->
                 amount = Some amt -> 0 < amt /\ amt <= u_tokenBalance sender)
  end.
  { intros uid0 sender amt Hi Hs Hamt. injection Hi as <-.
    match goal with
    | Hu : getUser uid (db w) = Some ?s,
      Hb : bad_amount amount = false,
      Ha : amount = Some ?x,
      Hc : (u_tokenBalance ?s <? ?x) = false |- _ =>
        rewrite Hu in Hs; injection Hs as <-;
        rewrite Ha in Hamt; injection Hamt as <-;
        rewrite Ha in Hb; cbn in Hb; apply orb_false_elim in Hb;
        destruct Hb as [_ Hb]; apply Z.leb_gt in Hb; apply Z.ltb_ge in Hc
    end.
    split; lia. }
  repeat (wp_step; try solve [exact I | destruct e; exact I]).
  exact Hok.
Qed.

Lemma purchase_checks session pid (w : World W) resp w' :
  purchase env session pid w = (resp, w') ->
  match resp with
  | reply_json _ =>
      forall uid buyer pidv product,
        session = Some uid -> getUser uid (db w) = Some buyer ->
        pid = Some pidv -> getProduct pidv (db w) = Some product ->
        p_price product <= u_tokenBalance buyer
  | _ => True
  end.
Proof.
  destruct session as [uid|]; cbn [purchase requireAuth].
  2:{ intros H. injection H as <- <-. exact I. }
  intros H. pattern resp, w'. eapply post_handle; [|exact H]. clear H.
  do 6 (wp_step; try solve [exact I | destruct e; exact I]).
  match goal with
  | Hu : getUser uid (db w) = Some ?s,
    Hp : purchaseSchema_parse pid = Ok ?q,
    Hg : getProduct ?q (db w) = Some ?p,
    Hc : (u_tokenBalance ?s <? p_price ?p) = false |- _ =>
      assert (Hok : forall uid0 buyer pidv product,
                 Some uid = Some uid0 -> getUser uid0 (db w) = Some buyer ->
                 pid = Some pidv -> getProduct pidv (db w) = Some product ->
                 p_price product <= u_tokenBalance buyer)
  end.
  { intros uid0 buyer pidv product Hi Hs Hpid Hprod. injection Hi as <-.
    match goal with
    | Hu : getUser uid (db w) = Some ?s,
      Hp : purchaseSchema_parse pid = Ok ?q,
      Hg : getProduct ?q (db w) = Some ?p,
      Hc : (u_tokenBalance ?s <? p_price ?p) = false |- _ =>
        rewrite Hu in Hs; injection Hs as <-;
        rewrite Hpid in Hp; cbn in Hp; injection Hp as <-;
        rewrite Hg in Hprod; injection Hprod as <-;
        apply Z.ltb_ge in Hc; exact Hc
    end. }
  repeat (wp_step; try solve [exact I | destruct e; exact I]).
  exact Hok.
Qed.


Lemma distribute_checks session body (w : World W) resp w' :
  distribute env session body w = (resp, w') ->
  match resp with
  | reply_json _ =>
      forall ds, body = Some ds -> Forall (fun d => 0 <= dist_amount d) ds
  | _ => True
  end.
Proof.
  destruct session as [uid|]; cbn [distribute requireAuth].
  2:{ intros H. injection H as <- <-. exact I. }
  intros H. pattern resp, w'. eapply post_handle; [|exact H]. clear H.
  do 11 (wp_step; try solve [exact I | destruct e; exact I]).
  apply post_bind. intros r w1 E.
  match goal with
  | E : for_of (distribute_item env ?u ?t ?s) ?l ?acc w = _ |- _ =>
      destruct (distribute_loop_returns env (Resp DistributeBody) u t s l ([], []) w)
        as (acc' & w2 & E');
      rewrite E' in E; injection E as <- <-
  end.
  apply post_ret. intros ds ->.
  match goal with
  | Hp : distributeTokensSchema_parse (Some ds) = Ok _ |- _ =>
      cbn in Hp; destruct (forallb _ ds) eqn:Ef; [|discriminate]
  end.
  apply Forall_forall. intros d Hd.
  rewrite forallb_forall in Ef. specialize (Ef d Hd).
  apply andb_prop in Ef. destruct Ef as [_ Ef]. apply Z.ltb_lt in Ef. lia.
Qed.

Lemma distribute_loop_solvent R user tok sw ds :
  Forall (fun d => 0 <= dist_amount d) ds ->
  forall acc (w : World W),
    solvent (db w) ->
    post (for_of (R := R) (distribute_item env user tok sw) ds acc) w
      (fun r w' => solvent (db w')).
Proof.
  induction 1 as [|d ds Hd Hds IH]; intros [results errors] w Hs; cbn [for_of].
  - apply post_ret. exact Hs.
  - apply post_bind.
    eapply post_conseq; [apply distribute_item_post|].
    intros r w1 (_ & [(e & -> & _ & Hu & _) | (t & h & -> & Ht & Hdb)]).
    + apply IH. now apply (@solvent_users (db w) (db w1) Hu).
    + apply IH. rewrite Hdb.
      apply (@solvent_users
               (snd (updateUserBalance (u_id t) (dist_amount d) (db w)))
               (distribute_store user t d h (db w)) eq_refl).
      now apply solvent_credit.
Qed.

(** X16. Transfers, purchases and distributions never overdraw an account: if no
    cached balance is negative before the request, none is after it (for a
    purchase, provided no product has a negative price).  The burn route
    makes no such check. *)
Theorem transfers_purchases_and_distributions_keep_the_ledger_solvent :
  (forall session rid amount note (w : World W),
      unique_ids (db w) -> solvent (db w) ->
      solvent (db (snd (transfer env session rid amount note w))))
  /\ (forall session pid (w : World W),
      unique_ids (db w) -> solvent (db w) ->
      (forall p, In p (products (db w)) -> 0 <= p_price p) ->
      solvent (db (snd (purchase env session pid w))))
  /\ (forall session body (w : World W),
      solvent (db w) ->
      solvent (db (snd (distribute env session body w)))).
Proof.
  split; [|split].
  - intros session rid amount note w Hk Hs.
    destruct (transfer env session rid amount note w) as [resp w'] eqn:E.
    pose proof E as Hi. apply transfer_inversion in Hi.
    pose proof E as Hc. apply transfer_checks in Hc. cbn [snd].
    destruct resp as [st msg| |b]; [now rewrite Hi | now rewrite Hi |].
    destruct Hi as (uid & ridv & amt & sender & recipient & cid & tok & sw
                    & admin & cfg & amountWei & deadline & sig & tr & w1
                    & Hse & _ & Ham & Hsnd & Hr & _ & _ & Hdb & _).
    destruct (Hc uid sender amt Hse Hsnd Ham) as [Hpos Hle].
    rewrite Hdb.
    apply (@solvent_users
             (snd (updateUserBalance (u_id recipient) amt
                     (snd (updateUserBalance (u_id sender) (- amt) (db w)))))
             _ eq_refl).
    apply solvent_credit; [|lia].
    rewrite (getUser_id _ _ Hsnd).
    now apply solvent_debit with (u := sender).
  - intros session pid w Hk Hs Hprice.
    destruct (purchase env session pid w) as [resp w'] eqn:E.
    pose proof E as Hi. apply purchase_inversion in Hi.
    pose proof E as Hc. apply purchase_checks in Hc. cbn [snd].
    assert (Hfail : (db w' = db w /\ calls w' = calls w)
                    \/ (exists buyer product cid,
                           db w' = snd (createTransaction
                                          (purchase_insert buyer product cid) (db w))) ->
                    solvent (db w')).
    { intros [[-> _] | (buyer & product & cid & ->)]; exact Hs. }
    destruct resp as [st msg| |b]; [now apply Hfail | now apply Hfail |].
    destruct Hi as (uid & pidv & buyer & product & provider & pw & cid & tok & sw
                    & admin & cfg & amountWei & deadline & sig & tr & w0 & w1
                    & Hse & Hpid & Hb & Hprod & Hp & _ & _ & _ & _ & Hdb & _).
    assert (Hpidv : pid = Some pidv).
    { destruct pid; cbn in Hpid; [now injection Hpid as -> | discriminate]. }
    pose proof (Hc uid buyer pidv product Hse Hb Hpidv Hprod) as Hle.
    assert (Hnn : 0 <= p_price product).
    { apply Hprice. apply find_some in Hprod. tauto. }
    rewrite Hdb. unfold purchase_store.
    apply (@solvent_users
             (snd (updateUserBalance (u_id provider) (p_price product)
                     (snd (updateUserBalance (u_id buyer) (- p_price product) (db w)))))
             _ eq_refl).
    apply solvent_credit; [|exact Hnn].
    rewrite (getUser_id _ _ Hb).
    now apply solvent_debit with (u := buyer).
  - intros session body w Hs.
    destruct (distribute env session body w) as [resp w'] eqn:E.
    pose proof E as Hi. apply distribute_inversion in Hi.
    pose proof E as Hc. apply distribute_checks in Hc. cbn [snd].
    destruct resp as [st msg| |b]; [now rewrite Hi | now rewrite Hi |].
    destruct Hi as (uid & user & tok & sw & ds & _ & Hbody & _ & Hloop).
    exact (@distribute_loop_solvent (Resp DistributeBody) user tok sw ds
             (Hc ds Hbody) ([], []) w Hs _ _ Hloop).
Qed.

End Solvency.

(** ** Signing and wallet routes *)
Section SigningRoutes.
Import Storage Blockchain Routes.
Context {W : Type} {CH : Chain W} {L : Library} {C : KeyVault.NodeCrypto}.
Variable env : Env.

Lemma getWalletFromPrivateKey_unchanged k :
  respects unchanged (getWalletFromPrivateKey (W := W) env k).
Proof.
  unfold getWalletFromPrivateKey. step_frames; gateway_leaf.
Qed.

Lemma getWalletFromPrivateKey_Val k (w : World W) ew w' :
  getWalletFromPrivateKey env k w = (Val ew, w') ->
  ew_privateKey ew = k /\ wallet_address k = Ok (ew_address ew)
  /\ falsy (RPC_URL env) = false.
Proof.
  unfold getWalletFromPrivateKey, getProvider, newWallet. intros H.
  destruct (falsy (RPC_URL env)); [discriminate|].
  cbn in H. unfold bind in H. cbn in H.
  destruct (wallet_address k) as [a|e]; cbn in H; [|discriminate].
  injection H as <- _. auto.
Qed.











End SigningRoutes.

Section VaultRecords.
Import KeyVault.
Context {C : NodeCrypto}.

Lemma encryptPrivateKey_Ok env iv k record :
  encryptPrivateKey env iv k = Ok record ->
  exists key,
    getEncryptionKey env = Ok key
    /\ record = to_hex iv ++ ":" ++ to_hex (cipher_getAuthTag key iv (utf8_encode k))
                ++ ":" ++ to_hex (cipher_output key iv (utf8_encode k)).
Proof.
  unfold encryptPrivateKey. destruct (getEncryptionKey env) as [key|e];
    [|discriminate].
  destruct (cipheriv_ok key iv); [|discriminate].
  intros H. injection H as <-. now exists key.
Qed.

(** X18. A record made by [encryptPrivateKey] always has the three fields that
    [decryptPrivateKey] looks for, and they are the initialization vector,
    the authentication tag and the ciphertext; so two encryptions under
    different initialization vectors never give the same record, whatever
    the keys. *)
Theorem sealed_record_holds_iv_tag_and_ciphertext env iv k record :
  encryptPrivateKey env iv k = Ok record ->
  (exists key,
      getEncryptionKey env = Ok key
      /\ fields record
         = Some (iv, cipher_getAuthTag key iv (utf8_encode k),
                 cipher_output key iv (utf8_encode k)))
  /\ List.length (split colon record) = 3%nat
  /\ (forall iv' k' record',
         encryptPrivateKey env iv' k' = Ok record' -> iv' <> iv ->
         record' <> record).
Proof.
  intros H. apply encryptPrivateKey_Ok in H. destruct H as (key & Hkey & ->).
  split; [|split].
  - exists key. split; [exact Hkey|]. unfold fields.
    now rewrite split_record, !from_hex_to_hex.
  - now rewrite split_record.
  - intros iv' k' record' H' Hne Heq.
    apply encryptPrivateKey_Ok in H'. destruct H' as (key' & _ & ->).
    apply (f_equal (split colon)) in Heq. rewrite !split_record in Heq.
    injection Heq as Hiv _ _.
    apply (f_equal from_hex) in Hiv. rewrite !from_hex_to_hex in Hiv.
    now elim Hne.
Qed.

(** X19. Without the master secret (the variable unset or empty) the vault does
    nothing: encryption and decryption both throw the configuration error,
    decryption even before it looks at the record. *)
Theorem vault_throws_without_the_master_secret env :
  falsy (WALLET_ENCRYPTION_KEY env) = true ->
  (forall iv k,
      encryptPrivateKey env iv k
      = Throw (Error "WALLET_ENCRYPTION_KEY not configured"))
  /\ (forall data,
      decryptPrivateKey env data
      = Throw (Error "WALLET_ENCRYPTION_KEY not configured")).
Proof.
  intros H.
  assert (Hk : getEncryptionKey env
               = Throw (Error "WALLET_ENCRYPTION_KEY not configured")).
  { unfold getEncryptionKey. now rewrite H. }
  split; intros; [unfold encryptPrivateKey | unfold decryptPrivateKey];
    now rewrite Hk.
Qed.

(** What [encryptPrivateKey] returns is opened by [decryptPrivateKey]. *)
Lemma sealed_key_opens (G : GcmCorrect C) env secret iv k record :
  WALLET_ENCRYPTION_KEY env = Some secret -> secret <> EmptyString ->
  List.length iv = IV_LENGTH ->
  encryptPrivateKey env iv k = Ok record ->
  decryptPrivateKey env record = Ok k.
Proof.
  intros Hk Hne Hiv H.
  apply encryptPrivateKey_Ok in H. destruct H as (key & Hkey & ->).
  pose proof (getEncryptionKey_configured env Hk Hne) as Hkey'.
  rewrite Hkey in Hkey'. injection Hkey' as Hkey'.
  assert (Hlen : List.length key = KEY_LENGTH)
    by (rewrite Hkey'; apply (scrypt_length G)).
  unfold decryptPrivateKey. rewrite Hkey.
  rewrite split_record, !from_hex_to_hex.
  rewrite (gcm_accepts G key iv Hlen Hiv).
  rewrite (gcm_tag_accepted G key iv _ Hlen Hiv).
  rewrite (gcm_authentic G key iv _ Hlen Hiv).
  rewrite (gcm_inverse G key iv _ Hlen Hiv).
  cbn [negb]. now rewrite utf8_roundtrip, append_empty_r.
Qed.

End VaultRecords.

Section WalletRoutes.
Import Storage Blockchain Routes.
Context {W : Type} {CH : Chain W} {L : Library} {C : KeyVault.NodeCrypto}.
Variable env : Env.

Lemma walletSetDefault_inversion session wid (w : World W) resp w' :
  walletSetDefault session wid w = (resp, w') ->
  match resp with
  | reply_json _ =>
      exists uid wallet,
        session = Some uid /\ getWallet wid (db w) = Some wallet
        /\ w_userId wallet = uid
        /\ w' = stored w (setDefaultWallet uid wid (db w))
  | _ => w' = w
  end.
Proof.
  destruct session as [uid|]; cbn [walletSetDefault requireAuth].
  2:{ intros H. injection H as <- <-. reflexivity. }
  intros H. pattern resp, w'. eapply post_handle; [|exact H]. clear H.
  repeat (wp_step; try solve [exact eq_refl]).
  exists uid. eexists. split; [reflexivity|]. split; [eassumption|].
  split; [|reflexivity].
  match goal with
  | Ho : negb (N.eqb _ _) = false |- _ =>
      apply negb_false_iff in Ho; apply N.eqb_eq in Ho; exact Ho
  end.
Qed.

Lemma walletDelete_inversion session wid (w : World W) resp w' :
  walletDelete session wid w = (resp, w') ->
  match resp with
  | reply_json _ =>
      exists uid wallet,
        session = Some uid /\ getWallet wid (db w) = Some wallet
        /\ w_userId wallet = uid
        /\ w' = stored w (deleteWallet wid (db w))
  | _ => w' = w
  end.
Proof.
  destruct session as [uid|]; cbn [walletDelete requireAuth].
  2:{ intros H. injection H as <- <-. reflexivity. }
  intros H. pattern resp, w'. eapply post_handle; [|exact H]. clear H.
  repeat (wp_step; try solve [exact eq_refl]).
  exists uid. eexists. split; [reflexivity|]. split; [eassumption|].
  split; [|reflexivity].
  match goal with
  | Ho : negb (N.eqb _ _) = false |- _ =>
      apply negb_false_iff in Ho; apply N.eqb_eq in Ho; exact Ho
  end.
Qed.

Lemma getWallet_unique s x :
  unique_wallet_ids s -> In x (wallets s) -> getWallet (w_id x) s = Some x.
Proof.
  unfold unique_wallet_ids, getWallet.
  induction (wallets s) as [|y l IH]; intros Hnd Hin; [destruct Hin|].
  inversion Hnd as [|? ? Hy Hl]; subst. cbn.
  destruct Hin as [-> | Hin]; [now rewrite N.eqb_refl|].
  destruct (N.eqb (w_id y) (w_id x)) eqn:E; [|now apply IH].
  exfalso. apply Hy. apply N.eqb_eq in E. rewrite E. now apply in_map.
Qed.

(** X20. The two wallet routes act on a wallet of the session's user only: they
    answer 404 and change nothing otherwise, and whatever the request, the
    wallets of every other user are afterwards exactly what they were.  A
    successful set-default makes the named wallet the user's default one; a
    successful delete removes it. *)
Theorem wallet_routes_act_on_own_wallets_only :
  (forall session wid (w : World W) x,
      Some (w_userId x) <> session ->
      (In x (wallets (db (snd (walletSetDefault session wid w))))
       <-> In x (wallets (db w))))
  /\ (forall session wid (w : World W) x,
      unique_wallet_ids (db w) ->
      Some (w_userId x) <> session ->
      (In x (wallets (db (snd (walletDelete session wid w))))
       <-> In x (wallets (db w))))
  /\ (forall session wid (w : World W) u w',
      walletSetDefault session wid w = (reply_json u, w') ->
      unique_wallet_ids (db w) ->
      exists uid wallet,
        session = Some uid /\ getWallet wid (db w) = Some wallet
        /\ w_userId wallet = uid
        /\ getDefaultWallet uid (db w') = Some (set_default 1 wallet))
  /\ (forall session wid (w : World W) u w',
      walletDelete session wid w = (reply_json u, w') ->
      exists uid wallet,
        session = Some uid /\ getWallet wid (db w) = Some wallet
        /\ w_userId wallet = uid
        /\ getWallet wid (db w') = None).
Proof.
  split; [|split; [|split]].
  - intros session wid w x Hx.
    destruct (walletSetDefault session wid w) as [resp w'] eqn:E.
    apply walletSetDefault_inversion in E. cbn [snd].
    destruct resp as [st msg| |u]; [rewrite E; tauto | rewrite E; tauto |].
    destruct E as (uid & wallet & -> & _ & _ & ->). cbn [db stored].
    apply (proj2 (proj2 (setDefaultWallet_rows uid wid (db w)))).
    congruence.
  - intros session wid w x Hk Hx.
    destruct (walletDelete session wid w) as [resp w'] eqn:E.
    apply walletDelete_inversion in E. cbn [snd].
    destruct resp as [st msg| |u]; [rewrite E; tauto | rewrite E; tauto |].
    destruct E as (uid & wallet & -> & Hg & Hu & ->). cbn [db stored].
    unfold deleteWallet. cbn. rewrite filter_In. split; [tauto|].
    intros Hin. split; [exact Hin|].
    destruct (N.eqb (w_id x) wid) eqn:Eq; [|reflexivity].
    exfalso. apply N.eqb_eq in Eq.
    pose proof (@getWallet_unique (db w) x Hk Hin) as Hgx.
    rewrite Eq, Hg in Hgx. injection Hgx as ->. congruence.
  - intros session wid w u w' E Hk.
    apply walletSetDefault_inversion in E.
    destruct E as (uid & wallet & -> & Hg & Hu & ->). cbn [db stored].
    exists uid, wallet. split; [reflexivity|]. split; [exact Hg|].
    split; [exact Hu|].
    now apply (proj1 (proj2
             (setDefaultWallet_rows uid wid (db w)))).
  - intros session wid w u w' E.
    apply walletDelete_inversion in E.
    destruct E as (uid & wallet & -> & Hg & Hu & ->). cbn [db stored].
    exists uid, wallet. split; [reflexivity|]. split; [exact Hg|].
    split; [exact Hu|].
    unfold getWallet, deleteWallet. cbn.
    destruct (find _ _) as [y|] eqn:Ey; [|reflexivity].
    apply find_some in Ey. destruct Ey as [Hin Hq].
    apply filter_In in Hin. destruct Hin as [_ Hn].
    now rewrite Hq in Hn.
Qed.

End WalletRoutes.

Section WalletCreation.
Import Storage Blockchain Routes.
Context {W : Type} {CH : Chain W} {L : Library} {C : KeyVault.NodeCrypto}.
Variable env : Env.

Lemma walletImport_inversion session label privateKey iv (w : World W) resp w' :
  walletImport env session label privateKey iv w = (resp, w') ->
  match resp with
  | reply_json body =>
      exists uid key address record,
        session = Some uid /\ privateKey = Some key
        /\ wallet_address key = Ok address
        /\ KeyVault.encryptPrivateKey env iv key = Ok record
        /\ w' = stored w (snd (createWallet
                                 (mkInsertWallet uid address record (Some 0))
                                 (db w)))
        /\ body = wallet_body (fst (createWallet
                                      (mkInsertWallet uid address record (Some 0))
                                      (db w)))
  | _ => w' = w
  end.
Proof.
  destruct session as [uid|]; cbn [walletImport requireAuth].
  2:{ intros H. injection H as <- <-. reflexivity. }
  intros H. pattern resp, w'. eapply post_handle; [|exact H]. clear H.
  do 4 (wp_step; try solve [exact eq_refl]).
  apply post_bind_call_read;
    [apply getWalletFromPrivateKey_unchanged | intros ? ? | intros ? ?];
    [|exact eq_refl].
  repeat (wp_step; try solve [exact eq_refl]).
  match goal with
  | Hw : getWalletFromPrivateKey _ _ _ = _ |- _ =>
      apply getWalletFromPrivateKey_Val in Hw; destruct Hw as (_ & Haddr & _)
  end.
  exists uid. do 3 eexists.
  split; [reflexivity|]. split; [eassumption|]. split; [exact Haddr|].
  split; [eassumption|]. split; reflexivity.
Qed.

Lemma walletGenerate_inversion session label random iv (w : World W) resp w' :
  walletGenerate env session label random iv w = (resp, w') ->
  match resp with
  | reply_json body =>
      exists uid record,
        session = Some uid
        /\ KeyVault.encryptPrivateKey env iv (ew_privateKey random) = Ok record
        /\ w' = stored w (snd (createWallet
                                 (mkInsertWallet uid (ew_address random) record
                                                 (Some 0))
                                 (db w)))
        /\ body = wallet_body (fst (createWallet
                                      (mkInsertWallet uid (ew_address random)
                                                      record (Some 0))
                                      (db w)))
  | _ => w' = w
  end.
Proof.
  destruct session as [uid|]; cbn [walletGenerate requireAuth].
  2:{ intros H. injection H as <- <-. reflexivity. }
  intros H. pattern resp, w'. eapply post_handle; [|exact H]. clear H.
  repeat (wp_step; try solve [exact eq_refl]).
  exists uid. eexists.
  split; [reflexivity|]. split; [eassumption|]. split; reflexivity.
Qed.

(** X21. A wallet that is imported or generated is stored for the user of the
    session under the address of its key, sealed so that
    [decryptPrivateKey] gives back exactly that key; it becomes the user's
    default wallet when it is the first one, and is not default otherwise. *)
Theorem stored_wallet_opens_with_its_key (G : KeyVault.GcmCorrect C) secret iv :
  WALLET_ENCRYPTION_KEY env = Some secret -> secret <> EmptyString ->
  List.length iv = KeyVault.IV_LENGTH ->
  (forall session label privateKey (w : World W) body w',
      walletImport env session label privateKey iv w = (reply_json body, w') ->
      exists uid key wallet,
        session = Some uid /\ privateKey = Some key
        /\ wallets (db w') = (wallets (db w) ++ [wallet])%list
        /\ body = wallet_body wallet
        /\ w_userId wallet = uid
        /\ wallet_address key = Ok (w_address wallet)
        /\ KeyVault.decryptPrivateKey env (w_encryptedPrivateKey wallet) = Ok key
        /\ (getWalletsByUser uid (db w) = [] ->
            getDefaultWallet uid (db w') = Some wallet)
        /\ (getWalletsByUser uid (db w) <> [] -> w_isDefault wallet = 0))
  /\ (forall session label random (w : World W) body w',
      walletGenerate env session label random iv w = (reply_json body, w') ->
      exists uid wallet,
        session = Some uid
        /\ wallets (db w') = (wallets (db w) ++ [wallet])%list
        /\ body = wallet_body wallet
        /\ w_userId wallet = uid
        /\ w_address wallet = ew_address random
        /\ KeyVault.decryptPrivateKey env (w_encryptedPrivateKey wallet)
           = Ok (ew_privateKey random)
        /\ (getWalletsByUser uid (db w) = [] ->
            getDefaultWallet uid (db w') = Some wallet)
        /\ (getWalletsByUser uid (db w) <> [] -> w_isDefault wallet = 0)).
Proof.
  intros Hk Hne Hiv. split.
  - intros session label privateKey w body w' H.
    apply walletImport_inversion in H.
    destruct H as (uid & key & address & record & -> & -> & Haddr & Henc & -> & ->).
    pose proof (createWallet_appends
                  (mkInsertWallet uid address record (Some 0)) (db w))
      as (Hw & Hu & Hfirst & Hlater).
    exists uid, key. eexists.
    split; [reflexivity|]. split; [reflexivity|].
    split; [exact Hw|]. split; [reflexivity|]. split; [exact Hu|].
    split; [exact Haddr|].
    split; [exact (@sealed_key_opens C G env secret iv _ _ Hk Hne Hiv Henc)|].
    split; [intros He; exact (proj2 (Hfirst He)) | exact Hlater].
  - intros session label random w body w' H.
    apply walletGenerate_inversion in H.
    destruct H as (uid & record & -> & Henc & -> & ->).
    pose proof (createWallet_appends
                  (mkInsertWallet uid (ew_address random) record (Some 0)) (db w))
      as (Hw & Hu & Hfirst & Hlater).
    exists uid. eexists.
    split; [reflexivity|].
    split; [exact Hw|]. split; [reflexivity|]. split; [exact Hu|].
    split; [reflexivity|].
    split; [exact (@sealed_key_opens C G env secret iv _ _ Hk Hne Hiv Henc)|].
    split; [intros He; exact (proj2 (Hfirst He)) | exact Hlater].
Qed.

End WalletCreation.

(** ** What the gateway submits *)
Section GatewaySubmissions.
Import Blockchain.
Context {W : Type} {CH : Chain W} {L : Library}.
Variable env : Env.

(** A run of [submit]: the call is recorded, whether it went through or
    not. *)
Lemma submit_run token c (w : World W) r w' :
  submit token c w = (r, w') ->
  db w' = db w /\ emitted w' = emitted w
  /\ calls w' = (calls w ++ [(token, c)])%list
  /\ (forall x, r <> Ret x).
Proof.
  unfold submit. destruct (send (ext w) token c) as [[rc|e] e1]; cbn;
    intros H; injection H as <- <-; cbn; repeat split; discriminate.
Qed.

Lemma view_run {R A} (f : W -> Outcome A) (w : World W) (r : Res R A) w' :
  view f w = (r, w') -> w' = w.
Proof.
  unfold view. destruct (f (ext w)); cbn; intros H; now injection H as _ <-.
Qed.

(** X22. [permitTransfer] never submits anything but the permit it was given,
    followed by at most one [transferFrom] from the owner to the recipient
    of at most the permitted value; it touches neither the database nor the
    notifications.  With a spender that is not the server wallet (letter
    case apart) it throws before submitting anything, and when it returns it
    sent the smaller of the value and the allowance it read back, which was
    not zero. *)
Theorem permitTransfer_submits_the_permit_and_one_bounded_transfer
        owner spender value deadline v r s recipient tok (w : World W) :
  (forall res w',
      permitTransfer env owner spender value deadline v r s recipient tok w
      = (res, w') ->
      db w' = db w /\ emitted w' = emitted w
      /\ exists token,
           calls w' = calls w
           \/ calls w' = (calls w ++ [(token, call_permit owner spender value
                                                          deadline v r s)])%list
           \/ exists amount,
                calls w'
                = (calls w ++ [(token, call_permit owner spender value
                                                   deadline v r s);
                               (token, call_transferFrom owner recipient
                                                         amount)])%list
                /\ amount <= value)
  /\ (forall token admin,
        getTokenContract env tok w = (Val token, w) ->
        getAdminWallet env w = (Val admin, w) ->
        toLowerCase spender <> toLowerCase (ew_address admin) ->
        permitTransfer env owner spender value deadline v r s recipient tok w
        = (Exc (Error "Spender must be server wallet"), w))
  /\ (forall tr w',
        permitTransfer env owner spender value deadline v r s recipient tok w
        = (Val tr, w') ->
        exists allowance,
          allowance <> 0
          /\ pt_sent tr = Z.min value allowance
          /\ pt_sent tr <= value /\ pt_sent tr <= allowance).
Proof.
  split; [|split].
  - intros res w' H. unfold permitTransfer in H. unfold bind at 1 in H.
    destruct (getTokenContract env tok w) as [[token|e|[]] w1] eqn:E1;
      reads E1; [|injection H as _ <-; repeat split; exists EmptyString; now left].
    unfold bind at 1 in H.
    destruct (getAdminWallet env w) as [[admin|e|[]] w1] eqn:E2;
      reads E2; [|injection H as _ <-; repeat split; exists token; now left].
    destruct (negb _);
      [injection H as _ <-; repeat split; exists token; now left|].
    unfold bind at 1 in H.
    destruct (submit token (call_permit owner spender value deadline v r s) w)
      as [[rc1|e|[]] w1] eqn:E3;
      apply submit_run in E3; destruct E3 as (Hd1 & He1 & Hc1 & _);
      [|injection H as _ <-; split; [exact Hd1|]; split; [exact He1|];
        exists token; right; left; exact Hc1].
    unfold bind at 1 in H.
    destruct (view (fun x => read_allowance x token owner (ew_address admin)) w1)
      as [[allowance|e|[]] w2] eqn:E4;
      apply view_run in E4; subst w2;
      [|injection H as _ <-; split; [exact Hd1|]; split; [exact He1|];
        exists token; right; left; exact Hc1].
    destruct (allowance =? 0);
      [injection H as _ <-; split; [exact Hd1|]; split; [exact He1|];
       exists token; right; left; exact Hc1|].
    cbv zeta in H. unfold bind at 1 in H.
    match type of H with
    | context [submit token (call_transferFrom owner recipient ?amt) w1] =>
        set (amount := amt) in *;
        destruct (submit token (call_transferFrom owner recipient amount) w1)
          as [[rc2|e|[]] w2] eqn:E5;
        apply submit_run in E5; destruct E5 as (Hd2 & He2 & Hc2 & _)
    end.
    + unfold bind at 1 in H.
      destruct (view (fun x => read_allowance x token owner (ew_address admin)) w2)
        as [[leftover|e|[]] w3] eqn:E6;
        apply view_run in E6; subst w3; injection H as _ <-;
        (split; [congruence|]; split; [congruence|]; exists token; right; right;
         exists amount; split;
         [rewrite Hc2, Hc1, <- app_assoc; reflexivity
         | unfold amount; destruct (Z.leb_spec value allowance); lia]).
    + injection H as _ <-.
      split; [congruence|]. split; [congruence|]. exists token. right. right.
      exists amount. split.
      * rewrite Hc2, Hc1, <- app_assoc. reflexivity.
      * unfold amount. destruct (Z.leb_spec value allowance); lia.
  - intros token admin Ht Ha Hne. unfold permitTransfer.
    unfold bind at 1. rewrite Ht. unfold bind at 1. rewrite Ha.
    destruct (String.eqb_spec (toLowerCase spender) (toLowerCase (ew_address admin)));
      [now elim Hne | reflexivity].
  - intros tr w' H. apply permitTransfer_Val in H.
    destruct H as (token & admin & rc1 & e1 & allowance & rc2
                   & _ & _ & Hnz & _ & _ & _ & Hsent & _).
    exists allowance. split; [exact Hnz|]. split; [exact Hsent|]. lia.
Qed.


Lemma with_signature_run
      (build : Z -> Z -> ContractCall) A (pack : Receipt -> Z -> Z -> A)
      amountHuman deadline tok (w : World W) res w' :
  (token <- getTokenContract env tok ;;
   decimals <- view (fun x => read_decimals x token) ;;
   amount <- parseAmount amountHuman decimals ;;
   d <- lift (uint_of_number deadline) ;;
   rc <- submit token (build amount d) ;;
   ret (pack rc amount d)) w = (res, w') ->
  db w' = db w /\ emitted w' = emitted w
  /\ (calls w' = calls w
      \/ exists token decimals amount d,
           getTokenContract env tok w = (Val token, w)
           /\ read_decimals (ext w) token = Ok decimals
           /\ parseUnits amountHuman decimals = Ok amount
           /\ uint_of_number deadline = Ok d
           /\ calls w' = (calls w ++ [(token, build amount d)])%list)
  /\ (forall e, uint_of_number deadline = Throw e -> calls w' = calls w).
Proof.
  intros H. unfold bind at 1 in H.
  destruct (getTokenContract env tok w) as [[token|e|[]] w1] eqn:E1;
    reads E1; [|injection H as _ <-; repeat split; auto].
  unfold bind at 1 in H.
  destruct (view (fun x => read_decimals x token) w) as [[decimals|e|[]] w1] eqn:E2;
    pose proof (view_run _ _ E2) as ->;
    [|injection H as _ <-; repeat split; auto].
  apply view_Val in E2. destruct E2 as [E2 _].
  unfold bind at 1 in H. unfold parseAmount in H.
  destruct (parseUnits amountHuman decimals) as [amount|e] eqn:E3; cbn in H;
    [|injection H as _ <-; repeat split; auto].
  unfold bind at 1 in H.
  destruct (uint_of_number deadline) as [d|e] eqn:E4; cbn in H;
    [|injection H as _ <-; repeat split; auto].
  unfold bind at 1 in H.
  destruct (submit token (build amount d) w) as [[rc|e|[]] w1] eqn:E5;
    apply submit_run in E5; destruct E5 as (Hd & He & Hc & _);
    injection H as _ <-;
    (split; [exact Hd|]; split; [exact He|]; split;
     [right; exists token, decimals, amount, d; auto | discriminate]).
Qed.

(** The numbers the contract encoder refuses as a deadline. *)
Lemma uint_of_number_refuses n :
  not_a_uint n ->
  exists e, uint_of_number n = Throw e.
Proof.
  destruct n as [| | |q]; [cbn; eauto | cbn; eauto | cbn; eauto |].
  unfold uint_of_number. cbv zeta.
  intros [Hneg | Hfrac].
  - assert (E : (0 <=? Qnum (Qred q)) = false) by (apply Z.leb_gt; lia).
    rewrite E, andb_false_r. eauto.
  - assert (E : Pos.eqb (Qden (Qred q)) 1 = false) by now apply Pos.eqb_neq.
    rewrite E. cbn. eauto.
Qed.

(** X23. [mintWithSignature] and [burnWithSignature] submit at most one call,
    the matching contract method with the amount scaled by the decimals read
    from the token and the deadline as an unsigned integer; a deadline that
    is not one (negative, fractional, not a number) never reaches the
    chain.  Neither touches the database or the notifications. *)
Theorem signature_submissions_send_one_scaled_call
        signer account amountHuman deadline v r s tok (w : World W) :
  (forall res w',
      mintWithSignature env signer account amountHuman deadline v r s tok w
      = (res, w') ->
      db w' = db w /\ emitted w' = emitted w
      /\ (calls w' = calls w
          \/ exists token decimals amount d,
               getTokenContract env tok w = (Val token, w)
               /\ read_decimals (ext w) token = Ok decimals
               /\ parseUnits amountHuman decimals = Ok amount
               /\ uint_of_number deadline = Ok d
               /\ calls w'
                  = (calls w ++ [(token, call_mintWithSig signer account amount
                                                           d v r s)])%list)
      /\ (not_a_uint deadline -> calls w' = calls w))
  /\ (forall res w',
      burnWithSignature env signer account amountHuman deadline v r s tok w
      = (res, w') ->
      db w' = db w /\ emitted w' = emitted w
      /\ (calls w' = calls w
          \/ exists token decimals amount d,
               getTokenContract env tok w = (Val token, w)
               /\ read_decimals (ext w) token = Ok decimals
               /\ parseUnits amountHuman decimals = Ok amount
               /\ uint_of_number deadline = Ok d
               /\ calls w'
                  = (calls w ++ [(token, call_burnWithSig signer account amount
                                                           d v r s)])%list)
      /\ (not_a_uint deadline -> calls w' = calls w)).
Proof.
  assert (Hu : forall w' : World W,
             (forall e, uint_of_number deadline = Throw e -> calls w' = calls w) ->
             not_a_uint deadline -> calls w' = calls w).
  { intros w' Hw Hn. destruct (uint_of_number_refuses deadline Hn) as [e He].
    exact (Hw e He). }
  split; intros res w' H.
  - destruct (with_signature_run
             (fun amount d => call_mintWithSig signer account amount d v r s)
             (fun rc amount d =>
                mkMintResult (rc_hash rc) (rc_blockNumber rc) account amount
                             signer d)
             amountHuman deadline tok w H) as (H1 & H2 & H3 & H4).
    repeat split; auto.
  - destruct (with_signature_run
             (fun amount d => call_burnWithSig signer account amount d v r s)
             (fun rc amount d =>
                mkBurnResult (rc_hash rc) (rc_blockNumber rc) signer account
                             amount d)
             amountHuman deadline tok w H) as (H1 & H2 & H3 & H4).
    repeat split; auto.
Qed.


Lemma getTokenContract_unconfigured tok (w : World W) :
  (falsy tok = true -> falsy (TOKEN_ADDRESS env) = true ->
   getTokenContract env tok w
   = (Exc (Error "TOKEN_ADDRESS not configured"), w))
  /\ (falsy tok = false \/ falsy (TOKEN_ADDRESS env) = false ->
      falsy (PRIVATE_KEY env) = true ->
      getTokenContract env tok w
      = (Exc (Error "PRIVATE_KEY not configured"), w))
  /\ (falsy tok = false \/ falsy (TOKEN_ADDRESS env) = false ->
      falsy (PRIVATE_KEY env) = false -> falsy (RPC_URL env) = true ->
      getTokenContract env tok w
      = (Exc (Error "RPC_URL not configured"), w)).
Proof.
  unfold getTokenContract, address_or_default, getTokenAddress, getAdminWallet,
    getProvider, bind.
  destruct tok as [[|c a]|]; destruct (TOKEN_ADDRESS env) as [[|c1 t]|];
    destruct (PRIVATE_KEY env) as [[|c2 k]|];
    destruct (RPC_URL env) as [[|c3 u]|]; cbn;
    repeat split; intros; try discriminate; try reflexivity;
    repeat match goal with H : _ \/ _ |- _ => destruct H end;
    discriminate.
Qed.

(** X24. The functions that submit read the configuration on every call and
    throw, leaving the world as it was, when no token address is known
    (neither passed nor in [TOKEN_ADDRESS]), when [PRIVATE_KEY] is not set,
    or when [RPC_URL] is not set, in that order; a token address passed by
    the caller wins over [TOKEN_ADDRESS]. *)
Theorem gateway_throws_without_its_configuration
        signer account amountHuman deadline v r s recipient value d tok
        (w : World W) :
  (forall a, tok = Some a -> a <> EmptyString ->
             address_or_default env tok w = (Val a, w))
  /\ (forall msg,
        (falsy tok = true /\ falsy (TOKEN_ADDRESS env) = true
         /\ msg = "TOKEN_ADDRESS not configured")
        \/ ((falsy tok = false \/ falsy (TOKEN_ADDRESS env) = false)
            /\ falsy (PRIVATE_KEY env) = true
            /\ msg = "PRIVATE_KEY not configured")
        \/ ((falsy tok = false \/ falsy (TOKEN_ADDRESS env) = false)
            /\ falsy (PRIVATE_KEY env) = false
            /\ falsy (RPC_URL env) = true
            /\ msg = "RPC_URL not configured") ->
        mintWithSignature env signer account amountHuman deadline v r s tok w
        = (Exc (Error msg), w)
        /\ burnWithSignature env signer account amountHuman deadline v r s tok w
           = (Exc (Error msg), w)
        /\ permitTransfer env signer account value d v r s recipient tok w
           = (Exc (Error msg), w)).
Proof.
  split.
  - intros a -> Ha. cbn. destruct a; [now elim Ha | reflexivity].
  - intros msg H.
    assert (Hc : getTokenContract env tok w = (Exc (Error msg), w)).
    { destruct (getTokenContract_unconfigured tok w) as (H1 & H2 & H3).
      destruct H as [(Ht & Hk & ->) | [(Ha & Hp & ->) | (Ha & Hp & Hr & ->)]];
        auto. }
    unfold mintWithSignature, burnWithSignature, permitTransfer.
    unfold bind at 1. rewrite Hc.
    split; [reflexivity|]. unfold bind at 1. rewrite Hc.
    split; [reflexivity|]. unfold bind at 1. now rewrite Hc.
Qed.

End GatewaySubmissions.

(** ** What the gateway reads before it signs a permit *)
Section GatewayReads.
Import Blockchain.
Context {W : Type} {CH : Chain W} {L : Library}.
Variable env : Env.

Lemma getPermitNonce_reads owner tok (w : World W) n w' :
  getPermitNonce env owner tok w = (Val n, w') ->
  w' = w
  /\ exists token,
       getTokenContractReadonly env tok w = (Val token, w)
       /\ read_nonces (ext w) token owner = Ok n.
Proof.
  intros H. pose proof H as H'. reads H'.
  split; [reflexivity|].
  unfold getPermitNonce in H. run_bind H. reads E.
  apply view_Val in H. destruct H as [H _]. eauto.
Qed.

Lemma getTokenConfig_Val tok (w : World W) cfg w' :
  getTokenConfig env tok w = (Val cfg, w') ->
  exists token md chainId,
    getTokenContractReadonly env tok w = (Val token, w)
    /\ getNetwork (ext w) = Ok chainId
    /\ read_metadata (ext w) token = Ok md
    /\ cfg = mkTokenConfig token (md_name md) (md_symbol md) (md_decimals md)
               (md_totalSupply md) (md_owner md) (md_adminSpender md)
               (md_mintPaused md)
               (match read_adminBurnEnabled (ext w) token with
                | Ok b => b
                | Throw _ => false
                end)
               chainId.
Proof.
  intros H. unfold getTokenConfig in H.
  run_bind H. reads E. run_bind H. reads E0.
  run_bind H. apply view_Val in E1. destruct E1 as [Hnet ->].
  run_bind H. apply view_Val in E1. destruct E1 as [Hmd ->].
  run_bind H.
  assert (Hab : a3 = match read_adminBurnEnabled (ext w) a with
                     | Ok b => b
                     | Throw _ => false
                     end /\ w0 = w).
  { unfold try_catch, view in E1.
    destruct (read_adminBurnEnabled (ext w) a); cbn in E1;
      injection E1 as <- <-; auto. }
  destruct Hab as [-> ->].
  run_bind H.
  assert (Ha : a3 = a).
  { pose proof E as Et. unfold getTokenContractReadonly in Et.
    apply bind_Val in Et. destruct Et as (x & wx & Ex & Et).
    rewrite E2 in Ex. injection Ex as <- <-.
    apply bind_Val in Et. destruct Et as (y & wy & _ & Et).
    apply ret_Val in Et. destruct Et as [Et _]. symmetry; exact Et. }
  subst a3.
  apply ret_Val in H. destruct H as [-> _].
  do 3 eexists. split; [eassumption|]. split; [eassumption|].
  split; [eassumption | reflexivity].
Qed.

(** X25. [signPermit] only reads: the world is left as it was, and the permit
    it returns is signed with the wallet's key over the owner's current
    on-chain nonce, in the domain made of the token's own name, the
    network's chain id and the token's address. *)
Theorem signPermit_signs_the_current_nonce_in_the_token_domain
        wallet spender amountWei deadline tok (w : World W) p w' :
  signPermit env wallet spender amountWei deadline tok w = (Val p, w') ->
  w' = w
  /\ exists token md chainId nonce sig,
       getTokenContractReadonly env tok w = (Val token, w)
       /\ getNetwork (ext w) = Ok chainId
       /\ read_metadata (ext w) token = Ok md
       /\ read_nonces (ext w) token (ew_address wallet) = Ok nonce
       /\ signTypedData (ew_privateKey wallet)
            (mkDomain (md_name md) "1" chainId token)
            (Permit (ew_address wallet) spender amountWei nonce deadline)
          = Ok sig
       /\ p = mkPermitSignature (sig_v sig) (sig_r sig) (sig_s sig)
                (ew_address wallet) spender amountWei (N_toString nonce)
                deadline.
Proof.
  intros H. unfold signPermit in H.
  run_bind H. pose proof E as Ec. reads Ec.
  apply getTokenConfig_Val in E.
  destruct E as (token & md & chainId & Htok & Hnet & Hmd & ->).
  run_bind H. apply getPermitNonce_reads in E.
  destruct E as (-> & token' & Htok' & Hn).
  rewrite Htok in Htok'. injection Htok' as <-.
  run_bind H. unfold lift in E.
  destruct (signTypedData _ _ _) as [sig|e] eqn:Hs; [|discriminate E].
  injection E as <- <-.
  apply ret_Val in H. destruct H as [-> ->].
  split; [reflexivity|].
  do 5 eexists. repeat split; eassumption || reflexivity.
Qed.

End GatewayReads.

(** ** The socket handshake *)
Section Handshake.
Import WebSocket.

Lemma community_mismatch_false claimed stored :
  community_mismatch claimed stored = false ->
  claimed = None \/ claimed = stored.
Proof.
  destruct claimed as [c|]; [|now left]. cbn.
  destruct stored as [c'|]; cbn; [|discriminate].
  destruct (N.eqb_spec c' c); [subst; now right | discriminate].
Qed.

Lemma accepted_passes uid data db :
  accepted uid data db ->
  exists user,
    Storage.getUser uid db = Some user
    /\ opt_id_eqb (ad_userId data) uid = true
    /\ community_mismatch (ad_communityId data) (u_communityId user) = false.
Proof.
  intros (Hu & user & Hg & Hc). exists user. split; [exact Hg|]. split.
  - rewrite Hu. cbn. apply N.eqb_refl.
  - destruct Hc as [-> | ->]; [reflexivity|].
    destruct (u_communityId user) as [c|]; cbn; [|reflexivity].
    now rewrite N.eqb_refl.
Qed.

(** One [authenticate] message is either accepted, and then the socket
    joined the user's room and the stored community's, or refused, and then
    the socket was sent an error and closed. *)
Lemma authenticate_cases sessionUserId data db s :
  (exists uid user,
      sessionUserId = Some uid /\ accepted uid data db
      /\ Storage.getUser uid db = Some user
      /\ authenticate sessionUserId data db s
         = socket_emit authenticated
             match u_communityId user with
             | Some c => join (room_community c) (join (room_user uid) s)
             | None => join (room_user uid) s
             end)
  \/ (exists msg,
        (forall uid, sessionUserId = Some uid -> ~ accepted uid data db)
        /\ authenticate sessionUserId data db s
           = disconnect (socket_emit (error msg) s)).
Proof.
  unfold authenticate. destruct sessionUserId as [uid|].
  2:{ right. eexists. split; [discriminate | reflexivity]. }
  destruct (opt_id_eqb (ad_userId data) uid) eqn:Eu; cbn [negb].
  2:{ right. eexists. split; [|reflexivity].
      intros ? [= <-] Ha. apply accepted_passes in Ha.
      destruct Ha as (? & _ & Hu & _). congruence. }
  destruct (Storage.getUser uid db) as [user|] eqn:Eg.
  2:{ right. eexists. split; [|reflexivity].
      intros ? [= <-] Ha. apply accepted_passes in Ha.
      destruct Ha as (? & Hg & _). congruence. }
  destruct (community_mismatch _ _) eqn:Ec.
  { right. eexists. split; [|reflexivity].
    intros ? [= <-] Ha. apply accepted_passes in Ha.
    destruct Ha as (user' & Hg & _ & Hc). congruence. }
  left. exists uid, user. split; [reflexivity|].
  split; [|split; [exact Eg | reflexivity]].
  split.
  - destruct (ad_userId data) as [x|]; [|discriminate Eu]. cbn in Eu.
    apply N.eqb_eq in Eu. now subst.
  - exists user. split; [exact Eg|]. now apply community_mismatch_false.
Qed.

Lemma authenticate_rooms sessionUserId data db s r :
  In r (rooms (authenticate sessionUserId data db s)) ->
  In r (rooms s)
  \/ exists uid,
       sessionUserId = Some uid /\ accepted uid data db /\ own_room uid db r.
Proof.
  destruct (authenticate_cases sessionUserId data db s)
    as [(uid & user & Hs & Ha & Hg & ->) | (msg & _ & ->)];
    [|cbn; now left].
  destruct (u_communityId user) as [c|] eqn:Ec; cbn;
    rewrite ?in_app_iff; cbn; intros H.
  - destruct H as [[H | [<- | []]] | [<- | []]]; [now left | |];
      right; exists uid; split; auto; split; auto.
    + now left.
    + right. now exists user, c.
  - destruct H as [H | [<- | []]]; [now left|].
    right. exists uid. split; auto. split; auto. now left.
Qed.

Lemma authenticate_replies sessionUserId data db s :
  In authenticated (replies (authenticate sessionUserId data db s)) ->
  In authenticated (replies s)
  \/ exists uid, sessionUserId = Some uid /\ accepted uid data db.
Proof.
  destruct (authenticate_cases sessionUserId data db s)
    as [(uid & user & Hs & Ha & Hg & ->) | (msg & _ & ->)].
  - intros _. right. now exists uid.
  - cbn. rewrite in_app_iff. cbn.
    intros [H | [H | []]]; [now left | discriminate H].
Qed.

Lemma authenticate_keeps sessionUserId data db s :
  listens (authenticate sessionUserId data db s) = listens s
  /\ (forall r, In r (rooms s) ->
                In r (rooms (authenticate sessionUserId data db s))).
Proof.
  destruct (authenticate_cases sessionUserId data db s)
    as [(uid & user & Hs & Ha & Hg & ->) | (msg & _ & ->)];
    [|cbn; auto].
  destruct (u_communityId user); cbn; split; auto; intros r H;
    rewrite ?in_app_iff; auto.
Qed.

Lemma messages_keeps sessionUserId ms :
  forall s r,
    In r (rooms s) -> In r (rooms (messages sessionUserId ms s)).
Proof.
  induction ms as [|[data db] ms IH]; intros s r H; cbn [messages]; [exact H|].
  apply IH. destruct (connected s && listens s); [|exact H].
  now apply authenticate_keeps.
Qed.

Lemma messages_closed sessionUserId ms :
  forall s, connected s = false -> messages sessionUserId ms s = s.
Proof.
  induction ms as [|[data db] ms IH]; intros s H; cbn [messages];
    [reflexivity|].
  rewrite H. cbn. now apply IH.
Qed.

Lemma messages_rooms sessionUserId ms :
  forall s r,
    In r (rooms (messages sessionUserId ms s)) ->
    In r (rooms s)
    \/ exists uid data db,
         sessionUserId = Some uid /\ In (data, db) ms
         /\ accepted uid data db /\ own_room uid db r.
Proof.
  induction ms as [|[data db] ms IH]; intros s r; cbn [messages]; [now left|].
  intros H. apply IH in H.
  destruct H as [H | (uid & d & b & Hs & Hin & Ha & Ho)].
  - destruct (connected s && listens s); [|now left].
    apply authenticate_rooms in H.
    destruct H as [H | (uid & Hs & Ha & Ho)]; [now left|].
    right. exists uid, data, db. cbn. auto.
  - right. exists uid, d, b. cbn. auto.
Qed.

Lemma messages_replies sessionUserId ms :
  forall s,
    In authenticated (replies (messages sessionUserId ms s)) ->
    In authenticated (replies s)
    \/ exists uid data db,
         sessionUserId = Some uid /\ In (data, db) ms /\ accepted uid data db.
Proof.
  induction ms as [|[data db] ms IH]; intros s; cbn [messages]; [now left|].
  intros H. apply IH in H.
  destruct H as [H | (uid & d & b & Hs & Hin & Ha)].
  - destruct (connected s && listens s); [|now left].
    apply authenticate_replies in H.
    destruct H as [H | (uid & Hs & Ha)]; [now left|].
    right. exists uid, data, db. cbn. auto.
  - right. exists uid, d, b. cbn. auto.
Qed.

(** X26. Whatever a socket sends after it connected, the rooms it is in are the
    ones it had, the room of its session's user and the room of the
    community the database stores for that user, the last two only after an
    [authenticate] message that names that user and no other community; the
    confirmation is sent only after such a message.  When the first message
    is such a one the socket is put in both rooms; when it is not, the
    socket is sent an error and closed, and joins nothing whatever it sends
    next.  A socket without a session user is sent [auth-required] and
    closed, and nothing it sends is handled. *)
Theorem socket_joins_only_the_rooms_of_its_session sessionUserId ms s :
  (forall r,
      In r (rooms (messages sessionUserId ms (connection sessionUserId s))) ->
      In r (rooms s)
      \/ exists uid data db,
           sessionUserId = Some uid /\ In (data, db) ms
           /\ accepted uid data db /\ own_room uid db r)
  /\ (In authenticated
         (replies (messages sessionUserId ms (connection sessionUserId s))) ->
      In authenticated (replies s)
      \/ exists uid data db,
           sessionUserId = Some uid /\ In (data, db) ms
           /\ accepted uid data db)
  /\ (forall uid data db rest,
        sessionUserId = Some uid -> ms = (data, db) :: rest ->
        connected s = true -> accepted uid data db ->
        forall r, own_room uid db r ->
        In r (rooms (messages sessionUserId ms (connection sessionUserId s))))
  /\ (forall uid data db rest,
        sessionUserId = Some uid -> ms = (data, db) :: rest ->
        connected s = true -> ~ accepted uid data db ->
        exists msg,
          messages sessionUserId ms (connection sessionUserId s)
          = disconnect (socket_emit (error msg) (socket_on s)))
  /\ (sessionUserId = None ->
      messages sessionUserId ms (connection sessionUserId s)
      = disconnect (socket_emit auth_required s)).
Proof.
  split; [|split; [|split; [|split]]].
  - intros r H. apply messages_rooms in H.
    destruct sessionUserId; exact H.
  - intros H. apply messages_replies in H.
    destruct sessionUserId; cbn in H; [exact H|].
    destruct H as [H | H]; [|now right].
    rewrite in_app_iff in H. cbn in H.
    destruct H as [H | [H | []]]; [now left | discriminate H].
  - intros uid data db rest -> -> Hc Ha r Hr.
    cbn [messages connection]. cbn [socket_on connected listens].
    rewrite Hc. cbn [andb]. apply messages_keeps.
    destruct (authenticate_cases (Some uid) data db (socket_on s))
      as [(u & user & [= <-] & _ & Hg & ->) | (msg & Hn & _)];
      [|now elim (Hn uid eq_refl)].
    destruct Hr as [-> | (user' & c & Hg' & Hc' & ->)].
    + destruct (u_communityId user); cbn; rewrite ?in_app_iff; cbn; auto.
    + rewrite Hg in Hg'. injection Hg' as <-. rewrite Hc'. cbn.
      rewrite in_app_iff. cbn. auto.
  - intros uid data db rest -> -> Hc Hn.
    cbn [messages connection]. cbn [socket_on connected listens].
    rewrite Hc. cbn [andb].
    destruct (authenticate_cases (Some uid) data db (socket_on s))
      as [(u & user & [= <-] & Ha & _) | (msg & _ & ->)];
      [now elim Hn|].
    exists msg. now apply messages_closed.
  - intros ->. cbn [connection]. now apply messages_closed.
Qed.

End Handshake.


(** * The properties on the simulated deployment *)

Unset Implicit Arguments.

(** C3, witness: a key sealed and opened by the simulated vault. *)
Lemma decrypt_encrypt_roundtrip_witness :
  exists record,
    Sim.encrypt Sim.iv0 (Sim.key_of "c1") = Ok record
    /\ Sim.decrypt record = Ok (Sim.key_of "c1").
Proof.
  apply (@decrypt_encrypt_roundtrip Sim.shift_cipher shift_cipher_correct
           Sim.env "master-secret" Sim.iv0 (Sim.key_of "c1")).
  - reflexivity.
  - discriminate.
  - reflexivity.
  - reflexivity.
Defined.


(** C2, witness: the simulated deployment after a distribution and a
    burn-all. *)
Lemma settlement_requests_keep_hash_invariant_witness :
  hash_invariant
    (db (serve (CH := Sim.sim_chain) (L := Sim.library) (C := Sim.shift_cipher)
               Sim.env (do_burnAll (Some 1%N))
           (serve (CH := Sim.sim_chain) (L := Sim.library) (C := Sim.shift_cipher)
                  Sim.env
                  (do_distribute (Some 1%N)
                     (Some [Routes.mkDistribution "bob@rete.it" 75]))
                  Sim.world0))).
Proof.
  apply (@settlement_requests_keep_hash_invariant _ Sim.sim_chain Sim.library
           Sim.shift_cipher Sim.env Sim.world0).
  - intros t Hin. destruct Hin.
  - apply reach_serve, reach_serve, reach_start.
Defined.

(** C2, counterexample: the claim as stated also covers the storage-level
    mutators.  [burnAllCommunityTokens] inserts completed burn rows without
    a hash, and [updateTransactionStatus] called without a hash completes a
    pending row that has none. *)
Lemma storage_mutators_break_hash_invariant :
  hash_invariant Sim.store0
  /\ ~ hash_invariant (snd (Storage.burnAllCommunityTokens 10 1 Sim.store0))
  /\ (let pending_row :=
        Storage.createTransaction
          (mkInsertTransaction tx_burn 5 "Burn token" pending None
                               (Some 2%N) None None (Some 10%N)) Sim.store0 in
      hash_invariant (snd pending_row)
      /\ ~ hash_invariant
             (snd (Storage.updateTransactionStatus (t_id (fst pending_row))
                     completed None (snd pending_row)))).
Proof.
  split; [intros t []|]. split.
  - intros H.
    apply (H (mkTransaction 100 tx_burn 300 "Burn completo - Alice" completed
                            None (Some 2%N) (Some 1%N) None (Some 10%N))).
    + vm_compute. auto.
    + reflexivity.
    + reflexivity.
  - split.
    + intros t [<- | []]. discriminate.
    + intros H.
      apply (H (mkTransaction 100 tx_burn 5 "Burn token" completed
                              None (Some 2%N) None None (Some 10%N))).
      * vm_compute. auto.
      * reflexivity.
      * reflexivity.
Qed.




(** C8, witness: two mint authorizations and two burn authorizations signed
    against the same state of the simulated chain. *)
Lemma signing_reads_nonce_without_reserving_witness :
  Blockchain.a_nonce
    (Blockchain.mkAuthorization 27 ("0xr" ++ Sim.key_of "c1") "0xs" "0" "1700003600")
  = Blockchain.a_nonce
      (Blockchain.mkAuthorization 27 ("0xr" ++ Sim.key_of "c1") "0xs" "0" "1700007200").
Proof.
  apply (proj1 (proj2 (proj2 (@signing_reads_nonce_without_reserving
                                Sim.SimChain Sim.sim_chain Sim.library Sim.env
                                Sim.carla_wallet (Some "0xT0KEN") Sim.world0)))
           "0xA" 100 1700003600 "0xB" 75 1700007200 _ Sim.world0 _ Sim.world0).
  - vm_compute. reflexivity.
  - vm_compute. reflexivity.
Defined.

(** C9, witness: a mint-with-signature request whose deadline passed one
    second before it arrived. *)
Lemma expired_deadline_is_rejected_before_submission_witness :
  (exists status error,
      Sim.mintWithSig (Some 1%N) Sim.expired_request Sim.world0
      = (Routes.reply_error status error, Sim.world0)
      /\ (status = 400 \/ status = 401))
  /\ (exists status error,
      Sim.burnWithSig (Some 1%N) Sim.expired_request Sim.world0
      = (Routes.reply_error status error, Sim.world0)
      /\ (status = 400 \/ status = 401))
  /\ calls (snd (Sim.mintWithSig (Some 1%N) Sim.expired_request Sim.world0))
     = calls Sim.world0
  /\ calls (snd (Sim.burnWithSig (Some 1%N) Sim.expired_request Sim.world0))
     = calls Sim.world0.
Proof.
  apply (@expired_deadline_is_rejected_before_submission
           Sim.SimChain Sim.sim_chain Sim.library Sim.env
           (Some 1%N) Sim.expired_request Sim.world0).
  vm_compute. reflexivity.
Defined.





(** The same transfer, evaluated: the ledger moved fifty tokens from Alice to
    Bob while the [transferFrom] on the chain moved forty. *)
Example capped_transfer_diverges :
  option_map u_tokenBalance (Storage.getUser 2%N (db (snd Sim.capped_transfer)))
  = Some 250
  /\ option_map u_tokenBalance (Storage.getUser 3%N (db (snd Sim.capped_transfer)))
     = Some 200
  /\ exists owner,
      nth_error (calls (snd Sim.capped_transfer)) 1
      = Some ("0xT0KEN", call_transferFrom owner "0xB" (40 * 10 ^ 18)).
Proof.
  split; [vm_compute; reflexivity|].
  split; [vm_compute; reflexivity|].
  eexists. vm_compute. reflexivity.
Qed.

(** ** The storage layer on the simulated deployment *)

Lemma store0_unique_ids : unique_ids Sim.store0.
Proof.
  unfold unique_ids. cbn. repeat constructor; cbn; intuition discriminate.
Qed.



Lemma getCommunityBalances_lists_each_holder_once_witness :
  unique_ids Sim.store0
  /\ NoDup (map Storage.b_id (Storage.getCommunityBalances 10%N Sim.store0)).
Proof.
  split; [exact store0_unique_ids|].
  exact (proj1 (proj2 (getCommunityBalances_lists_each_holder_once
                         10%N Sim.store0))
           store0_unique_ids).
Defined.



Lemma updateTransactionStatus_unknown_key_and_kept_hash_witness :
  Storage.getTransaction 7%N Sim.store0 = None
  /\ Storage.updateTransactionStatus 7%N failed (Some "0xabc") Sim.store0
     = (None, Sim.store0).
Proof.
  split; [reflexivity|].
  exact (proj1 (updateTransactionStatus_unknown_key_and_kept_hash
                  7%N failed Sim.store0)
           (Some "0xabc") eq_refl).
Defined.


Lemma createWallet_first_wallet_is_default_witness :
  Storage.getWalletsByUser 4%N Sim.store0 = []
  /\ Storage.getDefaultWallet 4%N
       (snd (Storage.createWallet
               (Storage.mkInsertWallet 4%N "0xD" "record" (Some 0)) Sim.store0))
     = Some (fst (Storage.createWallet
                    (Storage.mkInsertWallet 4%N "0xD" "record" (Some 0))
                    Sim.store0)).
Proof.
  split; [reflexivity|].
  exact (proj2 (proj1 (proj2 (proj2
           (createWallet_first_wallet_is_default
              (Storage.mkInsertWallet 4%N "0xD" "record" (Some 0)) Sim.store0)))
           eq_refl)).
Defined.

Lemma setDefaultWallet_marks_only_an_own_wallet_witness :
  (forall w, In w (wallets Sim.store0) -> w_id w = 31%N -> w_userId w <> 2%N)
  /\ Storage.getDefaultWallet 2%N (Storage.setDefaultWallet 2%N 31%N Sim.store0)
     = None.
Proof.
  assert (H : forall w, In w (wallets Sim.store0) -> w_id w = 31%N ->
                        w_userId w <> 2%N).
  { intros w Hin Hid. cbn in Hin.
    destruct Hin as [<- | [<- | [<- | []]]]; cbn in *;
      first [discriminate Hid | discriminate]. }
  split; [exact H|].
  exact (proj1 (proj2 (proj2
           (setDefaultWallet_marks_only_an_own_wallet 2%N 31%N Sim.store0))) H).
Defined.


(** ** The invariants of the settlement requests on the simulated
    deployment *)

Lemma settlement_requests_only_move_balances_witness :
  same_accounts Sim.store0
    (db (serve (CH := Sim.sim_chain) (L := Sim.library) (C := Sim.shift_cipher)
               Sim.env (do_transfer (Some 2%N) (Some 3%N) (Some 50) None)
           (serve (CH := Sim.sim_chain) (L := Sim.library) (C := Sim.shift_cipher)
                  Sim.env
                  (do_distribute (Some 1%N)
                     (Some [Routes.mkDistribution "bob@rete.it" 75]))
                  Sim.world0))).
Proof.
  apply (@settlement_requests_only_move_balances _ Sim.sim_chain Sim.library
           Sim.shift_cipher Sim.env Sim.world0).
  apply reach_serve, reach_serve, reach_start.
Defined.

Lemma settlement_requests_keep_the_log_witness :
  log_kept
    (db (serve (CH := Sim.sim_chain) (L := Sim.library) (C := Sim.shift_cipher)
               Sim.env
               (do_distribute (Some 1%N)
                  (Some [Routes.mkDistribution "bob@rete.it" 75]))
               Sim.world0))
    (db (serve (CH := Sim.sim_chain) (L := Sim.library) (C := Sim.shift_cipher)
               Sim.env (do_burnAll (Some 1%N))
           (serve (CH := Sim.sim_chain) (L := Sim.library) (C := Sim.shift_cipher)
                  Sim.env
                  (do_distribute (Some 1%N)
                     (Some [Routes.mkDistribution "bob@rete.it" 75]))
                  Sim.world0))).
Proof.
  apply (@settlement_requests_keep_the_log _ Sim.sim_chain Sim.library
           Sim.shift_cipher Sim.env).
  apply reach_serve, reach_start.
Defined.

(** ** The requests as a whole on the simulated deployment *)


Lemma only_a_coordinator_mints_or_burns_witness :
  (forall u, Storage.getUser 2%N (db Sim.world0) = Some u ->
             u_role u <> role_coordinator)
  /\ Sim.burnAll (Some 2%N) Sim.world0
     = (Routes.reply_error 403 "Solo i coordinatori possono eseguire il burn",
        Sim.world0).
Proof.
  assert (H : forall u, Storage.getUser 2%N (db Sim.world0) = Some u ->
                        u_role u <> role_coordinator).
  { intros u Hu. cbn in Hu. injection Hu as <-. discriminate. }
  split; [exact H|].
  exact (proj2 (proj2 (@only_a_coordinator_mints_or_burns
                         Sim.SimChain Sim.sim_chain Sim.library
                         Sim.shift_cipher Sim.env 2%N Sim.world0 H))).
Defined.



Lemma distribute_and_burn_move_the_ledger_total_witness :
  unique_ids (db Sim.world0)
  /\ total_balance (db (snd Sim.distributed_bob))
     = total_balance (db Sim.world0)
       + sum_distributed
           (Routes.distributed
              (Routes.mkDistributeBody
                 [Routes.mkDistributed "bob@rete.it" 75 "Bob" "0xtx1"] [])).
Proof.
  split; [exact store0_unique_ids|].
  apply (proj1 (@distribute_and_burn_move_the_ledger_total
                  Sim.SimChain Sim.sim_chain Sim.library Sim.shift_cipher
                  Sim.env)
           (Some 1%N) (Some [Routes.mkDistribution "bob@rete.it" 75])
           Sim.world0
           (Routes.mkDistributeBody
              [Routes.mkDistributed "bob@rete.it" 75 "Bob" "0xtx1"] [])
           (snd Sim.distributed_bob)).
  - vm_compute. reflexivity.
  - exact store0_unique_ids.
Defined.

Lemma store0_solvent : solvent Sim.store0.
Proof.
  intros u Hu. cbn in Hu.
  repeat (destruct Hu as [<- | Hu]; [cbn; lia|]). destruct Hu.
Qed.

Lemma transfers_purchases_and_distributions_keep_the_ledger_solvent_witness :
  unique_ids (db Sim.world_capped) /\ solvent (db Sim.world_capped)
  /\ solvent (db (snd Sim.capped_transfer)).
Proof.
  split; [exact store0_unique_ids|]. split; [exact store0_solvent|].
  exact (proj1 (@transfers_purchases_and_distributions_keep_the_ledger_solvent
                  Sim.SimChain Sim.sim_chain Sim.library Sim.shift_cipher
                  Sim.env)
           (Some 2%N) (Some 3%N) (Some 50) None Sim.world_capped
           store0_unique_ids store0_solvent).
Defined.

(** ** Signing, wallets and the vault on the simulated deployment *)


Lemma wallet_routes_act_on_own_wallets_only_witness :
  Some 1%N <> Some 2%N
  /\ (In (mkWallet 31 1 "0xC" (Sim.sealed (Sim.key_of "c1")) 1)
         (wallets (db (snd (Routes.walletSetDefault (W := Sim.SimChain)
                              (Some 2%N) 32%N Sim.world0))))
      <-> In (mkWallet 31 1 "0xC" (Sim.sealed (Sim.key_of "c1")) 1)
             (wallets (db Sim.world0))).
Proof.
  assert (H : Some 1%N <> Some 2%N) by discriminate.
  split; [exact H|].
  exact (proj1 (@wallet_routes_act_on_own_wallets_only Sim.SimChain)
           (Some 2%N) 32%N Sim.world0
           (mkWallet 31 1 "0xC" (Sim.sealed (Sim.key_of "c1")) 1) H).
Defined.

Lemma stored_wallet_opens_with_its_key_witness :
  exists uid key wallet,
    Some 4%N = Some uid /\ Some (Sim.key_of "d4") = Some key
    /\ wallets (db (snd Sim.imported))
       = (wallets (db Sim.world0) ++ [wallet])%list
    /\ Routes.mkWalletBody 100 ("0xaddr" ++ Sim.key_of "d4") true
       = Routes.wallet_body wallet
    /\ w_userId wallet = uid
    /\ wallet_address (Library := Sim.library) key = Ok (w_address wallet)
    /\ KeyVault.decryptPrivateKey (C := Sim.shift_cipher) Sim.env
         (w_encryptedPrivateKey wallet) = Ok key
    /\ (Storage.getWalletsByUser uid (db Sim.world0) = [] ->
        Storage.getDefaultWallet uid (db (snd Sim.imported)) = Some wallet)
    /\ (Storage.getWalletsByUser uid (db Sim.world0) <> [] ->
        w_isDefault wallet = 0).
Proof.
  apply (proj1 (@stored_wallet_opens_with_its_key
                  Sim.SimChain Sim.library Sim.shift_cipher Sim.env
                  shift_cipher_correct "master-secret" Sim.iv0
                  eq_refl ltac:(discriminate) eq_refl)
           (Some 4%N) (Some "main") (Some (Sim.key_of "d4")) Sim.world0
           (Routes.mkWalletBody 100 ("0xaddr" ++ Sim.key_of "d4") true)
           (snd Sim.imported)).
  vm_compute. reflexivity.
Defined.

Lemma sealed_record_holds_iv_tag_and_ciphertext_witness :
  Sim.encrypt Sim.iv0 (Sim.key_of "c1") = Ok (Sim.sealed (Sim.key_of "c1"))
  /\ List.length (KeyVault.split KeyVault.colon (Sim.sealed (Sim.key_of "c1")))
     = 3%nat.
Proof.
  assert (H : Sim.encrypt Sim.iv0 (Sim.key_of "c1")
              = Ok (Sim.sealed (Sim.key_of "c1")))
    by (vm_compute; reflexivity).
  split; [exact H|].
  exact (proj1 (proj2 (@sealed_record_holds_iv_tag_and_ciphertext
                         Sim.shift_cipher Sim.env Sim.iv0 (Sim.key_of "c1")
                         (Sim.sealed (Sim.key_of "c1")) H))).
Defined.

Lemma vault_throws_without_the_master_secret_witness :
  falsy (WALLET_ENCRYPTION_KEY Sim.env_without_secret) = true
  /\ KeyVault.decryptPrivateKey (C := Sim.shift_cipher) Sim.env_without_secret
       (Sim.sealed (Sim.key_of "c1"))
     = Throw (Error "WALLET_ENCRYPTION_KEY not configured").
Proof.
  split; [reflexivity|].
  exact (proj2 (@vault_throws_without_the_master_secret
                  Sim.shift_cipher Sim.env_without_secret eq_refl)
           (Sim.sealed (Sim.key_of "c1"))).
Defined.

Lemma permitTransfer_submits_the_permit_and_one_bounded_transfer_witness :
  Blockchain.toLowerCase "0xSomeoneElse"
  <> Blockchain.toLowerCase ("0xaddr" ++ "0xadminkey")
  /\ Blockchain.permitTransfer (CH := Sim.sim_chain) (L := Sim.library) Sim.env
       "0xA" "0xSomeoneElse" 50 1700003600 27 "0xr" "0xs" "0xB"
       (Some "0xT0KEN") Sim.world0
     = (Exc (Error "Spender must be server wallet"), Sim.world0).
Proof.
  assert (H : Blockchain.toLowerCase "0xSomeoneElse"
              <> Blockchain.toLowerCase ("0xaddr" ++ "0xadminkey"))
    by (vm_compute; discriminate).
  split; [exact H|].
  exact (proj1 (proj2 (@permitTransfer_submits_the_permit_and_one_bounded_transfer
                         Sim.SimChain Sim.sim_chain Sim.library Sim.env
                         "0xA" "0xSomeoneElse" 50 1700003600 27 "0xr" "0xs"
                         "0xB" (Some "0xT0KEN") Sim.world0))
           "0xT0KEN" (Blockchain.mkEWallet "0xadminkey" ("0xaddr" ++ "0xadminkey"))
           eq_refl eq_refl H).
Defined.

Lemma signature_submissions_send_one_scaled_call_witness :
  not_a_uint (Finite (-1 # 1))
  /\ calls (snd (Blockchain.mintWithSignature (CH := Sim.sim_chain)
                   (L := Sim.library) Sim.env "0xS" "0xA" 5 (Finite (-1 # 1))
                   27 "0xr" "0xs" (Some "0xT0KEN") Sim.world0))
     = calls Sim.world0.
Proof.
  assert (H : not_a_uint (Finite (-1 # 1))) by (left; vm_compute; reflexivity).
  split; [exact H|].
  exact (proj2 (proj2 (proj2
           (proj1 (@signature_submissions_send_one_scaled_call
                     Sim.SimChain Sim.sim_chain Sim.library Sim.env
                     "0xS" "0xA" 5 (Finite (-1 # 1)) 27 "0xr" "0xs"
                     (Some "0xT0KEN") Sim.world0)
              _ _ (surjective_pairing _)))) H).
Defined.

Lemma gateway_throws_without_its_configuration_witness :
  falsy (@None string) = true /\ falsy (TOKEN_ADDRESS Sim.env) = true
  /\ Blockchain.permitTransfer (CH := Sim.sim_chain) (L := Sim.library) Sim.env
       "0xA" "0xadmin" 50 1700003600 27 "0xr" "0xs" "0xB" None Sim.world0
     = (Exc (Error "TOKEN_ADDRESS not configured"), Sim.world0).
Proof.
  split; [reflexivity|]. split; [reflexivity|].
  exact (proj2 (proj2
           (proj2 (@gateway_throws_without_its_configuration
                     Sim.SimChain Sim.sim_chain Sim.library Sim.env
                     "0xA" "0xadmin" 5 NaN 27 "0xr" "0xs" "0xB" 50 1700003600
                     None Sim.world0)
              "TOKEN_ADDRESS not configured"
              (or_introl (conj eq_refl (conj eq_refl eq_refl)))))).
Defined.

Lemma signPermit_signs_the_current_nonce_in_the_token_domain_witness :
  exists p,
    Blockchain.signPermit (CH := Sim.sim_chain) (L := Sim.library) Sim.env
      Sim.carla_wallet "0xadmin" 50 1700003600 (Some "0xT0KEN") Sim.world0
    = (Val p, Sim.world0)
    /\ Blockchain.ps_nonce p = "0".
Proof.
  assert (H : exists p,
             Blockchain.signPermit (CH := Sim.sim_chain) (L := Sim.library)
               Sim.env Sim.carla_wallet "0xadmin" 50 1700003600
               (Some "0xT0KEN") Sim.world0
             = (Val p, Sim.world0))
    by (vm_compute; eexists; reflexivity).
  destruct H as [p H]. exists p. split; [exact H|].
  destruct (proj2 (@signPermit_signs_the_current_nonce_in_the_token_domain
                     Sim.SimChain Sim.sim_chain Sim.library Sim.env
                     Sim.carla_wallet "0xadmin" 50 1700003600
                     (Some "0xT0KEN") Sim.world0 p Sim.world0 H))
    as (token & md & chainId & nonce & sig & _ & _ & _ & Hn & _ & ->).
  cbn in Hn. injection Hn as <-. reflexivity.
Defined.

Lemma socket_joins_only_the_rooms_of_its_session_witness :
  accepted 2%N (WebSocket.mkAuthData (Some 2%N) None) Sim.store0
  /\ own_room 2%N Sim.store0 (room_community 10)
  /\ In (room_community 10)
        (WebSocket.rooms
           (WebSocket.messages (Some 2%N)
              [(WebSocket.mkAuthData (Some 2%N) None, Sim.store0)]
              (WebSocket.connection (Some 2%N)
                 (WebSocket.mkSocket [] [] true false)))).
Proof.
  assert (Ha : accepted 2%N (WebSocket.mkAuthData (Some 2%N) None) Sim.store0).
  { split; [reflexivity|]. exists Sim.alice. split; [reflexivity | now left]. }
  assert (Ho : own_room 2%N Sim.store0 (room_community 10)).
  { right. exists Sim.alice, 10%N. repeat split. }
  split; [exact Ha|]. split; [exact Ho|].
  exact (proj1 (proj2 (proj2 (socket_joins_only_the_rooms_of_its_session
                                (Some 2%N)
                                [(WebSocket.mkAuthData (Some 2%N) None,
                                  Sim.store0)]
                                (WebSocket.mkSocket [] [] true false))))
           2%N (WebSocket.mkAuthData (Some 2%N) None) Sim.store0 []
           eq_refl eq_refl eq_refl Ha (room_community 10) Ho).
Defined.
